(** * Verification of the rl-swarm wire codec, gossip publisher and reward
    submission controller.

    The development embeds, in plain Rocq over the Standard Library:
    - [web/api/game_tree.py]: the tagged binary codec ([to_bytes],
      [from_bytes] and their per-type helpers);
    - [web/api/dht_pub.py]: one polling cycle of [GossipDHTPublisher];
    - [rgym_exp/src/manager.py]: [_try_submit_to_chain], the two hooks
      that call it, and the round barrier [agent_block].

    Python [bytes] are lists of [Byte.byte]; Python [int]s are [Z]; Python
    [str]s are lists of code points ([list Z]); a Python [float] is kept as
    its IEEE-754 binary64 bit pattern (a [Z] in [0, 2^64)) inside the codec,
    and as a rational number ([Q]) in the reward and clock arithmetic of
    the manager. Exceptions are the [Err] branch of a small result monad. *)

From Stdlib Require Import String Ascii ZArith Lia Bool QArith.
From Stdlib Require Import List.
From Stdlib Require Import Permutation.
Import ListNotations.
Open Scope Z_scope.
Set Warnings "-register-all".

(* ------------------------------------------------------------------ *)
(** ** Exceptions and the result monad *)

(** Python exception classes that the modelled code can raise.
    [OutOfFuel] is not a Python exception: it is the fuel bound of the
    recursive decoder, which the lemma [from_bytes_fuel_adequate] shows is
    never reached from [from_bytes]. *)
Inductive exn :=
| RuntimeError | IndexError | StructError | UnicodeDecodeError
| UnicodeEncodeError | OverflowError | TypeError | AttributeError
| KeyError | OutOfFuel.

Inductive result (A : Type) : Type :=
| Ok (a : A)
| Err (e : exn).
Arguments Ok {A} a.
Arguments Err {A} e.

Definition bind {A B} (m : result A) (k : A -> result B) : result B :=
  match m with
  | Ok a => k a
  | Err e => Err e
  end.

Notation "'let*' x ':=' m 'in' k" := (bind m (fun x => k))
  (at level 200, x name, m at level 100, k at level 200).
Notation "'let*' ' p ':=' m 'in' k" :=
  (bind m (fun x => match x with p => k end))
  (at level 200, p pattern, m at level 100, k at level 200).

Lemma bind_ok {A B} (a : A) (k : A -> result B) : bind (Ok a) k = k a.
Proof. reflexivity. Qed.

(* ------------------------------------------------------------------ *)
(** ** Bytes *)

Definition bytes := list Byte.byte.

(** The integer value of a byte, and the byte of an integer modulo 256. *)
Definition bZ (x : Byte.byte) : Z := Z.of_N (Byte.to_N x).

Definition Zb (z : Z) : Byte.byte :=
  match Byte.of_N (Z.to_N (z mod 256)) with
  | Some x => x
  | None => Byte.x00
  end.

Lemma bZ_range (x : Byte.byte) : 0 <= bZ x < 256.
Proof.
  unfold bZ. pose proof (Byte.to_N_bounded x). lia.
Qed.

Lemma bZ_Zb (z : Z) : bZ (Zb z) = z mod 256.
Proof.
  unfold Zb, bZ.
  pose proof (Z.mod_pos_bound z 256 ltac:(lia)) as Hb.
  pose proof (Byte.to_of_N_option_map (Z.to_N (z mod 256))) as H.
  destruct (Byte.of_N (Z.to_N (z mod 256))) as [x|] eqn:E.
  - simpl in H. replace (Z.to_N (z mod 256) <=? 255)%N with true in H.
    + injection H as H. rewrite H. lia.
    + symmetry. apply N.leb_le. lia.
  - simpl in H. replace (Z.to_N (z mod 256) <=? 255)%N with true in H.
    + discriminate.
    + symmetry. apply N.leb_le. lia.
Qed.

Lemma Zb_bZ (x : Byte.byte) : Zb (bZ x) = x.
Proof.
  unfold Zb, bZ. pose proof (Byte.to_N_bounded x).
  rewrite Z.mod_small by lia. rewrite N2Z.id, Byte.of_to_N. reflexivity.
Qed.

(** Python slicing [b[i : i + n]] on non-negative indices: positions past
    the end are silently dropped. Written by recursion on the list so that
    huge indices never become unary numbers. *)
Fixpoint skipZ {A} (i : Z) (l : list A) : list A :=
  match l with
  | [] => []
  | x :: t => if i <=? 0 then l else skipZ (i - 1) t
  end.

Fixpoint takeZ {A} (n : Z) (l : list A) : list A :=
  match l with
  | [] => []
  | x :: t => if n <=? 0 then [] else x :: takeZ (n - 1) t
  end.

Definition slice (b : bytes) (i j : Z) : bytes := takeZ (j - i) (skipZ i b).

(** Python indexing [b[i]] for [0 <= i]. *)
Definition byte_at (b : bytes) (i : Z) : result Z :=
  match skipZ i b with
  | x :: _ => Ok (bZ x)
  | [] => Err IndexError
  end.

(** [int.from_bytes(l, byteorder="big", signed=False)]. *)
Definition be_uint (l : bytes) : Z :=
  fold_left (fun acc x => acc * 256 + bZ x) l 0.

(** [int.from_bytes(l, byteorder="big", signed=True)]: two's complement
    over [8 * len(l)] bits; the empty string gives 0. *)
Definition be_sint (l : bytes) : Z :=
  let u := be_uint l in
  let w := 8 * Z.of_nat (length l) in
  match l with
  | [] => 0
  | _ => if u <? 2 ^ (w - 1) then u else u - 2 ^ w
  end.

(** The [n] low bytes of [z] (two's complement for negatives), most
    significant first. *)
Fixpoint to_be (n : nat) (z : Z) : bytes :=
  match n with
  | O => []
  | S n' => to_be n' (z / 256) ++ [Zb z]
  end.

(** [z.to_bytes(length=n, byteorder="big", signed=False)]. *)
Definition uint_to_bytes (n : nat) (z : Z) : result bytes :=
  if (0 <=? z) && (z <? 2 ^ (8 * Z.of_nat n)) then Ok (to_be n z)
  else Err OverflowError.

(** [z.to_bytes(length=n, byteorder="big", signed=True)]. *)
Definition sint_to_bytes (n : nat) (z : Z) : result bytes :=
  let w := 8 * Z.of_nat n in
  if (n =? 0)%nat then (if z =? 0 then Ok [] else Err OverflowError)
  else if (- 2 ^ (w - 1) <=? z) && (z <? 2 ^ (w - 1)) then Ok (to_be n z)
  else Err OverflowError.

(* ------------------------------------------------------------------ *)
(** ** UTF-8, as used by [str.encode("utf-8")] and [bytes.decode("utf-8")] *)

(** Encoding of one code point; lone surrogates are refused with
    [UnicodeEncodeError] (Python's strict error handler). *)
Definition utf8_encode_cp (cp : Z) : result bytes :=
  if (cp <? 0) || (0x10FFFF <? cp) then Err UnicodeEncodeError
  else if cp <? 0x80 then Ok [Zb cp]
  else if cp <? 0x800 then Ok [Zb (0xC0 + cp / 64); Zb (0x80 + cp mod 64)]
  else if cp <? 0x10000 then
    if (0xD800 <=? cp) && (cp <=? 0xDFFF) then Err UnicodeEncodeError
    else Ok [Zb (0xE0 + cp / 4096); Zb (0x80 + (cp / 64) mod 64);
             Zb (0x80 + cp mod 64)]
  else Ok [Zb (0xF0 + cp / 262144); Zb (0x80 + (cp / 4096) mod 64);
           Zb (0x80 + (cp / 64) mod 64); Zb (0x80 + cp mod 64)].

Fixpoint utf8_encode (s : list Z) : result bytes :=
  match s with
  | [] => Ok []
  | cp :: t =>
      let* b := utf8_encode_cp cp in
      let* r := utf8_encode t in
      Ok (b ++ r)
  end.

Definition in_range (lo hi : Z) (x : Byte.byte) : bool :=
  (lo <=? bZ x) && (bZ x <=? hi).

Definition cons_opt {A} (x : A) (o : option (list A)) : option (list A) :=
  match o with
  | Some l => Some (x :: l)
  | None => None
  end.

(** Strict decoding: exactly the well-formed byte sequences of the
    Unicode standard (Table 3-7) are accepted; anything else makes
    [bytes.decode] raise. *)
Fixpoint utf8_decode (l : bytes) : option (list Z) :=
  match l with
  | [] => Some []
  | b0 :: t =>
    let c0 := bZ b0 in
    if c0 <? 0x80 then cons_opt c0 (utf8_decode t)
    else if (0xC2 <=? c0) && (c0 <=? 0xDF) then
      match t with
      | b1 :: t' =>
          if in_range 0x80 0xBF b1
          then cons_opt ((c0 - 0xC0) * 64 + (bZ b1 - 0x80)) (utf8_decode t')
          else None
      | _ => None
      end
    else if (0xE0 <=? c0) && (c0 <=? 0xEF) then
      match t with
      | b1 :: b2 :: t' =>
          let lo1 := if c0 =? 0xE0 then 0xA0 else 0x80 in
          let hi1 := if c0 =? 0xED then 0x9F else 0xBF in
          if in_range lo1 hi1 b1 && in_range 0x80 0xBF b2
          then cons_opt ((c0 - 0xE0) * 4096 + (bZ b1 - 0x80) * 64
                         + (bZ b2 - 0x80)) (utf8_decode t')
          else None
      | _ => None
      end
    else if (0xF0 <=? c0) && (c0 <=? 0xF4) then
      match t with
      | b1 :: b2 :: b3 :: t' =>
          let lo1 := if c0 =? 0xF0 then 0x90 else 0x80 in
          let hi1 := if c0 =? 0xF4 then 0x8F else 0xBF in
          if in_range lo1 hi1 b1 && in_range 0x80 0xBF b2
             && in_range 0x80 0xBF b3
          then cons_opt ((c0 - 0xF0) * 262144 + (bZ b1 - 0x80) * 4096
                         + (bZ b2 - 0x80) * 64 + (bZ b3 - 0x80))
                        (utf8_decode t')
          else None
      | _ => None
      end
    else None
  end.

(* ------------------------------------------------------------------ *)
(** ** Values of the codec *)

(** The Python objects [to_bytes] accepts: [None], [bool], [int],
    [float] (bit pattern), [str] (code points), [list], [dict] (insertion
    ordered association list), [Payload] and [WorldState]. *)
Inductive value : Type :=
| VNone
| VBool (b : bool)
| VInt (z : Z)
| VFloat (bits : Z)
| VStr (s : list Z)
| VList (xs : list value)
| VDict (kvs : list (value * value))
| VPayload (world_state actions metadata : value)
| VWorld (environment_states opponent_states personal_states : value).

(** Induction over the nested lists of [value]. *)
Section ValueInd.
  Variable P : value -> Prop.
  Hypothesis HNone : P VNone.
  Hypothesis HBool : forall b, P (VBool b).
  Hypothesis HInt : forall z, P (VInt z).
  Hypothesis HFloat : forall f, P (VFloat f).
  Hypothesis HStr : forall s, P (VStr s).
  Hypothesis HList : forall xs, Forall P xs -> P (VList xs).
  Hypothesis HDict : forall kvs,
    Forall (fun kv => P (fst kv) /\ P (snd kv)) kvs -> P (VDict kvs).
  Hypothesis HPayload : forall a b c, P a -> P b -> P c -> P (VPayload a b c).
  Hypothesis HWorld : forall a b c, P a -> P b -> P c -> P (VWorld a b c).

Fixpoint value_ind' (v : value) : P v :=
    match v with
    | VNone => HNone
    | VBool b => HBool b
    | VInt z => HInt z
    | VFloat f => HFloat f
    | VStr s => HStr s
    | VList xs =>
        HList xs ((fix go (l : list value) : Forall P l :=
                     match l with
                     | [] => Forall_nil _
                     | x :: t => Forall_cons x (value_ind' x) (go t)
                     end) xs)
    | VDict kvs =>
        HDict kvs ((fix go (l : list (value * value))
                      : Forall (fun kv => P (fst kv) /\ P (snd kv)) l :=
                     match l with
                     | [] => Forall_nil _
                     | (k, x) :: t =>
                         Forall_cons (k, x) (conj (value_ind' k) (value_ind' x))
                                     (go t)
                     end) kvs)
    | VPayload a b c => HPayload a b c (value_ind' a) (value_ind' b) (value_ind' c)
    | VWorld a b c => HWorld a b c (value_ind' a) (value_ind' b) (value_ind' c)
    end.
End ValueInd.

(* ------------------------------------------------------------------ *)
(** ** Python equality and hashing of dictionary keys *)

(** [float] bit patterns: finite values are [(-1)^s * m * 2^e]. *)
Definition float_exp_field (bits : Z) : Z := (bits / 2 ^ 52) mod 2048.
Definition float_frac (bits : Z) : Z := bits mod 2 ^ 52.
Definition float_sign (bits : Z) : bool := 2 ^ 63 <=? bits.
Definition float_is_nan (bits : Z) : bool :=
  (float_exp_field bits =? 2047) && negb (float_frac bits =? 0).
Definition float_is_inf (bits : Z) : bool :=
  (float_exp_field bits =? 2047) && (float_frac bits =? 0).

(** Signed mantissa and exponent of a finite float. *)
Definition float_finite (bits : Z) : Z * Z :=
  let e := float_exp_field bits in
  let m := if e =? 0 then float_frac bits else float_frac bits + 2 ^ 52 in
  let ex := if e =? 0 then -1074 else e - 1075 in
  (if float_sign bits then - m else m, ex).

(** [x == y] between two floats. *)
Definition float_eq (x y : Z) : bool :=
  if float_is_nan x || float_is_nan y then false
  else if float_is_inf x || float_is_inf y then x =? y
  else let '(m1, e1) := float_finite x in
       let '(m2, e2) := float_finite y in
       m1 * 2 ^ (e1 + 1074) =? m2 * 2 ^ (e2 + 1074).

(** [z == x] between an int (or bool) and a float: exact comparison. *)
Definition int_float_eq (z x : Z) : bool :=
  if float_is_nan x || float_is_inf x then false
  else let '(m, e) := float_finite x in
       z * 2 ^ 1074 =? m * 2 ^ (e + 1074).

Fixpoint list_Z_eqb (s t : list Z) : bool :=
  match s, t with
  | [], [] => true
  | a :: s', c :: t' => (a =? c) && list_Z_eqb s' t'
  | _, _ => false
  end.

(** Hashable objects: [None], [bool], [int], [float], [str]. A [list],
    [dict], [Payload] (a [dict] subclass) or [WorldState] (a dataclass with
    [eq=True], whose [__hash__] is [None]) is not. *)
Definition hashable (v : value) : bool :=
  match v with
  | VNone | VBool _ | VInt _ | VFloat _ | VStr _ => true
  | _ => false
  end.

Definition num_of_bool (b : bool) : Z := if b then 1 else 0.

(** [k1 == k2] between two hashable keys ([bool] is a subclass of [int]). *)
Definition key_eq (k1 k2 : value) : bool :=
  match k1, k2 with
  | VNone, VNone => true
  | VBool a, VBool c => Bool.eqb a c
  | VBool a, VInt z | VInt z, VBool a => num_of_bool a =? z
  | VInt a, VInt c => a =? c
  | VBool a, VFloat x | VFloat x, VBool a => int_float_eq (num_of_bool a) x
  | VInt z, VFloat x | VFloat x, VInt z => int_float_eq z x
  | VFloat x, VFloat y => float_eq x y
  | VStr s, VStr t => list_Z_eqb s t
  | _, _ => false
  end.

(** [out[key] = value]: an existing equal key keeps its place (and its
    original key object) and gets the new value; a new key is appended.
    As in CPython's lookup, the stored key is the left operand of [==]. *)
Fixpoint dict_update (out : list (value * value)) (key x : value)
  : list (value * value) :=
  match out with
  | [] => [(key, x)]
  | (k, y) :: t => if key_eq k key then (k, x) :: t else (k, y) :: dict_update t key x
  end.

Definition dict_setitem (out : list (value * value)) (key x : value)
  : result (list (value * value)) :=
  if hashable key then Ok (dict_update out key x) else Err TypeError.

(* ------------------------------------------------------------------ *)
(** ** Serialization ([to_bytes] and its helpers) *)

(** [ObjType]. *)
Definition LIST := 1.
Definition DICT := 2.
Definition STRING := 3.
Definition INTEGER := 4.
Definition FLOAT := 5.
Definition BOOLEAN := 6.
Definition PAYLOAD := 7.
Definition WORLD_STATE := 8.
Definition NONE := 9.

(** [sys.getsizeof] of an [int] on 64-bit CPython 3.12 and later: a
    24-byte header plus one 4-byte digit per 30 bits of the magnitude,
    with at least one digit (so [sys.getsizeof(0) == 28]). *)
Definition int_ndigits (z : Z) : Z :=
  if z =? 0 then 0 else Z.log2 (Z.abs z) / 30 + 1.

Definition getsizeof_int (z : Z) : Z := 24 + 4 * Z.max 1 (int_ndigits z).

Definition boolean_to_bytes (obj : bool) : result bytes :=
  let* type_bytes := uint_to_bytes 8 BOOLEAN in
  let bool_bytes := if negb obj then [Byte.x30] else [Byte.x31] in
  Ok (type_bytes ++ bool_bytes).

Definition none_to_bytes : result bytes := uint_to_bytes 8 NONE.

Definition int_to_bytes (obj : Z) : result bytes :=
  let* type_bytes := uint_to_bytes 8 INTEGER in
  let byte_length := getsizeof_int obj in
  let* int_bytes := sint_to_bytes (Z.to_nat byte_length) obj in
  let* size_header := uint_to_bytes 8 byte_length in
  Ok (type_bytes ++ size_header ++ int_bytes).

(** [struct.pack('>d', obj)] is the big-endian bit pattern. *)
Definition float_to_bytes (obj : Z) : result bytes :=
  let* type_bytes := uint_to_bytes 8 FLOAT in
  let packed_float_bytes := to_be 8 obj in
  let byte_length := Z.of_nat (length packed_float_bytes) in
  let* size_header := uint_to_bytes 8 byte_length in
  Ok (type_bytes ++ size_header ++ packed_float_bytes).

Definition string_to_bytes (obj : list Z) : result bytes :=
  let* serialized_obj := utf8_encode obj in
  let* type_bytes := uint_to_bytes 8 STRING in
  let* len_bytes := uint_to_bytes 8 (Z.of_nat (length serialized_obj)) in
  Ok (type_bytes ++ len_bytes ++ serialized_obj).

(** The loop of [list_to_bytes], [b"".join([to_bytes(x) for x in obj])],
    with [enc] the recursive serializer. *)
Fixpoint list_items_to_bytes (enc : value -> result bytes) (l : list value)
  : result bytes :=
  match l with
  | [] => Ok []
  | x :: t =>
      let* xb := enc x in
      let* rest := list_items_to_bytes enc t in
      Ok (xb ++ rest)
  end.

(** The loop of [dict_to_bytes]: key bytes then value bytes, in insertion
    order. *)
Fixpoint dict_items_to_bytes (enc : value -> result bytes)
  (l : list (value * value)) : result bytes :=
  match l with
  | [] => Ok []
  | (key, x) :: t =>
      let* kb := enc key in
      let* xb := enc x in
      let* rest := dict_items_to_bytes enc t in
      Ok (kb ++ xb ++ rest)
  end.

(** [to_bytes]: dispatch on the type, then the per-type serializer; the
    serializers of the containers are inlined because they recurse. *)
Fixpoint to_bytes (obj : value) : result bytes :=
  match obj with
  | VBool b => boolean_to_bytes b
  | VNone => none_to_bytes
  | VPayload ws act meta =>
      let* type_bytes := uint_to_bytes 8 PAYLOAD in
      let* world_state_bytes := to_bytes ws in
      let* actions_bytes := to_bytes act in
      let* metadata_bytes := to_bytes meta in
      Ok (type_bytes ++ world_state_bytes ++ actions_bytes ++ metadata_bytes)
  | VWorld env opp pers =>
      let* type_bytes := uint_to_bytes 8 WORLD_STATE in
      let* environment_states_bytes := to_bytes env in
      let* opponent_states_bytes := to_bytes opp in
      let* personal_bytes := to_bytes pers in
      Ok (type_bytes ++ environment_states_bytes ++ opponent_states_bytes
          ++ personal_bytes)
  | VInt z => int_to_bytes z
  | VFloat x => float_to_bytes x
  | VStr s => string_to_bytes s
  | VDict kvs =>
      let* type_bytes := uint_to_bytes 8 DICT in
      let* len_bytes := uint_to_bytes 8 (Z.of_nat (length kvs)) in
      let* dict_bytes := dict_items_to_bytes to_bytes kvs in
      Ok (type_bytes ++ len_bytes ++ dict_bytes)
  | VList xs =>
      let* type_bytes := uint_to_bytes 8 LIST in
      let* count_bytes := uint_to_bytes 8 (Z.of_nat (length xs)) in
      let header := type_bytes ++ count_bytes in
      let* serialized_list := list_items_to_bytes to_bytes xs in
      Ok (header ++ serialized_list)
  end.

(* ------------------------------------------------------------------ *)
(** ** Deserialization ([from_bytes] and its helpers) *)

(** The 8-byte unsigned big-endian field at [i]: [int.from_bytes(b[i:i+8])]. *)
Definition read_u64 (b : bytes) (i : Z) : Z := be_uint (slice b i (i + 8)).

Definition int_from_bytes (b : bytes) (i : Z) : result (value * Z) :=
  let n_bytes := read_u64 b i in
  let i := i + 8 in
  let v := be_sint (slice b i (i + n_bytes)) in
  Ok (VInt v, i + n_bytes).

(** [struct.unpack('>d', ...)] needs exactly 8 bytes. *)
Definition float_from_bytes (b : bytes) (i : Z) : result (value * Z) :=
  let n_bytes := read_u64 b i in
  let i := i + 8 in
  let chunk := slice b i (i + n_bytes) in
  if (length chunk =? 8)%nat then Ok (VFloat (be_uint chunk), i + n_bytes)
  else Err StructError.

Definition string_from_bytes (b : bytes) (i : Z) : result (value * Z) :=
  let n_bytes := read_u64 b i in
  let i := i + 8 in
  match utf8_decode (slice b i (i + n_bytes)) with
  | Some s => Ok (VStr s, i + n_bytes)
  | None => Err UnicodeDecodeError
  end.

Definition none_from_bytes (b : bytes) (i : Z) : result (value * Z) :=
  Ok (VNone, i).

(** [b[i] == b"0"]: in Python 3 [b[i]] is an [int] and [b"0"] a [bytes]
    object, and an [int] never compares equal to a [bytes] object, so the
    comparison is [False] whatever the byte; [b[i]] past the end raises
    [IndexError]. *)
Definition int_eq_bytes (x : Z) (y : bytes) : bool := false.

Definition boolean_from_bytes (b : bytes) (i : Z) : result (value * Z) :=
  let* x := byte_at b i in
  Ok (VBool (int_eq_bytes x [Byte.x30]), i + 1).

Inductive objtype :=
| OT_LIST | OT_DICT | OT_STRING | OT_INTEGER | OT_FLOAT | OT_BOOLEAN
| OT_PAYLOAD | OT_WORLD_STATE | OT_NONE.

(** [serializer_from_bytes]: the table lookup, [RuntimeError] when the
    tag is not one of the nine keys. *)
Definition serializer_from_bytes (obj_type : Z) : result objtype :=
  if obj_type =? LIST then Ok OT_LIST
  else if obj_type =? DICT then Ok OT_DICT
  else if obj_type =? STRING then Ok OT_STRING
  else if obj_type =? INTEGER then Ok OT_INTEGER
  else if obj_type =? FLOAT then Ok OT_FLOAT
  else if obj_type =? BOOLEAN then Ok OT_BOOLEAN
  else if obj_type =? PAYLOAD then Ok OT_PAYLOAD
  else if obj_type =? WORLD_STATE then Ok OT_WORLD_STATE
  else if obj_type =? NONE then Ok OT_NONE
  else Err RuntimeError.

(** The loop of [list_from_bytes]: [for k in range(n_items): out[k], i =
    _from_bytes(b, i)], with [dec] the recursive reader and [g] a bound on
    the iterations. The preallocation [out = [None] * n_items] is not
    modelled: it can only fail ([MemoryError]) when [n_items] exceeds what
    the input could hold, where the loop fails as well. *)
Fixpoint list_from_bytes_loop (dec : Z -> result (value * Z)) (g : nat) (k : Z)
  (i : Z) : result (list value * Z) :=
  if k <=? 0 then Ok ([], i) else
  match g with
  | O => Err OutOfFuel
  | S g' =>
      let* '(x, i) := dec i in
      let* '(xs, i) := list_from_bytes_loop dec g' (k - 1) i in
      Ok (x :: xs, i)
  end.

(** The loop of [dict_from_bytes]: read a key, read a value, [out[key] =
    value]. *)
Fixpoint dict_from_bytes_loop (dec : Z -> result (value * Z)) (g : nat) (k : Z)
  (out : list (value * value)) (i : Z) : result (list (value * value) * Z) :=
  if k <=? 0 then Ok (out, i) else
  match g with
  | O => Err OutOfFuel
  | S g' =>
      let* '(key, i) := dec i in
      let* '(x, i) := dec i in
      let* out := dict_setitem out key x in
      dict_from_bytes_loop dec g' (k - 1) out i
  end.

(** [_from_bytes]: read the tag, look the reader up, run it. The readers
    of payloads and world states recurse and are inlined; those of lists
    and dicts run the loops above with the reader [_from_bytes f b].
    [fuel] bounds the nesting depth and the number of loop iterations
    of one container; [from_bytes] starts it at [len(b) + 1], which
    [from_bytes_fuel_adequate] shows is never exhausted. *)
Fixpoint _from_bytes (fuel : nat) (b : bytes) (i : Z) {struct fuel}
  : result (value * Z) :=
  match fuel with
  | O => Err OutOfFuel
  | S f =>
    let obj_type := read_u64 b i in
    let i := i + 8 in
    let* t := serializer_from_bytes obj_type in
    match t with
    | OT_LIST =>
        let n_items := read_u64 b i in
        let i := i + 8 in
        let* '(out, i) := list_from_bytes_loop (_from_bytes f b) f n_items i in
        Ok (VList out, i)
    | OT_DICT =>
        let n_items := read_u64 b i in
        let i := i + 8 in
        let* '(out, i) := dict_from_bytes_loop (_from_bytes f b) f n_items [] i in
        Ok (VDict out, i)
    | OT_STRING => string_from_bytes b i
    | OT_INTEGER => int_from_bytes b i
    | OT_FLOAT => float_from_bytes b i
    | OT_BOOLEAN => boolean_from_bytes b i
    | OT_PAYLOAD =>
        let* '(world_state, i) := _from_bytes f b i in
        let* '(actions, i) := _from_bytes f b i in
        let* '(metadata, i) := _from_bytes f b i in
        Ok (VPayload world_state actions metadata, i)
    | OT_WORLD_STATE =>
        let* '(environment_states, i) := _from_bytes f b i in
        let* '(opponent_states, i) := _from_bytes f b i in
        let* '(personal_states, i) := _from_bytes f b i in
        Ok (VWorld environment_states opponent_states personal_states, i)
    | OT_NONE => none_from_bytes b i
    end
  end.

Definition from_bytes (b : bytes) : result value :=
  let* '(v, _) := _from_bytes (S (length b)) b 0 in
  Ok v.

(* ------------------------------------------------------------------ *)
(** ** Auxiliary notions about values *)

(** What the decoder gives back for an encoded value: every [bool]
    becomes [False], the value of [boolean_from_bytes]. *)
Fixpoint false_bools (v : value) : value :=
  match v with
  | VBool _ => VBool false
  | VList xs => VList (map false_bools xs)
  | VDict kvs => VDict (map (fun '(k, x) => (false_bools k, false_bools x)) kvs)
  | VPayload a b c => VPayload (false_bools a) (false_bools b) (false_bools c)
  | VWorld a b c => VWorld (false_bools a) (false_bools b) (false_bools c)
  | _ => v
  end.

(** Values with no [True] inside. *)
Fixpoint no_true (v : value) : bool :=
  match v with
  | VBool b => negb b
  | VList xs => forallb no_true xs
  | VDict kvs => forallb (fun '(k, x) => no_true k && no_true x) kvs
  | VPayload a b c | VWorld a b c => no_true a && no_true b && no_true c
  | _ => true
  end.

(** Keys of one dict: hashable, and pairwise unequal once decoded. *)
Fixpoint keys_distinct (ks : list value) : bool :=
  match ks with
  | [] => true
  | k :: t =>
      hashable k
      && forallb (fun k' => negb (key_eq (false_bools k) (false_bools k'))) t
      && keys_distinct t
  end.

(** Well-formed values: a float is a 64-bit pattern, the keys of a dict
    satisfy [keys_distinct]. *)
Fixpoint wf_b (v : value) : bool :=
  match v with
  | VFloat x => (0 <=? x) && (x <? 2 ^ 64)
  | VList xs => forallb wf_b xs
  | VDict kvs =>
      forallb (fun '(k, x) => wf_b k && wf_b x) kvs && keys_distinct (map fst kvs)
  | VPayload a b c | VWorld a b c => wf_b a && wf_b b && wf_b c
  | _ => true
  end.

(** A bound on the fuel the decoder needs for [v]: its nesting depth, and
    at each level the number of items of a container. *)
Fixpoint vsize (v : value) : nat :=
  match v with
  | VList xs => S (fold_right (fun x m => Nat.max (vsize x) m) (length xs) xs)
  | VDict kvs =>
      S (fold_right (fun '(k, x) m => Nat.max (vsize k) (Nat.max (vsize x) m))
                    (length kvs) kvs)
  | VPayload a b c | VWorld a b c => S (Nat.max (vsize a) (Nat.max (vsize b) (vsize c)))
  | _ => 1
  end.

(** Small runs. *)
Definition ascii_str (s : string) : list Z :=
  map (fun c => Z.of_nat (nat_of_ascii c)) (list_ascii_of_string s).


(* ------------------------------------------------------------------ *)
(** ** The Python object protocol used by the gossip publisher *)

Definition s_question := ascii_str "question".
Definition s_metadata := ascii_str "metadata".
Definition s_source_dataset := ascii_str "source_dataset".
Definition s_world_state := ascii_str "world_state".
Definition s_actions := ascii_str "actions".

(** [obj.items()]. A [Payload] is a [dict] subclass whose fields are
    dataclass attributes, not items: it has no items. *)
Definition py_items (v : value) : result (list (value * value)) :=
  match v with
  | VDict kvs => Ok kvs
  | VPayload _ _ _ => Ok []
  | _ => Err AttributeError
  end.

(** [iter(obj)], as consumed by [list.extend]. *)
Definition py_iter (v : value) : result (list value) :=
  match v with
  | VList xs => Ok xs
  | VDict kvs => Ok (map fst kvs)
  | VStr s => Ok (map (fun c => VStr [c]) s)
  | VPayload _ _ _ => Ok []
  | _ => Err TypeError
  end.

(** [len(obj)]. *)
Definition py_len (v : value) : result Z :=
  match v with
  | VStr s => Ok (Z.of_nat (length s))
  | VList xs => Ok (Z.of_nat (length xs))
  | VDict kvs => Ok (Z.of_nat (length kvs))
  | VPayload _ _ _ => Ok 0
  | _ => Err TypeError
  end.

(** [bool(obj)]: a [Payload] is an empty [dict]; a [WorldState] (no
    [__len__], no [__bool__]) is true; a float is false at [+0.0] and
    [-0.0] only. *)
Definition py_truthy (v : value) : bool :=
  match v with
  | VNone => false
  | VBool b => b
  | VInt z => negb (z =? 0)
  | VFloat x => negb (x mod 2 ^ 63 =? 0)
  | VStr s => negb (Nat.eqb (length s) 0)
  | VList xs => negb (Nat.eqb (length xs) 0)
  | VDict kvs => negb (Nat.eqb (length kvs) 0)
  | VPayload _ _ _ => false
  | VWorld _ _ _ => true
  end.

(** [obj.world_state], [obj.actions], [obj.environment_states]. *)
Definition get_world_state (v : value) : result value :=
  match v with VPayload ws _ _ => Ok ws | _ => Err AttributeError end.

Definition get_actions (v : value) : result value :=
  match v with VPayload _ act _ => Ok act | _ => Err AttributeError end.

Definition get_environment_states (v : value) : result value :=
  match v with VWorld env _ _ => Ok env | _ => Err AttributeError end.

(** Lookup of a key in a [dict]; the stored key is the left operand. *)
Fixpoint dict_lookup (kvs : list (value * value)) (key : value) : option value :=
  match kvs with
  | [] => None
  | (k, x) :: t => if key_eq k key then Some x else dict_lookup t key
  end.

(** [seq[idx]] for a sequence of length [n], with negative indices. *)
Definition seq_index (n : Z) (key : value) : result Z :=
  let idx := match key with
             | VInt z => Some z
             | VBool b => Some (num_of_bool b)
             | _ => None
             end in
  match idx with
  | None => Err TypeError
  | Some z =>
      let z := if z <? 0 then z + n else z in
      if (0 <=? z) && (z <? n) then Ok z else Err IndexError
  end.

(** [obj[key]]. [Payload.__getitem__] is [getattr(self, key)]: a field
    name gives the field, a non-[str] key raises [TypeError]. Other names
    raise [AttributeError] here; the names of [dict] methods, which would
    give a bound method, are never used as keys by the publisher. *)
Definition py_getitem (v key : value) : result value :=
  match v with
  | VDict kvs =>
      if hashable key then
        match dict_lookup kvs key with
        | Some x => Ok x
        | None => Err KeyError
        end
      else Err TypeError
  | VPayload ws act meta =>
      match key with
      | VStr s =>
          if list_Z_eqb s s_world_state then Ok ws
          else if list_Z_eqb s s_actions then Ok act
          else if list_Z_eqb s s_metadata then Ok meta
          else Err AttributeError
      | _ => Err TypeError
      end
  | VList xs =>
      let* z := seq_index (Z.of_nat (length xs)) key in
      match nth_error xs (Z.to_nat z) with
      | Some x => Ok x
      | None => Err IndexError
      end
  | VStr s =>
      let* z := seq_index (Z.of_nat (length s)) key in
      match nth_error s (Z.to_nat z) with
      | Some c => Ok (VStr [c])
      | None => Err IndexError
      end
  | _ => Err TypeError
  end.

(** The random source: [_randbelow(n)] takes the next draw of the stream
    [ds] modulo [n] (a valid draw lies in [0, n)); an exhausted stream
    gives [0]. *)
Definition randbelow (n : Z) (ds : list Z) : Z * list Z :=
  match ds with
  | [] => (0, [])
  | d :: t => (d mod n, t)
  end.

(** [random.choice(seq)]: [IndexError] on an empty sequence, else
    [seq[_randbelow(len(seq))]]. *)
Definition random_choice (seq : value) (ds : list Z) : result (value * list Z) :=
  let* n := py_len seq in
  if n =? 0 then Err IndexError else
  let '(j, ds) := randbelow n ds in
  let* x := py_getitem seq (VInt j) in
  Ok (x, ds).

(** [x[i] = v] on an in-range index. *)
Fixpoint set_nth {A} (l : list A) (n : nat) (x : A) : list A :=
  match l, n with
  | [], _ => []
  | _ :: t, O => x :: t
  | y :: t, S n' => y :: set_nth t n' x
  end.

(** [x[i], x[j] = x[j], x[i]]. *)
Definition swap_items {A} (x : list A) (i j : nat) : list A :=
  match nth_error x i, nth_error x j with
  | Some xi, Some xj => set_nth (set_nth x i xj) j xi
  | _, _ => x
  end.

(** [random.shuffle(x)]: [for i in reversed(range(1, len(x))): j =
    _randbelow(i + 1); x[i], x[j] = x[j], x[i]]. *)
Fixpoint shuffle_loop {A} (i : nat) (x : list A) (ds : list Z) : list A * list Z :=
  match i with
  | O => (x, ds)
  | S i' =>
      let '(j, ds) := randbelow (Z.of_nat i + 1) ds in
      shuffle_loop i' (swap_items x i (Z.to_nat j)) ds
  end.

Definition shuffle {A} (x : list A) (ds : list Z) : list A * list Z :=
  shuffle_loop (length x - 1) x ds.

(** The draws [shuffle_loop i] consumes are valid: the one made at index
    [k] lies in [0, k]. *)
Fixpoint draws_ok (i : nat) (ds : list Z) : bool :=
  match i with
  | O => true
  | S i' =>
      match ds with
      | [] => false
      | d :: t => (0 <=? d) && (d <=? Z.of_nat i) && draws_ok i' t
      end
  end.

(** [str(n)] for an [int]. *)
Fixpoint dec_digits (fuel : nat) (n : Z) (acc : list Z) : list Z :=
  match fuel with
  | O => acc
  | S f =>
      let acc := (48 + n mod 10) :: acc in
      if n <? 10 then acc else dec_digits f (n / 10) acc
  end.

Definition py_str_int (z : Z) : list Z :=
  let ds := dec_digits (S (Z.to_nat (Z.log2 (Z.abs z)))) (Z.abs z) [] in
  if z <? 0 then 45 :: ds else ds.

(* ------------------------------------------------------------------ *)
(** ** One polling cycle of [GossipDHTPublisher] *)

(** One entry of [round_gossip]: [(ts, {"id", "message", "node", "nodeId",
    "dataset"})]. *)
Record gossip := mk_gossip {
  g_ts : Z;
  g_id : list Z;
  g_message : list Z;
  g_node : list Z;
  g_nodeId : list Z;
  g_dataset : value
}.

Record pub_state := mk_pub_state {
  current_round : Z;
  current_stage : Z
}.

(** What one cycle observes: the coordinator's answer, the DHT's answer
    for a key ([None] when nothing is stored; the record's
    [value.items()] otherwise, peer id to stored bytes), the wall clock
    ([clock n] is [int(datetime.now().timestamp())] read while [n]
    entries have been produced) and the stream of the random module. *)
Record poll_env := mk_poll_env {
  get_round_and_stage : result (Z * Z);
  dht_get : list Z -> result (option (list (list Z * bytes)));
  clock : nat -> Z;
  draws : list Z
}.

(** The result of a cycle: the new state, the batch handed to
    [kinesis_client.put_gossip] (if any) and the number of errors
    [_poll_once] logged. *)
Record outcome := mk_outcome {
  o_state : pub_state;
  o_published : option (list gossip);
  o_errors : nat
}.

Section Gossip.

(** [str(obj)] of an object other than a [str], the md5 hex digest of a
    byte string, and [get_name_from_peer_id] (of the hivemind_exp package,
    which is not part of this source tree). *)
Variable py_str_other : value -> list Z.
Variable md5_hexdigest : bytes -> list Z.
Variable get_name_from_peer_id : list Z -> list Z.

Definition py_str (v : value) : list Z :=
  match v with
  | VStr s => s
  | _ => py_str_other v
  end.

(** The body of [for payload in all_payloads:], in the order of the
    source. *)
Definition gossip_of_payload (peer_id : list Z) (current_round : Z) (ts : Z)
  (payload : value) (ds : list Z) : result (gossip * list Z) :=
  let* world_state_tuple := get_world_state payload in
  let* env := get_environment_states world_state_tuple in
  let* question := py_getitem env (VStr s_question) in
  let* actions := get_actions payload in
  let* env := get_environment_states world_state_tuple in
  let* md := py_getitem env (VStr s_metadata) in
  let* source_dataset := py_getitem md (VStr s_source_dataset) in
  let* '(action, ds) :=
    if py_truthy actions then random_choice actions ds else Ok (VStr [], ds) in
  let key := py_str question ++ [45] ++ peer_id ++ [45]
             ++ py_str_int current_round ++ [45] ++ py_str action ++ [45]
             ++ py_str source_dataset in
  let* key_bytes := utf8_encode key in
  Ok (mk_gossip ts (md5_hexdigest key_bytes)
        (py_str question ++ ascii_str "..." ++ py_str action)
        (get_name_from_peer_id peer_id) peer_id source_dataset, ds).

Fixpoint gossip_of_payloads (peer_id : list Z) (current_round : Z)
  (clock : nat -> Z) (ps : list value) (acc : list gossip) (ds : list Z)
  : result (list gossip * list Z) :=
  match ps with
  | [] => Ok (acc, ds)
  | p :: t =>
      let* '(g, ds) := gossip_of_payload peer_id current_round (clock (length acc)) p ds in
      gossip_of_payloads peer_id current_round clock t (acc ++ [g]) ds
  end.

(** [for _, payload_list in payload_dict.items(): all_payloads.extend(payload_list)]. *)
Fixpoint flatten_payloads (items : list (value * value)) : result (list value) :=
  match items with
  | [] => Ok []
  | (_, payload_list) :: t =>
      let* xs := py_iter payload_list in
      let* rest := flatten_payloads t in
      Ok (xs ++ rest)
  end.

(** [for peer_id, value_with_expiration in round_data.value.items():]. *)
Fixpoint collect_gossip (current_round : Z) (clock : nat -> Z)
  (entries : list (list Z * bytes)) (acc : list gossip) (ds : list Z)
  : result (list gossip * list Z) :=
  match entries with
  | [] => Ok (acc, ds)
  | (peer_id, b) :: t =>
      let* payload_dict := from_bytes b in
      let* items := py_items payload_dict in
      let* all_payloads := flatten_payloads items in
      let* '(acc, ds) := gossip_of_payloads peer_id current_round clock all_payloads acc ds in
      collect_gossip current_round clock t acc ds
  end.

(** [_publish_gossip]: nothing is sent for an empty batch. *)
Definition publish (round_gossip : list gossip) : option (list gossip) :=
  match round_gossip with
  | [] => None
  | _ => Some round_gossip
  end.

(** [_poll_once]: any exception inside the [try] is logged once and ends
    the cycle. *)
Definition _poll_once (st : pub_state) (env : poll_env) : outcome :=
  match get_round_and_stage env with
  | Err _ => mk_outcome st None 1
  | Ok (new_round, new_stage) =>
      let st := mk_pub_state new_round new_stage in
      match dht_get env (py_str_int (current_round st)) with
      | Err _ => mk_outcome st None 1
      | Ok None => mk_outcome st None 0
      | Ok (Some entries) =>
          match collect_gossip (current_round st) (clock env) entries [] (draws env) with
          | Err _ => mk_outcome st None 1
          | Ok (round_gossip, ds) =>
              let round_gossip := fst (shuffle round_gossip ds) in
              let round_gossip := firstn 200 round_gossip in
              mk_outcome st (publish round_gossip) 0
          end
      end
  end.

(** [_poll_loop]: [_poll_once] then [time.sleep(poll_interval_seconds)],
    once per element of [envs] (what each cycle observes), until the stop
    event is set; the result is the final state and the outcome of every
    cycle. *)
Fixpoint _poll_loop (st : pub_state) (envs : list poll_env) : pub_state * list outcome :=
  match envs with
  | [] => (st, [])
  | env :: t =>
      let o := _poll_once st env in
      let '(st', os) := _poll_loop (o_state o) t in
      (st', o :: os)
  end.

End Gossip.

(** [BaseDHTPublisher.__init__]: [current_round = -1],
    [current_stage = -1]. *)
Definition publisher_state_init : pub_state := mk_pub_state (-1) (-1).

(** The thread control of [BaseDHTPublisher]: [_poll_thread] (set or
    [None]), [running], the stop event and the number of warnings logged. *)
Record pub_thread := mk_pub_thread {
  poll_thread : bool;
  running : bool;
  stop_event : bool;
  warnings : nat
}.

Definition pub_thread_init : pub_thread := mk_pub_thread false false false 0.

(** [start]: warn and return if [_poll_thread] is set; otherwise create
    and start the thread and set [running]. *)
Definition start (p : pub_thread) : pub_thread :=
  if poll_thread p
  then mk_pub_thread (poll_thread p) (running p) (stop_event p) (S (warnings p))
  else mk_pub_thread true true (stop_event p) (warnings p).

(** [stop]: warn and return if [_poll_thread] is not set; otherwise set
    the stop event, join the thread and clear [running]. [_poll_thread] is
    left as it is. *)
Definition stop (p : pub_thread) : pub_thread :=
  if negb (poll_thread p)
  then mk_pub_thread (poll_thread p) (running p) (stop_event p) (S (warnings p))
  else mk_pub_thread (poll_thread p) false true (warnings p).

Inductive pub_op := Start | Stop.

Fixpoint run_ops (p : pub_thread) (ops : list pub_op) : pub_thread :=
  match ops with
  | [] => p
  | Start :: t => run_ops (start p) t
  | Stop :: t => run_ops (stop p) t
  end.

(** The [while] test of [_poll_loop]. *)
Definition polls (p : pub_thread) : bool := negb (stop_event p).

(* ------------------------------------------------------------------ *)
(** ** Reward submission of [SwarmGameManager] *)

(** The fields of the manager that the submission code reads and writes.
    [time.time()] is a rational number of seconds, and the arithmetic on
    times is exact. The float arithmetic on the rewards ([+=] on
    [batched_signals] and the operations of [_get_my_rewards]) rounds each
    result to binary64 with [fl]; overflow to infinity and NaN, which no
    reward of the game state produces, are left out. *)
Record mstate := mk_mstate {
  state_round : Z;
  batched_signals : Q;
  time_since_submit : Q;
  submit_period : Q;
  submitted_this_round : bool;
  peer_id : list Z
}.

Definition set_batched_signals (st : mstate) (x : Q) : mstate :=
  mk_mstate (state_round st) x (time_since_submit st) (submit_period st)
    (submitted_this_round st) (peer_id st).

Definition set_time_since_submit (st : mstate) (t : Q) : mstate :=
  mk_mstate (state_round st) (batched_signals st) t (submit_period st)
    (submitted_this_round st) (peer_id st).

Definition set_submitted_this_round (st : mstate) (b : bool) : mstate :=
  mk_mstate (state_round st) (batched_signals st) (time_since_submit st)
    (submit_period st) b (peer_id st).

(** The calls the manager makes to the ledger ([self.coordinator]). *)
Inductive ledger_call :=
| SubmitReward (round stage amount : Z) (peer : list Z)
| SubmitWinners (round : Z) (winners : list (list Z)) (peer : list Z).

(** [x > y] on rationals. *)
Definition Qgtb (x y : Q) : bool := negb (Qle_bool x y).

Definition Q_of_bool (b : bool) : Q := if b then 1%Q else 0%Q.

(** Python's [float] operations on finite values: the exact result
    rounded to the nearest binary64 double, ties to even ([round_ne n d]
    is [n / d] rounded so). The exponent [e] puts the significand in
    [2^52, 2^53), or is the subnormal exponent [-1074]; results beyond
    the largest double (an [OverflowError] or [inf] in Python) are not
    covered. On an [int] operand below [2^53] in magnitude the rounding
    is exact, as Python's [int] arithmetic. *)
Definition round_ne (n d : Z) : Z :=
  let q := n / d in
  match Z.compare (2 * (n mod d)) d with
  | Lt => q
  | Gt => q + 1
  | Eq => if Z.even q then q else q + 1
  end.

Definition fl (x : Q) : Q :=
  let n := Qnum x in
  let d := Zpos (Qden x) in
  if n =? 0 then 0%Q else
  let a := Z.abs n in
  let e0 := Z.log2 a - Z.log2 d - 52 in
  let e1 := if a * 2 ^ (Z.max 0 (- e0)) <? 2 ^ 52 * d * 2 ^ (Z.max 0 e0)
            then e0 - 1 else e0 in
  let e := Z.max e1 (-1074) in
  let m := Z.sgn n * (if e <? 0 then round_ne (a * 2 ^ (- e)) d
                      else round_ne a (d * 2 ^ e)) in
  if e <? 0 then Qmake m (Z.to_pos (2 ^ (- e))) else inject_Z (m * 2 ^ e).

(** [int(x)]: truncation toward zero. *)
Definition py_int (q : Q) : Z := Z.quot (Qnum q) (Zpos (Qden q)).

(** [max(items, key=lambda x: x[1])]: the first item of greatest key (an
    item replaces the current one only when its key is greater). *)
Definition max_by_signal (first : list Z * Q) (rest : list (list Z * Q)) : list Z * Q :=
  fold_left (fun best x => if Qgtb (snd x) (snd best) then x else best) rest first.

(** [signal_by_agent[peer_id]] for a [dict] keyed by [str]. *)
Fixpoint str_lookup {A} (k : list Z) (l : list (list Z * A)) : option A :=
  match l with
  | [] => None
  | (k', x) :: t => if list_Z_eqb k' k then Some x else str_lookup k t
  end.

Definition _get_my_rewards (st : mstate) (signal_by_agent : list (list Z * Q)) : Q :=
  match signal_by_agent with
  | [] => 0%Q
  | _ =>
      let my_signal := match str_lookup (peer_id st) signal_by_agent with
                       | Some x => x
                       | None => 0%Q
                       end in
      fl (fl (fl (my_signal + 1) * Q_of_bool (Qgtb my_signal 0))
          + fl (my_signal * Q_of_bool (Qle_bool my_signal 0)))%Q
  end.

(** [_get_total_rewards_by_agent]. [rewards_at s] is [self.rewards[s]]
    (an attribute of the game manager of the genrl package): a [dict] from
    agent id to a [dict] from batch id to the list of the reward lists of
    the generations; its failure is propagated. [rewards_by_agent] is a
    [defaultdict(int)] keyed by [str]: [dd_add] is its [+=]. *)
Fixpoint dd_add (acc : list (list Z * Q)) (k : list Z) (x : Q) : list (list Z * Q) :=
  match acc with
  | [] => [(k, fl (0 + x))%Q]
  | (k', y) :: t => if list_Z_eqb k' k then (k', fl (y + x))%Q :: t else (k', y) :: dd_add t k x
  end.

(** [sum(l)], which starts from [0]; each addition is a float addition
    (exact on integers below 2^53). *)
Definition sum_Q (l : list Q) : Q := fold_left (fun a x => fl (a + x)) l 0%Q.

Definition stage_rewards := list (list Z * list (Z * list (list Q))).

(** [tot = 0; for generation_rewards in batch_rewards: tot += sum(generation_rewards)]. *)
Definition batch_total (batch_rewards : list (list Q)) : Q :=
  fold_left (fun tot generation_rewards => fl (tot + sum_Q generation_rewards))%Q batch_rewards 0%Q.

Definition add_stage (acc : list (list Z * Q)) (rewards : stage_rewards) : list (list Z * Q) :=
  fold_left (fun acc '(agent_id, agent_rewards) =>
               fold_left (fun acc '(_, batch_rewards) =>
                            dd_add acc agent_id (batch_total batch_rewards))
                         agent_rewards acc)
            rewards acc.

Fixpoint total_loop (rewards_at : nat -> result stage_rewards) (stages : list nat)
  (acc : list (list Z * Q)) : result (list (list Z * Q)) :=
  match stages with
  | [] => Ok acc
  | stage :: t =>
      let* rewards := rewards_at stage in
      total_loop rewards_at t (add_stage acc rewards)
  end.

Definition _get_total_rewards_by_agent (state_stage : nat)
  (rewards_at : nat -> result stage_rewards) : result (list (list Z * Q)) :=
  total_loop rewards_at (seq 0 state_stage) [].

(** [_try_submit_to_chain]: [now] is the clock [time.time()] (read once
    per call: the second reading, stored in [time_since_submit], is the
    first one plus the duration of the two ledger calls, on which nothing
    here depends); [ledger_ok c] tells whether the ledger call [c] returns
    ([false]: it raises). The result is the new state and the ledger calls
    made, in order, the raising one included; the method returns
    [None] in every case. *)
Definition _try_submit_to_chain (st : mstate) (now : Q)
  (ledger_ok : ledger_call -> bool) (signal_by_agent : list (list Z * Q))
  : mstate * list ledger_call :=
  let elapsed_time_hours := ((now - time_since_submit st) / 3600)%Q in
  if Qgtb elapsed_time_hours (submit_period st) then
    let c1 := SubmitReward (state_round st) 0 (py_int (batched_signals st)) (peer_id st) in
    if negb (ledger_ok c1) then (st, [c1]) else
    let st := set_batched_signals st 0%Q in
    let max_agent := match signal_by_agent with
                     | [] => peer_id st
                     | kv :: t => fst (max_by_signal kv t)
                     end in
    let c2 := SubmitWinners (state_round st) [max_agent] (peer_id st) in
    if negb (ledger_ok c2) then (st, [c1; c2]) else
    let st := set_time_since_submit st now in
    let st := set_submitted_this_round st true in
    (st, [c1; c2])
  else (st, []).

(** [_hook_after_rewards_updated], given [_get_total_rewards_by_agent()]. *)
Definition _hook_after_rewards_updated (st : mstate) (now : Q)
  (ledger_ok : ledger_call -> bool) (signal_by_agent : list (list Z * Q))
  : mstate * list ledger_call :=
  let st := set_batched_signals st
              (fl (batched_signals st + _get_my_rewards st signal_by_agent))%Q in
  _try_submit_to_chain st now ledger_ok signal_by_agent.

(** [_hook_after_round_advanced] up to the call of [agent_block] (the PRG
    game and the upload to the hub touch none of these fields). *)
Definition _hook_after_round_advanced (st : mstate) (now : Q)
  (ledger_ok : ledger_call -> bool) (signal_by_agent : list (list Z * Q))
  : mstate * list ledger_call :=
  let '(st, calls) :=
    if negb (submitted_this_round st)
    then _try_submit_to_chain st now ledger_ok signal_by_agent
    else (st, []) in
  (set_submitted_this_round st false, calls).

(* ------------------------------------------------------------------ *)
(** ** The round barrier [agent_block] *)

Inductive block_exit :=
| Joined       (* [round_num >= self.state.round]: [return] *)
| LastRound    (* [round_num == self.max_round - 1]: [return] *)
| TimedOut     (* the [while] condition failed *)
| NoMoreTicks. (* the observed run ends here *)

(** One iteration of the [while] loop sees [(clk, resp)]: [clk] is
    [time.monotonic()] at the loop test and [resp] the answer of
    [get_round_and_stage()] ([Err]: it raised, the loop sleeps and
    continues). Sleeps and backoff only move the clock, which the ticks
    already record. The result is the local round, how the loop ended and
    the number of oracle answers it consumed. *)
Fixpoint agent_block_loop (train_timeout : Q) (max_round : Z) (start_time : Q)
  (round : Z) (ticks : list (Q * result (Z * Z))) (n : nat)
  : Z * block_exit * nat :=
  match ticks with
  | [] => (round, NoMoreTicks, n)
  | (clk, resp) :: t =>
      if negb (Qgtb train_timeout (clk - start_time)%Q) then (round, TimedOut, n)
      else
        match resp with
        | Err _ => agent_block_loop train_timeout max_round start_time round t (S n)
        | Ok (round_num, stage) =>
            if round_num >=? round then (round_num, Joined, S n)
            else if round_num =? max_round - 1 then (round, LastRound, S n)
            else agent_block_loop train_timeout max_round start_time round t (S n)
        end
  end.

(** [train_timeout = 60 * 60 * 24 * 31] seconds. *)
Definition train_timeout : Q := inject_Z (60 * 60 * 24 * 31).

Definition agent_block (max_round : Z) (start_time : Q) (round : Z)
  (ticks : list (Q * result (Z * Z))) : Z * block_exit * nat :=
  agent_block_loop train_timeout max_round start_time round ticks O.

(* ------------------------------------------------------------------ *)
(** ** Auxiliary notions for the further properties *)

(** The code points [str.encode("utf-8")] accepts: [0 .. 0x10FFFF]
    without the surrogates [0xD800 .. 0xDFFF]. *)
Definition cp_ok (cp : Z) : bool :=
  (0 <=? cp) && (cp <=? 0x10FFFF) && negb ((0xD800 <=? cp) && (cp <=? 0xDFFF)).

(** The peer id of each candidate gossip entry, in order, when the entry
    [(p, b)] of the round record holds the payloads [ps]. *)
Fixpoint peer_slots (entries : list (list Z * bytes)) (pss : list (list value))
  : list (list Z) :=
  match entries, pss with
  | (p, _) :: t, ps :: u => repeat p (length ps) ++ peer_slots t u
  | _, _ => []
  end.

(** The payloads the publisher reads from one entry of the round record. *)
Definition entry_payloads (e : list Z * bytes) (ps : list value) : Prop :=
  exists d items, from_bytes (snd e) = Ok d /\ py_items d = Ok items /\
                  flatten_payloads items = Ok ps.

(** The number of batches of agent [a] in one stage. *)
Definition stage_batches (a : list Z) (rewards : stage_rewards) : nat :=
  fold_right (fun '(agent_id, agent_rewards) n =>
                ((if list_Z_eqb agent_id a then length agent_rewards else 0) + n)%nat)
             0%nat rewards.

(* ------------------------------------------------------------------ *)
(** ** Concrete inputs *)

Definition p_local := ascii_str "p1".

Definition signals_p1 : list (list Z * Q) := [(p_local, 1%Q)].

(** [Payload(world_state=WorldState(environment_states={"question":
    "2+2?", "metadata": {"source_dataset": "math"}}, opponent_states=None,
    personal_states=None), actions=["4"], metadata=None)]. *)
Definition c9_payload : value :=
  VPayload
    (VWorld (VDict [(VStr s_question, VStr (ascii_str "2+2?"));
                    (VStr s_metadata,
                     VDict [(VStr s_source_dataset, VStr (ascii_str "math"))])])
            VNone VNone)
    (VList [VStr (ascii_str "4")]) VNone.

(** [to_bytes(v)] of a value it accepts. *)
Definition encoded (v : value) : bytes :=
  match to_bytes v with Ok b => b | Err _ => [] end.

(** A peer's record in the shape [_poll_once] reads: a [dict] whose
    values are lists of payloads. *)
Definition peer_record (v : value) : bytes := encoded (VDict [(VInt 0, VList [v])]).

(** A cycle in round 2 whose DHT record for ["2"] has the given entries. *)
Definition round_env (stage : Z) (entries : list (list Z * bytes)) (clk : nat -> Z)
  (ds : list Z) : poll_env :=
  mk_poll_env (Ok (2, stage))
    (fun k => if list_Z_eqb k (py_str_int 2) then Ok (Some entries) else Ok None)
    clk ds.

(** The integer framing as the specification words it: [n] bytes hold
    [z] in two's complement, and the least such [n] (at least one byte). *)
Definition sint_fits (n z : Z) : bool :=
  (- 2 ^ (8 * n - 1) <=? z) && (z <? 2 ^ (8 * n - 1)).

Fixpoint first_fit (fuel : nat) (n z : Z) : Z :=
  match fuel with
  | O => n
  | S f => if sint_fits n z then n else first_fit f (n + 1) z
  end.

Definition min_width (z : Z) : Z :=
  first_fit (Z.to_nat (Z.log2 (Z.abs z) + 2)) 1 z.
Example run_int : to_bytes (VInt 1) = Ok (to_be 8 4 ++ to_be 8 28 ++ to_be 28 1).
Proof. reflexivity. Qed.
Example run_int_back : bind (to_bytes (VInt (-300))) from_bytes = Ok (VInt (-300)).
Proof. vm_compute. reflexivity. Qed.
Example run_str : bind (to_bytes (VStr [0x41; 0xE9; 0x20AC; 0x1F600])) from_bytes
  = Ok (VStr [0x41; 0xE9; 0x20AC; 0x1F600]).
Proof. vm_compute. reflexivity. Qed.
Example run_true : bind (to_bytes (VBool true)) from_bytes = Ok (VBool false).
Proof. vm_compute. reflexivity. Qed.
Example run_dict : bind (to_bytes (VDict [(VStr (ascii_str "a"), VList [VNone; VFloat 4607182418800017408])]))
  from_bytes = Ok (VDict [(VStr (ascii_str "a"), VList [VNone; VFloat 4607182418800017408])]).
Proof. vm_compute. reflexivity. Qed.

(* ------------------------------------------------------------------ *)
(** ** Byte-level lemmas *)

Lemma skipZ_app {A} (pre l : list A) :
  skipZ (Z.of_nat (length pre)) (pre ++ l) = l.
Proof.
  induction pre as [|a p IH]; cbn [length app skipZ].
  - destruct l; reflexivity.
  - rewrite Nat2Z.inj_succ.
    destruct (Z.leb_spec (Z.succ (Z.of_nat (length p))) 0); [lia|].
    replace (Z.succ (Z.of_nat (length p)) - 1) with (Z.of_nat (length p)) by lia.
    exact IH.
Qed.

Lemma takeZ_app {A} (x r : list A) :
  takeZ (Z.of_nat (length x)) (x ++ r) = x.
Proof.
  induction x as [|a p IH]; cbn [length app takeZ].
  - destruct r; reflexivity.
  - rewrite Nat2Z.inj_succ.
    destruct (Z.leb_spec (Z.succ (Z.of_nat (length p))) 0); [lia|].
    replace (Z.succ (Z.of_nat (length p)) - 1) with (Z.of_nat (length p)) by lia.
    rewrite IH. reflexivity.
Qed.

Lemma slice_app (pre x r : bytes) (i n : Z) :
  i = Z.of_nat (length pre) -> n = Z.of_nat (length x) ->
  slice (pre ++ x ++ r) i (i + n) = x.
Proof.
  intros -> ->. unfold slice.
  replace (Z.of_nat (length pre) + Z.of_nat (length x) - Z.of_nat (length pre))
    with (Z.of_nat (length x)) by lia.
  rewrite skipZ_app, takeZ_app. reflexivity.
Qed.

Lemma to_be_length (n : nat) (z : Z) : length (to_be n z) = n.
Proof.
  revert z; induction n as [|n IH]; intros z; simpl; [reflexivity|].
  rewrite length_app, IH. simpl. lia.
Qed.

Lemma be_uint_snoc (l : bytes) (x : Byte.byte) :
  be_uint (l ++ [x]) = be_uint l * 256 + bZ x.
Proof. unfold be_uint. rewrite fold_left_app. reflexivity. Qed.

Lemma be_uint_to_be (n : nat) (z : Z) :
  be_uint (to_be n z) = z mod 2 ^ (8 * Z.of_nat n).
Proof.
  revert z; induction n as [|n IH]; intros z.
  - simpl. rewrite Z.mod_1_r. reflexivity.
  - cbn [to_be]. rewrite be_uint_snoc, IH, bZ_Zb.
    replace (8 * Z.of_nat (S n)) with (8 + 8 * Z.of_nat n) by lia.
    rewrite Z.pow_add_r by lia.
    change (2 ^ 8) with 256.
    assert (HP : 0 < 2 ^ (8 * Z.of_nat n)) by (apply Z.pow_pos_nonneg; lia).
    set (P := 2 ^ (8 * Z.of_nat n)) in *.
    pose proof (Z.div_mod z 256 ltac:(lia)).
    pose proof (Z.mod_pos_bound z 256 ltac:(lia)).
    pose proof (Z.div_mod (z / 256) P ltac:(lia)).
    pose proof (Z.mod_pos_bound (z / 256) P HP).
    apply Z.mod_unique with ((z / 256) / P); nia.
Qed.

Lemma be_sint_to_be (n : nat) (z : Z) :
  (0 < n)%nat ->
  - 2 ^ (8 * Z.of_nat n - 1) <= z < 2 ^ (8 * Z.of_nat n - 1) ->
  be_sint (to_be n z) = z.
Proof.
  intros Hn Hz. unfold be_sint. rewrite be_uint_to_be, to_be_length.
  assert (Hw : 2 ^ (8 * Z.of_nat n) = 2 * 2 ^ (8 * Z.of_nat n - 1)).
  { rewrite <- Z.pow_succ_r by lia. f_equal. lia. }
  assert (Hp : 0 < 2 ^ (8 * Z.of_nat n - 1)) by (apply Z.pow_pos_nonneg; lia).
  destruct (to_be n z) eqn:E.
  { apply (f_equal (@length _)) in E. rewrite to_be_length in E. simpl in E. lia. }
  destruct (Z.le_gt_cases 0 z).
  - rewrite Z.mod_small by lia.
    destruct (Z.ltb_spec z (2 ^ (8 * Z.of_nat n - 1))); lia.
  - replace (z mod 2 ^ (8 * Z.of_nat n)) with (z + 2 ^ (8 * Z.of_nat n)).
    + destruct (Z.ltb_spec (z + 2 ^ (8 * Z.of_nat n)) (2 ^ (8 * Z.of_nat n - 1))); lia.
    + apply Z.mod_unique with (-1); lia.
Qed.

Lemma read_u64_app (pre r : bytes) (z : Z) (i : Z) :
  i = Z.of_nat (length pre) -> 0 <= z < 2 ^ 64 ->
  read_u64 (pre ++ to_be 8 z ++ r) i = z.
Proof.
  intros Hi Hz. unfold read_u64.
  rewrite (slice_app pre (to_be 8 z) r i 8 Hi) by (rewrite to_be_length; reflexivity).
  rewrite be_uint_to_be. apply Z.mod_small. exact Hz.
Qed.

Lemma uint_to_bytes_ok (n : nat) (z : Z) :
  0 <= z < 2 ^ (8 * Z.of_nat n) -> uint_to_bytes n z = Ok (to_be n z).
Proof.
  intros H. unfold uint_to_bytes.
  destruct (Z.leb_spec 0 z), (Z.ltb_spec z (2 ^ (8 * Z.of_nat n))); simpl; try lia.
  reflexivity.
Qed.

Lemma uint_to_bytes_inv (n : nat) (z : Z) (b : bytes) :
  uint_to_bytes n z = Ok b -> b = to_be n z /\ 0 <= z < 2 ^ (8 * Z.of_nat n).
Proof.
  unfold uint_to_bytes.
  destruct (Z.leb_spec 0 z), (Z.ltb_spec z (2 ^ (8 * Z.of_nat n))); simpl;
    intros E; inversion E; auto.
Qed.

(** Deciding the integer comparisons of a goal by case analysis. *)
Ltac z_cases :=
  repeat match goal with
  | |- context [?a <? ?b] => destruct (Z.ltb_spec a b); try (exfalso; lia)
  | |- context [?a <=? ?b] => destruct (Z.leb_spec a b); try (exfalso; lia)
  | |- context [?a =? ?b] => destruct (Z.eqb_spec a b); try (exfalso; lia)
  end.

Lemma bZ_Zb_small (z : Z) : 0 <= z < 256 -> bZ (Zb z) = z.
Proof. intros. rewrite bZ_Zb. apply Z.mod_small. lia. Qed.

(** Replace each byte [Zb e] of the goal by a fresh byte whose value is
    known to be [e]. *)
Ltac abstract_bytes :=
  repeat match goal with
  | |- context [Zb ?e] =>
      let Hx := fresh "Hx" in
      assert (Hx : bZ (Zb e) = e) by (apply bZ_Zb_small; lia);
      revert Hx; generalize (Zb e); intros ? Hx
  end.

Ltac rewrite_bytes :=
  repeat match goal with
  | H : bZ ?x = _ |- context [bZ ?x] => rewrite H
  end.

Lemma Ok_inj {A : Type} (x y : A) : Ok x = Ok y -> x = y.
Proof. intros H. injection H. auto. Qed.

Lemma utf8_decode_1 (x0 : Byte.byte) (t : bytes) :
  bZ x0 < 0x80 -> utf8_decode (x0 :: t) = cons_opt (bZ x0) (utf8_decode t).
Proof.
  intros H. remember t as t1. cbn [utf8_decode]. z_cases. subst t1. reflexivity.
Qed.

Lemma utf8_decode_2 (x0 x1 : Byte.byte) (t : bytes) :
  0xC2 <= bZ x0 <= 0xDF -> 0x80 <= bZ x1 <= 0xBF ->
  utf8_decode (x0 :: x1 :: t)
  = cons_opt ((bZ x0 - 0xC0) * 64 + (bZ x1 - 0x80)) (utf8_decode t).
Proof.
  intros H0 H1. remember (x1 :: t) as t1. cbn [utf8_decode]. z_cases.
  subst t1. unfold in_range. z_cases. reflexivity.
Qed.

Lemma utf8_decode_3 (x0 x1 x2 : Byte.byte) (t : bytes) :
  0xE0 <= bZ x0 <= 0xEF ->
  (if bZ x0 =? 0xE0 then 0xA0 else 0x80) <= bZ x1
    <= (if bZ x0 =? 0xED then 0x9F else 0xBF) ->
  0x80 <= bZ x2 <= 0xBF ->
  utf8_decode (x0 :: x1 :: x2 :: t)
  = cons_opt ((bZ x0 - 0xE0) * 4096 + (bZ x1 - 0x80) * 64 + (bZ x2 - 0x80))
             (utf8_decode t).
Proof.
  intros H0 H1 H2. remember (x1 :: x2 :: t) as t1. cbn [utf8_decode]. z_cases.
  all: subst t1; unfold in_range; z_cases; reflexivity.
Qed.

Lemma utf8_decode_4 (x0 x1 x2 x3 : Byte.byte) (t : bytes) :
  0xF0 <= bZ x0 <= 0xF4 ->
  (if bZ x0 =? 0xF0 then 0x90 else 0x80) <= bZ x1
    <= (if bZ x0 =? 0xF4 then 0x8F else 0xBF) ->
  0x80 <= bZ x2 <= 0xBF -> 0x80 <= bZ x3 <= 0xBF ->
  utf8_decode (x0 :: x1 :: x2 :: x3 :: t)
  = cons_opt ((bZ x0 - 0xF0) * 262144 + (bZ x1 - 0x80) * 4096
              + (bZ x2 - 0x80) * 64 + (bZ x3 - 0x80)) (utf8_decode t).
Proof.
  intros H0 H1 H2 H3. remember (x1 :: x2 :: x3 :: t) as t1. cbn [utf8_decode].
  z_cases. all: subst t1; unfold in_range; z_cases; reflexivity.
Qed.

Lemma utf8_decode_cp (cp : Z) (bs r : bytes) :
  utf8_encode_cp cp = Ok bs -> utf8_decode (bs ++ r) = cons_opt cp (utf8_decode r).
Proof.
  unfold utf8_encode_cp. intros H.
  assert (E1 : cp / 4096 = cp / 64 / 64) by (rewrite Z.div_div by lia; reflexivity).
  assert (E2 : cp / 262144 = cp / 64 / 64 / 64)
    by (rewrite !Z.div_div by lia; reflexivity).
  rewrite E1, E2 in H.
  pose proof (Z.div_mod cp 64 ltac:(lia)).
  pose proof (Z.mod_pos_bound cp 64 ltac:(lia)).
  pose proof (Z.div_mod (cp / 64) 64 ltac:(lia)).
  pose proof (Z.mod_pos_bound (cp / 64) 64 ltac:(lia)).
  pose proof (Z.div_mod (cp / 64 / 64) 64 ltac:(lia)).
  pose proof (Z.mod_pos_bound (cp / 64 / 64) 64 ltac:(lia)).
  set (c := cp / 64 / 64 / 64) in *.
  set (b := cp / 64 / 64) in *.
  set (a := cp / 64) in *.
  set (r0 := cp mod 64) in *. set (r1 := a mod 64) in *. set (r2 := b mod 64) in *.
  clearbody r0 r1 r2 c b a.
  destruct (Z.ltb_spec cp 0); [discriminate|].
  destruct (Z.ltb_spec 0x10FFFF cp); [discriminate|].
  destruct (Z.ltb_spec cp 0x80).
  { assert (E : Ok [Zb cp] = Ok bs) by (rewrite <- H; reflexivity).
    apply Ok_inj in E; subst bs. abstract_bytes. cbn [app].
    rewrite utf8_decode_1 by lia. rewrite Hx. reflexivity. }
  destruct (Z.ltb_spec cp 0x800).
  { assert (E : Ok [Zb (0xC0 + a); Zb (0x80 + r0)] = Ok bs)
      by (rewrite <- H; reflexivity).
    apply Ok_inj in E; subst bs. abstract_bytes. cbn [app].
    rewrite utf8_decode_2 by lia. f_equal. lia. }
  destruct (Z.ltb_spec cp 0x10000).
  { destruct (Z.leb_spec 0xD800 cp), (Z.leb_spec cp 0xDFFF); try discriminate;
    (assert (E : Ok [Zb (0xE0 + b); Zb (0x80 + r1); Zb (0x80 + r0)] = Ok bs)
      by (rewrite <- H; reflexivity));
    apply Ok_inj in E; subst bs; abstract_bytes; cbn [app];
    (rewrite utf8_decode_3; [f_equal; lia | z_cases; lia | z_cases; lia | lia]). }
  assert (E : Ok [Zb (0xF0 + c); Zb (0x80 + r2); Zb (0x80 + r1); Zb (0x80 + r0)]
              = Ok bs) by (rewrite <- H; reflexivity).
  apply Ok_inj in E; subst bs. abstract_bytes. cbn [app].
  rewrite utf8_decode_4; [f_equal; lia | z_cases; lia | z_cases; lia | lia | lia].
Qed.

Lemma utf8_encode_decode (s : list Z) (bs : bytes) :
  utf8_encode s = Ok bs -> utf8_decode bs = Some s.
Proof.
  revert bs; induction s as [|cp t IH]; intros bs H; simpl in H.
  - injection H as <-. reflexivity.
  - destruct (utf8_encode_cp cp) as [b|] eqn:Ecp; [|discriminate].
    simpl in H. destruct (utf8_encode t) as [rt|] eqn:Et; [|discriminate].
    simpl in H. injection H as <-.
    rewrite (utf8_decode_cp cp b rt Ecp), (IH rt eq_refl). reflexivity.
Qed.

(* ------------------------------------------------------------------ *)
(** ** Decoding what was encoded *)

Lemma read_u64_app2 (pre r : bytes) (a z i : Z) :
  i = Z.of_nat (length pre) + 8 -> 0 <= z < 2 ^ 64 ->
  read_u64 (pre ++ to_be 8 a ++ to_be 8 z ++ r) i = z.
Proof.
  intros Hi Hz. rewrite app_assoc.
  apply read_u64_app; [rewrite length_app, to_be_length; lia | exact Hz].
Qed.

Lemma byte_at_app (pre r : bytes) (x : Byte.byte) (i : Z) :
  i = Z.of_nat (length pre) -> byte_at (pre ++ x :: r) i = Ok (bZ x).
Proof. intros ->. unfold byte_at. rewrite skipZ_app. reflexivity. Qed.

Lemma small_u64 (z : Z) : 0 <= z < 256 -> 0 <= z < 2 ^ 64.
Proof.
  intros H. assert (256 <= 2 ^ 64) by (apply Z.leb_le; reflexivity). lia.
Qed.

Lemma sint_to_bytes_inv (n : nat) (z : Z) (b : bytes) :
  (0 < n)%nat -> sint_to_bytes n z = Ok b ->
  b = to_be n z /\ - 2 ^ (8 * Z.of_nat n - 1) <= z < 2 ^ (8 * Z.of_nat n - 1).
Proof.
  intros Hn. unfold sint_to_bytes.
  destruct (Nat.eqb_spec n 0); [lia|].
  destruct (Z.leb_spec (- 2 ^ (8 * Z.of_nat n - 1)) z),
    (Z.ltb_spec z (2 ^ (8 * Z.of_nat n - 1))); simpl;
    intros E; inversion E; auto.
Qed.

Lemma hashable_false_bools (k : value) : hashable (false_bools k) = hashable k.
Proof. destruct k; reflexivity. Qed.

Lemma no_true_false_bools (v : value) : no_true v = true -> false_bools v = v.
Proof.
  induction v as [ | b | z | x | s | xs IH | kvs IH | a b c Ha Hb Hc | a b c Ha Hb Hc]
    using value_ind'; cbn [no_true false_bools]; intros H; try reflexivity.
  - destruct b; [discriminate | reflexivity].
  - f_equal. induction IH as [|x t Hx _ IHt]; [reflexivity|].
    cbn [forallb] in H. apply andb_true_iff in H as [H1 H2].
    cbn [map]. rewrite Hx, IHt by assumption. reflexivity.
  - f_equal. induction IH as [|[k x] t [Hk Hx] _ IHt]; [reflexivity|].
    cbn [forallb] in H. apply andb_true_iff in H as [H1 H2].
    apply andb_true_iff in H1 as [H1 H3].
    cbn [map]. cbn [fst snd] in Hk, Hx. rewrite Hk, Hx, IHt by assumption.
    reflexivity.
  - apply andb_true_iff in H as [H H3]. apply andb_true_iff in H as [H1 H2].
    rewrite Ha, Hb, Hc by assumption. reflexivity.
  - apply andb_true_iff in H as [H H3]. apply andb_true_iff in H as [H1 H2].
    rewrite Ha, Hb, Hc by assumption. reflexivity.
Qed.

Lemma dict_update_fresh (out : list (value * value)) (key x : value) :
  forallb (fun o => negb (key_eq (fst o) key)) out = true ->
  dict_update out key x = out ++ [(key, x)].
Proof.
  induction out as [|[k y] t IH]; cbn [forallb dict_update app fst]; intros H;
    [reflexivity|].
  apply andb_true_iff in H as [H1 H2]. apply negb_true_iff in H1.
  rewrite H1, IH by exact H2. reflexivity.
Qed.

(** Split the successful binds of an hypothesis [m1 >>= ... = Ok r]. *)
Ltac inv_bind H :=
  repeat match type of H with
  | bind ?m _ = Ok _ =>
      let E := fresh "E" in
      let r := fresh "r" in
      case_eq m; intros r E; rewrite E in H; cbn [bind] in H;
      [| discriminate H]
  end.

(** The decoder started at an encoding of [v], with enough fuel, returns
    [false_bools v] and the position right after the encoding. *)
Definition dec_ok (v : value) : Prop :=
  forall (B pre e rest : bytes) (f : nat) (i : Z),
    B = pre ++ e ++ rest -> i = Z.of_nat (length pre) ->
    wf_b v = true -> to_bytes v = Ok e -> (vsize v <= f)%nat ->
    _from_bytes f B i = Ok (false_bools v, i + Z.of_nat (length e)).

Lemma list_loop_ok (xs : list value) (B pre items rest : bytes) (f g : nat) (i : Z) :
  Forall dec_ok xs -> B = pre ++ items ++ rest -> i = Z.of_nat (length pre) ->
  forallb wf_b xs = true -> list_items_to_bytes to_bytes xs = Ok items ->
  (forall x, In x xs -> (vsize x <= f)%nat) -> (length xs <= g)%nat ->
  list_from_bytes_loop (_from_bytes f B) g (Z.of_nat (length xs)) i
  = Ok (map false_bools xs, i + Z.of_nat (length items)).
Proof.
  intros HF. revert pre items i g.
  induction HF as [|x t Hx HF IH]; intros pre items i g HB Hi Hwf He Hs Hg.
  - cbn in He. injection He as <-. destruct g; cbn; rewrite Z.add_0_r; reflexivity.
  - cbn [list_items_to_bytes] in He. inv_bind He. injection He as <-.
    rename r into xb, r0 into r.
    cbn [forallb] in Hwf. apply andb_true_iff in Hwf as [Hw1 Hw2].
    destruct g as [|g]; [cbn in Hg; lia|].
    cbn [list_from_bytes_loop length].
    destruct (Z.leb_spec (Z.of_nat (S (length t))) 0); [lia|].
    rewrite (Hx B pre xb (r ++ rest) f i) by
      (try rewrite HB, <- app_assoc; auto with datatypes).
    cbn [bind].
    replace (Z.of_nat (S (length t)) - 1) with (Z.of_nat (length t)) by lia.
    rewrite (IH (pre ++ xb) r (i + Z.of_nat (length xb)) g) by
      (try rewrite HB, <- !app_assoc; try rewrite length_app;
       auto with datatypes; try lia; cbn in Hg; lia).
    cbn [bind map]. rewrite length_app. f_equal. f_equal. lia.
Qed.

Lemma dict_loop_ok (kvs : list (value * value)) (B pre items rest : bytes)
  (f g : nat) (i : Z) (out : list (value * value)) :
  Forall (fun kv => dec_ok (fst kv) /\ dec_ok (snd kv)) kvs ->
  B = pre ++ items ++ rest -> i = Z.of_nat (length pre) ->
  forallb (fun '(k, x) => wf_b k && wf_b x) kvs = true ->
  keys_distinct (map fst kvs) = true ->
  (forall kv o, In kv kvs -> In o out ->
     key_eq (fst o) (false_bools (fst kv)) = false) ->
  dict_items_to_bytes to_bytes kvs = Ok items ->
  (forall kv, In kv kvs -> (vsize (fst kv) <= f /\ vsize (snd kv) <= f)%nat) ->
  (length kvs <= g)%nat ->
  dict_from_bytes_loop (_from_bytes f B) g (Z.of_nat (length kvs)) out i
  = Ok (out ++ map (fun '(k, x) => (false_bools k, false_bools x)) kvs,
        i + Z.of_nat (length items)).
Proof.
  intros HF. revert pre items i g out.
  induction HF as [|[k x] t [Hk Hx] HF IH];
    intros pre items i g out HB Hi Hwf Hd Hout He Hs Hg.
  - cbn in He. injection He as <-.
    destruct g; cbn; rewrite Z.add_0_r, app_nil_r; reflexivity.
  - cbn [fst snd] in Hk, Hx.
    cbn [dict_items_to_bytes] in He. inv_bind He. injection He as <-.
    rename r into kb, r0 into xb, r1 into r.
    cbn [forallb] in Hwf. apply andb_true_iff in Hwf as [Hw1 Hw2].
    apply andb_true_iff in Hw1 as [Hwk Hwx].
    cbn [map keys_distinct fst] in Hd.
    apply andb_true_iff in Hd as [Hd1 Hd3]. apply andb_true_iff in Hd1 as [Hh Hd2].
    destruct g as [|g]; [cbn in Hg; lia|].
    cbn [dict_from_bytes_loop length].
    destruct (Z.leb_spec (Z.of_nat (S (length t))) 0); [lia|].
    destruct (Hs (k, x) (or_introl eq_refl)) as [Hsk Hsx]. cbn [fst snd] in Hsk, Hsx.
    rewrite (Hk B pre kb (xb ++ r ++ rest) f i) by
      (try rewrite HB, <- !app_assoc; auto with datatypes).
    cbn [bind].
    rewrite (Hx B (pre ++ kb) xb (r ++ rest) f (i + Z.of_nat (length kb))) by
      (try rewrite HB, <- !app_assoc; try rewrite length_app; auto with datatypes; lia).
    cbn [bind]. unfold dict_setitem. rewrite hashable_false_bools, Hh.
    rewrite dict_update_fresh.
    2:{ apply forallb_forall. intros o Ho. apply negb_true_iff.
        exact (Hout (k, x) o (or_introl eq_refl) Ho). }
    cbn [bind].
    replace (Z.of_nat (S (length t)) - 1) with (Z.of_nat (length t)) by lia.
    rewrite (IH (pre ++ kb ++ xb) r (i + Z.of_nat (length kb) + Z.of_nat (length xb)) g).
    + cbn [map]. rewrite <- app_assoc. cbn [app]. rewrite !length_app. f_equal. f_equal. lia.
    + rewrite HB, <- !app_assoc. reflexivity.
    + rewrite !length_app. lia.
    + exact Hw2.
    + exact Hd3.
    + intros kv o Hkv Ho. apply in_app_or in Ho as [Ho | Ho].
      * exact (Hout kv o (or_intror Hkv) Ho).
      * destruct Ho as [<- | []]. cbn [fst].
        apply forallb_forall with (x := fst kv) in Hd2.
        -- apply negb_true_iff in Hd2. exact Hd2.
        -- apply in_map. exact Hkv.
    + exact E1.
    + intros kv Hkv. apply Hs. right. exact Hkv.
    + cbn in Hg. lia.
Qed.

Lemma fold_max_le {A} (h : A -> nat) (l : list A) (base f : nat) :
  (base <= f)%nat -> (forall a, In a l -> (h a <= f)%nat) ->
  (fold_right (fun a m => Nat.max (h a) m) base l <= f)%nat.
Proof.
  intros Hb Hl. induction l as [|a t IH]; cbn [fold_right]; [exact Hb|].
  apply Nat.max_lub; [apply Hl; left; reflexivity|].
  apply IH. intros a' Ha'. apply Hl. right. exact Ha'.
Qed.

Lemma fold_max_ge {A} (h : A -> nat) (l : list A) (base : nat) (a : A) :
  In a l -> (h a <= fold_right (fun a m => Nat.max (h a) m) base l)%nat.
Proof.
  induction l as [|b t IH]; cbn [fold_right In]; [intros []|].
  intros [<- | Ha]; [apply Nat.le_max_l|].
  etransitivity; [apply IH; exact Ha | apply Nat.le_max_r].
Qed.

Lemma fold_max_base {A} (h : A -> nat) (l : list A) (base : nat) :
  (base <= fold_right (fun a m => Nat.max (h a) m) base l)%nat.
Proof.
  induction l as [|b t IH]; cbn [fold_right]; [reflexivity|].
  etransitivity; [exact IH | apply Nat.le_max_r].
Qed.

Lemma vsize_dict_fold (kvs : list (value * value)) (base : nat) :
  fold_right (fun '(k, x) m => Nat.max (vsize k) (Nat.max (vsize x) m)) base kvs
  = fold_right (fun kv m => Nat.max (Nat.max (vsize (fst kv)) (vsize (snd kv))) m)
      base kvs.
Proof.
  induction kvs as [|[k x] t IH]; cbn [fold_right fst snd]; [reflexivity|].
  rewrite IH. lia.
Qed.

Theorem from_bytes_to_bytes_at (v : value) : dec_ok v.
Proof.
  induction v as [ | b | z | x | s | xs IH | kvs IH | a b c Ha Hb Hc | a b c Ha Hb Hc]
    using value_ind';
    unfold dec_ok; intros B pre e rest f i HB Hi Hwf He Hf;
    (destruct f as [|f]; [cbn in Hf; lia|]); subst B i.
  - (* None *)
    cbn [to_bytes] in He. unfold none_to_bytes in He. apply uint_to_bytes_inv in He as [-> _].
    cbn [_from_bytes].
    rewrite read_u64_app by (reflexivity || (apply small_u64; unfold NONE; lia)).
    change (serializer_from_bytes NONE) with (Ok OT_NONE).
    cbn [bind none_from_bytes false_bools]. rewrite to_be_length. reflexivity.
  - (* bool *)
    cbn [to_bytes] in He. unfold boolean_to_bytes in He. inv_bind He. apply Ok_inj in He; subst e.
    apply uint_to_bytes_inv in E as [-> _].
    cbn [_from_bytes]. rewrite <- app_assoc.
    rewrite read_u64_app by (reflexivity || (apply small_u64; unfold BOOLEAN; lia)).
    change (serializer_from_bytes BOOLEAN) with (Ok OT_BOOLEAN).
    cbn [bind]. unfold boolean_from_bytes. rewrite app_assoc.
    set (bb := if negb b then [Byte.x30] else [Byte.x31]).
    assert (Hbb : exists y, bb = [y]) by (destruct b; eexists; reflexivity).
    destruct Hbb as [y ->]. cbn [app].
    rewrite byte_at_app by (rewrite length_app, to_be_length; lia).
    cbn [bind false_bools]. rewrite !length_app, to_be_length. cbn [length].
    f_equal. f_equal. lia.
  - (* int *)
    cbn [to_bytes] in He. unfold int_to_bytes in He. inv_bind He. apply Ok_inj in He; subst e.
    rename r into tb, r0 into ib, r1 into sh.
    apply uint_to_bytes_inv in E as [-> _].
    assert (HL : 28 <= getsizeof_int z).
    { unfold getsizeof_int. lia. }
    apply uint_to_bytes_inv in E1 as [-> HLr].
    apply sint_to_bytes_inv in E0 as [-> Hz]; [|lia].
    cbn [_from_bytes]. rewrite <- !app_assoc.
    rewrite read_u64_app by (reflexivity || (apply small_u64; unfold INTEGER; lia)).
    change (serializer_from_bytes INTEGER) with (Ok OT_INTEGER).
    cbn [bind]. unfold int_from_bytes.
    rewrite read_u64_app2 by (reflexivity || lia).
    rewrite app_assoc, app_assoc.
    rewrite slice_app.
    + rewrite be_sint_to_be by lia. cbn [false_bools].
      rewrite !length_app, !to_be_length. f_equal. f_equal. lia.
    + rewrite !length_app, !to_be_length. lia.
    + rewrite to_be_length. lia.
  - (* float *)
    cbn [to_bytes] in He. unfold float_to_bytes in He. inv_bind He. apply Ok_inj in He; subst e.
    rename r into tb, r0 into sh.
    apply uint_to_bytes_inv in E as [-> _].
    rewrite to_be_length in E0. apply uint_to_bytes_inv in E0 as [-> _].
    cbn [wf_b] in Hwf. apply andb_true_iff in Hwf as [Hw1 Hw2].
    apply Z.leb_le in Hw1. apply Z.ltb_lt in Hw2.
    cbn [_from_bytes]. rewrite <- !app_assoc.
    rewrite read_u64_app by (reflexivity || (apply small_u64; unfold FLOAT; lia)).
    change (serializer_from_bytes FLOAT) with (Ok OT_FLOAT).
    cbn [bind]. unfold float_from_bytes.
    rewrite read_u64_app2 by (reflexivity || (apply small_u64; lia)).
    rewrite app_assoc, app_assoc.
    rewrite slice_app.
    + rewrite to_be_length. cbn [Nat.eqb]. rewrite be_uint_to_be.
      rewrite Z.mod_small by (cbn [Z.of_nat]; lia). cbn [false_bools].
      rewrite !length_app, !to_be_length. f_equal. f_equal. lia.
    + rewrite !length_app, !to_be_length. lia.
    + rewrite to_be_length. reflexivity.
  - (* str *)
    cbn [to_bytes] in He. unfold string_to_bytes in He. inv_bind He. apply Ok_inj in He; subst e.
    rename r into u, r0 into tb, r1 into lb.
    apply uint_to_bytes_inv in E0 as [-> _].
    apply uint_to_bytes_inv in E1 as [-> Hlen].
    cbn [_from_bytes]. rewrite <- !app_assoc.
    rewrite read_u64_app by (reflexivity || (apply small_u64; unfold STRING; lia)).
    change (serializer_from_bytes STRING) with (Ok OT_STRING).
    cbn [bind]. unfold string_from_bytes.
    rewrite read_u64_app2 by (reflexivity || lia).
    rewrite app_assoc, app_assoc.
    rewrite slice_app.
    + rewrite (utf8_encode_decode s u E). cbn [false_bools].
      rewrite !length_app, !to_be_length. f_equal. f_equal. lia.
    + rewrite !length_app, !to_be_length. lia.
    + reflexivity.
  - (* list *)
    cbn [to_bytes] in He. inv_bind He. apply Ok_inj in He; subst e.
    rename r into tb, r0 into cb, r1 into items.
    apply uint_to_bytes_inv in E as [-> _].
    apply uint_to_bytes_inv in E0 as [-> Hn].
    cbn [vsize] in Hf. cbn [wf_b] in Hwf.
    cbn [_from_bytes]. rewrite <- !app_assoc.
    rewrite read_u64_app by (reflexivity || (apply small_u64; unfold LIST; lia)).
    change (serializer_from_bytes LIST) with (Ok OT_LIST).
    cbn [bind].
    rewrite read_u64_app2 by (reflexivity || lia).
    rewrite (list_loop_ok xs _ (pre ++ to_be 8 LIST ++ to_be 8 (Z.of_nat (length xs)))
               items rest f f).
    + cbn [bind false_bools]. rewrite !length_app, !to_be_length. f_equal. f_equal. lia.
    + exact IH.
    + rewrite <- !app_assoc. reflexivity.
    + rewrite !length_app, !to_be_length. lia.
    + exact Hwf.
    + exact E1.
    + intros x Hx. pose proof (fold_max_ge vsize xs (length xs) x Hx). lia.
    + pose proof (fold_max_base vsize xs (length xs)). lia.
  - (* dict *)
    cbn [to_bytes] in He. inv_bind He. apply Ok_inj in He; subst e.
    rename r into tb, r0 into lb, r1 into items.
    apply uint_to_bytes_inv in E as [-> _].
    apply uint_to_bytes_inv in E0 as [-> Hn].
    cbn [vsize] in Hf. rewrite vsize_dict_fold in Hf.
    cbn [wf_b] in Hwf. apply andb_true_iff in Hwf as [Hw Hd].
    cbn [_from_bytes]. rewrite <- !app_assoc.
    rewrite read_u64_app by (reflexivity || (apply small_u64; unfold DICT; lia)).
    change (serializer_from_bytes DICT) with (Ok OT_DICT).
    cbn [bind].
    rewrite read_u64_app2 by (reflexivity || lia).
    rewrite (dict_loop_ok kvs _ (pre ++ to_be 8 DICT ++ to_be 8 (Z.of_nat (length kvs)))
               items rest f f).
    + cbn [bind false_bools app]. rewrite !length_app, !to_be_length.
      f_equal. f_equal. lia.
    + exact IH.
    + rewrite <- !app_assoc. reflexivity.
    + rewrite !length_app, !to_be_length. lia.
    + exact Hw.
    + exact Hd.
    + intros kv o _ [].
    + exact E1.
    + intros kv Hkv.
      pose proof (fold_max_ge (fun kv => Nat.max (vsize (fst kv)) (vsize (snd kv)))
                    kvs (length kvs) kv Hkv). cbv beta in *. lia.
    + pose proof (fold_max_base (fun kv => Nat.max (vsize (fst kv)) (vsize (snd kv)))
                    kvs (length kvs)). cbv beta in *. lia.
  - (* Payload *)
    cbn [to_bytes] in He. inv_bind He. apply Ok_inj in He; subst e.
    rename r into tb, r0 into ab, r1 into bb, r2 into cb.
    apply uint_to_bytes_inv in E as [-> _].
    cbn [vsize] in Hf. cbn [wf_b] in Hwf.
    apply andb_true_iff in Hwf as [Hw Hwc]. apply andb_true_iff in Hw as [Hwa Hwb].
    cbn [_from_bytes]. rewrite <- !app_assoc.
    rewrite read_u64_app by (reflexivity || (apply small_u64; unfold PAYLOAD; lia)).
    change (serializer_from_bytes PAYLOAD) with (Ok OT_PAYLOAD).
    cbn [bind].
    rewrite (Ha _ (pre ++ to_be 8 PAYLOAD) ab (bb ++ cb ++ rest) f)
      by (rewrite ?length_app, ?to_be_length, <- ?app_assoc; auto; lia).
    cbn [bind].
    rewrite (Hb _ (pre ++ to_be 8 PAYLOAD ++ ab) bb (cb ++ rest) f)
      by (rewrite ?length_app, ?to_be_length, <- ?app_assoc; auto; lia).
    cbn [bind].
    rewrite (Hc _ (pre ++ to_be 8 PAYLOAD ++ ab ++ bb) cb rest f)
      by (rewrite ?length_app, ?to_be_length, <- ?app_assoc; auto; lia).
    cbn [bind false_bools]. rewrite !length_app, !to_be_length. f_equal. f_equal. lia.
  - (* WorldState *)
    cbn [to_bytes] in He. inv_bind He. apply Ok_inj in He; subst e.
    rename r into tb, r0 into ab, r1 into bb, r2 into cb.
    apply uint_to_bytes_inv in E as [-> _].
    cbn [vsize] in Hf. cbn [wf_b] in Hwf.
    apply andb_true_iff in Hwf as [Hw Hwc]. apply andb_true_iff in Hw as [Hwa Hwb].
    cbn [_from_bytes]. rewrite <- !app_assoc.
    rewrite read_u64_app by (reflexivity || (apply small_u64; unfold WORLD_STATE; lia)).
    change (serializer_from_bytes WORLD_STATE) with (Ok OT_WORLD_STATE).
    cbn [bind].
    rewrite (Ha _ (pre ++ to_be 8 WORLD_STATE) ab (bb ++ cb ++ rest) f)
      by (rewrite ?length_app, ?to_be_length, <- ?app_assoc; auto; lia).
    cbn [bind].
    rewrite (Hb _ (pre ++ to_be 8 WORLD_STATE ++ ab) bb (cb ++ rest) f)
      by (rewrite ?length_app, ?to_be_length, <- ?app_assoc; auto; lia).
    cbn [bind].
    rewrite (Hc _ (pre ++ to_be 8 WORLD_STATE ++ ab ++ bb) cb rest f)
      by (rewrite ?length_app, ?to_be_length, <- ?app_assoc; auto; lia).
    cbn [bind false_bools]. rewrite !length_app, !to_be_length. f_equal. f_equal. lia.
Qed.

(** Every encoding is at least 8 bytes long and bounds [vsize]. *)
Definition enc_size_ok (v : value) : Prop :=
  forall e, to_bytes v = Ok e -> (vsize v <= length e)%nat /\ (8 <= length e)%nat.

Lemma list_items_size (xs : list value) (items : bytes) :
  Forall enc_size_ok xs -> list_items_to_bytes to_bytes xs = Ok items ->
  (length xs <= length items)%nat /\
  (forall x, In x xs -> (vsize x <= length items)%nat).
Proof.
  intros HF. revert items.
  induction HF as [|x t Hx HF IH]; intros items He.
  - split; [cbn; lia | intros x []].
  - cbn [list_items_to_bytes] in He. inv_bind He. apply Ok_inj in He. subst items.
    destruct (Hx _ E) as [H1 H2]. destruct (IH _ E0) as [H3 H4].
    rewrite length_app. split; [cbn [length]; lia|].
    intros y [<- | Hy]; [lia|]. specialize (H4 y Hy). lia.
Qed.

Lemma dict_items_size (kvs : list (value * value)) (items : bytes) :
  Forall (fun kv => enc_size_ok (fst kv) /\ enc_size_ok (snd kv)) kvs ->
  dict_items_to_bytes to_bytes kvs = Ok items ->
  (length kvs <= length items)%nat /\
  (forall kv, In kv kvs -> (Nat.max (vsize (fst kv)) (vsize (snd kv)) <= length items)%nat).
Proof.
  intros HF. revert items.
  induction HF as [|[k x] t [Hk Hx] HF IH]; intros items He.
  - split; [cbn; lia | intros kv []].
  - cbn [fst snd] in Hk, Hx.
    cbn [dict_items_to_bytes] in He. inv_bind He. apply Ok_inj in He. subst items.
    destruct (Hk _ E) as [H1 H2]. destruct (Hx _ E0) as [H5 H6].
    destruct (IH _ E1) as [H3 H4].
    rewrite !length_app. split; [cbn [length]; lia|].
    intros kv [<- | Hy]; [cbn [fst snd]; lia|]. specialize (H4 kv Hy). lia.
Qed.

Lemma to_bytes_size (v : value) : enc_size_ok v.
Proof.
  induction v as [ | b | z | x | s | xs IH | kvs IH | a b c Ha Hb Hc | a b c Ha Hb Hc]
    using value_ind'; unfold enc_size_ok; intros e He; cbn [to_bytes vsize] in *.
  - unfold none_to_bytes in He. apply uint_to_bytes_inv in He as [-> _].
    rewrite to_be_length. lia.
  - unfold boolean_to_bytes in He. inv_bind He. apply Ok_inj in He. subst e.
    apply uint_to_bytes_inv in E as [-> _]. rewrite length_app, to_be_length. lia.
  - unfold int_to_bytes in He. inv_bind He. apply Ok_inj in He. subst e.
    apply uint_to_bytes_inv in E as [-> _]. rewrite !length_app, to_be_length. lia.
  - unfold float_to_bytes in He. inv_bind He. apply Ok_inj in He. subst e.
    apply uint_to_bytes_inv in E as [-> _]. rewrite !length_app, to_be_length. lia.
  - unfold string_to_bytes in He. inv_bind He. apply Ok_inj in He. subst e.
    apply uint_to_bytes_inv in E0 as [-> _]. rewrite !length_app, to_be_length. lia.
  - inv_bind He. apply Ok_inj in He. subst e.
    apply uint_to_bytes_inv in E as [-> _]. apply uint_to_bytes_inv in E0 as [-> _].
    destruct (list_items_size xs _ IH E1) as [H1 H2].
    rewrite !length_app, !to_be_length.
    assert (fold_right (fun x m => Nat.max (vsize x) m) (length xs) xs <= length r1)%nat
      by (apply fold_max_le; assumption).
    lia.
  - inv_bind He. apply Ok_inj in He. subst e.
    apply uint_to_bytes_inv in E as [-> _]. apply uint_to_bytes_inv in E0 as [-> _].
    destruct (dict_items_size kvs _ IH E1) as [H1 H2].
    rewrite !length_app, !to_be_length, vsize_dict_fold.
    assert (fold_right (fun kv m => Nat.max (Nat.max (vsize (fst kv)) (vsize (snd kv))) m)
              (length kvs) kvs <= length r1)%nat
      by (apply fold_max_le; assumption).
    lia.
  - inv_bind He. apply Ok_inj in He. subst e.
    apply uint_to_bytes_inv in E as [-> _].
    destruct (Ha _ E0), (Hb _ E1), (Hc _ E2).
    rewrite !length_app, !to_be_length. lia.
  - inv_bind He. apply Ok_inj in He. subst e.
    apply uint_to_bytes_inv in E as [-> _].
    destruct (Ha _ E0), (Hb _ E1), (Hc _ E2).
    rewrite !length_app, !to_be_length. lia.
Qed.

(** Decoding an encoding gives back the value with its bools set to
    [False]. *)
Lemma from_bytes_to_bytes (v : value) (e : bytes) :
  wf_b v = true -> to_bytes v = Ok e -> from_bytes e = Ok (false_bools v).
Proof.
  intros Hwf He. unfold from_bytes.
  destruct (to_bytes_size v e He) as [Hs _].
  rewrite (from_bytes_to_bytes_at v e [] e [] (S (length e)) 0)
    by (rewrite ?app_nil_r; auto).
  reflexivity.
Qed.

(* ------------------------------------------------------------------ *)
(** ** The fuel of [from_bytes] is never exhausted *)

Lemma be_uint_nonneg (l : bytes) : 0 <= be_uint l.
Proof.
  unfold be_uint.
  assert (H : forall acc, 0 <= acc -> 0 <= fold_left (fun acc x => acc * 256 + bZ x) l acc).
  { induction l as [|x t IH]; intros acc Hacc; cbn [fold_left]; [exact Hacc|].
    apply IH. pose proof (bZ_range x). lia. }
  apply H. lia.
Qed.

Lemma skipZ_past {A} (i : Z) (l : list A) : Z.of_nat (length l) <= i -> skipZ i l = [].
Proof.
  revert i; induction l as [|x t IH]; intros i Hi; cbn [skipZ]; [reflexivity|].
  cbn [length] in Hi. destruct (Z.leb_spec i 0); [lia|]. apply IH. lia.
Qed.

Lemma read_u64_past (b : bytes) (i : Z) :
  Z.of_nat (length b) <= i -> read_u64 b i = 0.
Proof.
  intros H. unfold read_u64, slice. rewrite skipZ_past by exact H. reflexivity.
Qed.

Lemma from_bytes_past (f : nat) (b : bytes) (i : Z) :
  Z.of_nat (length b) <= i -> _from_bytes (S f) b i = Err RuntimeError.
Proof.
  intros H. cbn [_from_bytes]. rewrite read_u64_past by exact H. reflexivity.
Qed.

(** Every successful read moves at least past the 8-byte tag. *)
Lemma list_loop_progress (dec : Z -> result (value * Z)) (g : nat) (k p : Z)
  (xs : list value) (p' : Z) :
  (forall q x q', dec q = Ok (x, q') -> q <= q') ->
  list_from_bytes_loop dec g k p = Ok (xs, p') -> p <= p'.
Proof.
  intros Hd. revert k p xs. induction g as [|g IH]; intros k p xs H; cbn in H.
  - destruct (k <=? 0); [injection H; lia | discriminate].
  - destruct (k <=? 0); [injection H; lia|].
    destruct (dec p) as [[x q]|e] eqn:E1; cbn [bind] in H; [|discriminate].
    destruct (list_from_bytes_loop dec g (k - 1) q) as [[ys q']|e] eqn:E2;
      cbn [bind] in H; [|discriminate].
    injection H as _ <-. apply Hd in E1. apply IH in E2. lia.
Qed.

Lemma dict_loop_progress (dec : Z -> result (value * Z)) (g : nat) (k : Z)
  (out : list (value * value)) (p : Z) (out' : list (value * value)) (p' : Z) :
  (forall q x q', dec q = Ok (x, q') -> q <= q') ->
  dict_from_bytes_loop dec g k out p = Ok (out', p') -> p <= p'.
Proof.
  intros Hd. revert k out p. induction g as [|g IH]; intros k out p H; cbn in H.
  - destruct (k <=? 0); [injection H; lia | discriminate].
  - destruct (k <=? 0); [injection H; lia|].
    destruct (dec p) as [[x q]|e] eqn:E1; cbn [bind] in H; [|discriminate].
    destruct (dec q) as [[y q1]|e] eqn:E2; cbn [bind] in H; [|discriminate].
    destruct (dict_setitem out x y) as [o|e]; cbn [bind] in H; [|discriminate].
    apply IH in H. apply Hd in E1. apply Hd in E2. lia.
Qed.

Lemma from_bytes_progress (f : nat) (b : bytes) (i : Z) (v : value) (j : Z) :
  _from_bytes f b i = Ok (v, j) -> i + 8 <= j.
Proof.
  revert i v j. induction f as [|f IH]; intros i v j H; [discriminate|].
  assert (Hd : forall q x q', _from_bytes f b q = Ok (x, q') -> q <= q').
  { intros q x q' Hq. apply IH in Hq. lia. }
  cbn [_from_bytes] in H.
  destruct (serializer_from_bytes (read_u64 b i)) as [t|e]; cbn [bind] in H;
    [|discriminate].
  pose proof (be_uint_nonneg (slice b (i + 8) (i + 8 + 8))) as Hn.
  destruct t; cbn [bind] in H.
  - destruct (list_from_bytes_loop _ _ _ _) as [[xs q]|e] eqn:E; cbn [bind] in H;
      [|discriminate].
    injection H as _ <-. apply list_loop_progress in E; [lia | exact Hd].
  - destruct (dict_from_bytes_loop _ _ _ _ _) as [[xs q]|e] eqn:E; cbn [bind] in H;
      [|discriminate].
    injection H as _ <-. apply dict_loop_progress in E; [lia | exact Hd].
  - unfold string_from_bytes in H. destruct (utf8_decode _); [|discriminate].
    injection H as _ <-. unfold read_u64 in *. lia.
  - unfold int_from_bytes in H. injection H as _ <-. unfold read_u64 in *. lia.
  - unfold float_from_bytes in H. destruct (Nat.eqb _ _); [|discriminate].
    injection H as _ <-. unfold read_u64 in *. lia.
  - unfold boolean_from_bytes in H. destruct (byte_at b (i + 8)); cbn [bind] in H;
      [|discriminate].
    injection H as _ <-. lia.
  - destruct (_from_bytes f b (i + 8)) as [[x q1]|e] eqn:E1; cbn [bind] in H;
      [|discriminate].
    destruct (_from_bytes f b q1) as [[y q2]|e] eqn:E2; cbn [bind] in H;
      [|discriminate].
    destruct (_from_bytes f b q2) as [[z q3]|e] eqn:E3; cbn [bind] in H;
      [|discriminate].
    injection H as _ <-. apply Hd in E1, E2, E3. lia.
  - destruct (_from_bytes f b (i + 8)) as [[x q1]|e] eqn:E1; cbn [bind] in H;
      [|discriminate].
    destruct (_from_bytes f b q1) as [[y q2]|e] eqn:E2; cbn [bind] in H;
      [|discriminate].
    destruct (_from_bytes f b q2) as [[z q3]|e] eqn:E3; cbn [bind] in H;
      [|discriminate].
    injection H as _ <-. apply Hd in E1, E2, E3. lia.
  - unfold none_from_bytes in H. injection H as _ <-. lia.
Qed.

Lemma list_loop_fuel_ok (dec : Z -> result (value * Z)) (len p0 : Z) (g : nat) (k p : Z) :
  (forall q, p0 <= q -> dec q <> Err OutOfFuel) ->
  (forall q x q', dec q = Ok (x, q') -> q + 8 <= q') ->
  (forall q, len <= q -> dec q = Err RuntimeError) ->
  p0 <= p -> (S (Z.to_nat (len - p)) <= g)%nat ->
  list_from_bytes_loop dec g k p <> Err OutOfFuel.
Proof.
  intros Hdec Hprog Hend. revert k p.
  induction g as [|g IH]; intros k p Hp Hg; [lia|].
  cbn [list_from_bytes_loop]. destruct (k <=? 0); [discriminate|].
  destruct (Z.le_gt_cases len p) as [Hl|Hl].
  { rewrite (Hend p Hl). discriminate. }
  destruct (dec p) as [[x q]|e] eqn:E1; cbn [bind].
  - pose proof (Hprog _ _ _ E1) as Hq.
    specialize (IH (k - 1) q ltac:(lia) ltac:(lia)).
    destruct (list_from_bytes_loop dec g (k - 1) q) as [[xs q']|e]; cbn [bind];
      [discriminate | exact IH].
  - intros Hc. apply (Hdec p Hp). rewrite E1. injection Hc as ->. reflexivity.
Qed.

Lemma dict_setitem_fuel_ok (out : list (value * value)) (key x : value) :
  dict_setitem out key x <> Err OutOfFuel.
Proof. unfold dict_setitem. destruct (hashable key); discriminate. Qed.

Lemma dict_loop_fuel_ok (dec : Z -> result (value * Z)) (len p0 : Z) (g : nat) (k : Z)
  (out : list (value * value)) (p : Z) :
  (forall q, p0 <= q -> dec q <> Err OutOfFuel) ->
  (forall q x q', dec q = Ok (x, q') -> q + 8 <= q') ->
  (forall q, len <= q -> dec q = Err RuntimeError) ->
  p0 <= p -> (S (Z.to_nat (len - p)) <= g)%nat ->
  dict_from_bytes_loop dec g k out p <> Err OutOfFuel.
Proof.
  intros Hdec Hprog Hend. revert k out p.
  induction g as [|g IH]; intros k out p Hp Hg; [lia|].
  cbn [dict_from_bytes_loop]. destruct (k <=? 0); [discriminate|].
  destruct (Z.le_gt_cases len p) as [Hl|Hl].
  { rewrite (Hend p Hl). discriminate. }
  destruct (dec p) as [[x q]|e] eqn:E1; cbn [bind].
  - pose proof (Hprog _ _ _ E1) as Hq.
    destruct (dec q) as [[y q1]|e] eqn:E2; cbn [bind].
    + pose proof (Hprog _ _ _ E2) as Hq1.
      pose proof (dict_setitem_fuel_ok out x y) as Hs.
      destruct (dict_setitem out x y) as [o|e]; cbn [bind];
        [|intros Hc; injection Hc as ->; apply Hs; reflexivity].
      apply IH; lia.
    + intros Hc. apply (Hdec q ltac:(lia)). rewrite E2. injection Hc as ->. reflexivity.
  - intros Hc. apply (Hdec p Hp). rewrite E1. injection Hc as ->. reflexivity.
Qed.

Lemma serializer_fuel_ok (t : Z) : serializer_from_bytes t <> Err OutOfFuel.
Proof. unfold serializer_from_bytes. repeat destruct (_ =? _); discriminate. Qed.

Lemma from_bytes_fuel_ok (f : nat) (b : bytes) (i : Z) :
  0 <= i -> (S (Z.to_nat (Z.of_nat (length b) - i)) <= f)%nat ->
  _from_bytes f b i <> Err OutOfFuel.
Proof.
  revert i. induction f as [|f IH]; intros i Hi Hf; [lia|].
  destruct (Z.le_gt_cases (Z.of_nat (length b)) i) as [Hl|Hl].
  { rewrite from_bytes_past by exact Hl. discriminate. }
  assert (Hdec : forall q, i + 8 <= q -> _from_bytes f b q <> Err OutOfFuel)
    by (intros q Hq; apply IH; lia).
  assert (Hend : forall q, Z.of_nat (length b) <= q -> _from_bytes f b q = Err RuntimeError).
  { destruct f as [|f']; [lia|]. intros q Hq. apply from_bytes_past. exact Hq. }
  cbn [_from_bytes].
  pose proof (serializer_fuel_ok (read_u64 b i)) as Hs.
  destruct (serializer_from_bytes (read_u64 b i)) as [t|e]; cbn [bind];
    [|intros Hc; injection Hc as ->; apply Hs; reflexivity].
  destruct t.
  - pose proof (list_loop_fuel_ok (_from_bytes f b) (Z.of_nat (length b)) (i + 16) f
                  (read_u64 b (i + 8)) (i + 8 + 8)
                  ltac:(intros q Hq; apply Hdec; lia)
                  ltac:(intros q x q' E; exact (from_bytes_progress _ _ _ _ _ E))
                  Hend ltac:(lia) ltac:(lia)) as H.
    destruct (list_from_bytes_loop _ _ _ _) as [[xs q]|e]; cbn [bind];
      [discriminate | intros Hc; injection Hc as ->; apply H; reflexivity].
  - pose proof (dict_loop_fuel_ok (_from_bytes f b) (Z.of_nat (length b)) (i + 16) f
                  (read_u64 b (i + 8)) [] (i + 8 + 8)
                  ltac:(intros q Hq; apply Hdec; lia)
                  ltac:(intros q x q' E; exact (from_bytes_progress _ _ _ _ _ E))
                  Hend ltac:(lia) ltac:(lia)) as H.
    destruct (dict_from_bytes_loop _ _ _ _ _) as [[xs q]|e]; cbn [bind];
      [discriminate | intros Hc; injection Hc as ->; apply H; reflexivity].
  - unfold string_from_bytes. destruct (utf8_decode _); discriminate.
  - unfold int_from_bytes. discriminate.
  - unfold float_from_bytes. destruct (Nat.eqb _ _); discriminate.
  - unfold boolean_from_bytes, byte_at. destruct (skipZ _ _); discriminate.
  - destruct (_from_bytes f b (i + 8)) as [[x q1]|e] eqn:E1; cbn [bind];
      [|intros Hc; apply (Hdec (i + 8) ltac:(lia)); congruence].
    pose proof (from_bytes_progress _ _ _ _ _ E1).
    destruct (_from_bytes f b q1) as [[y q2]|e] eqn:E2; cbn [bind];
      [|intros Hc; apply (Hdec q1 ltac:(lia)); congruence].
    pose proof (from_bytes_progress _ _ _ _ _ E2).
    destruct (_from_bytes f b q2) as [[z q3]|e] eqn:E3; cbn [bind];
      [discriminate|intros Hc; apply (Hdec q2 ltac:(lia)); congruence].
  - destruct (_from_bytes f b (i + 8)) as [[x q1]|e] eqn:E1; cbn [bind];
      [|intros Hc; apply (Hdec (i + 8) ltac:(lia)); congruence].
    pose proof (from_bytes_progress _ _ _ _ _ E1).
    destruct (_from_bytes f b q1) as [[y q2]|e] eqn:E2; cbn [bind];
      [|intros Hc; apply (Hdec q1 ltac:(lia)); congruence].
    pose proof (from_bytes_progress _ _ _ _ _ E2).
    destruct (_from_bytes f b q2) as [[z q3]|e] eqn:E3; cbn [bind];
      [discriminate|intros Hc; apply (Hdec q2 ltac:(lia)); congruence].
  - unfold none_from_bytes. discriminate.
Qed.

(** [from_bytes] never runs out of fuel: each of its results is the one of
    the unbounded recursion of the Python code. *)
Lemma from_bytes_fuel_adequate (b : bytes) : from_bytes b <> Err OutOfFuel.
Proof.
  unfold from_bytes.
  pose proof (from_bytes_fuel_ok (S (length b)) b 0 ltac:(lia) ltac:(lia)) as H.
  destruct (_from_bytes (S (length b)) b 0) as [[v j]|e]; cbn [bind];
    [discriminate | intros Hc; injection Hc as ->; apply H; reflexivity].
Qed.

(* ------------------------------------------------------------------ *)
(** ** Reward submission *)

(** [py_int] truncates toward zero. *)
Lemma py_int_nonneg (q : Q) : (0 <= q)%Q ->
  (inject_Z (py_int q) <= q /\ q < inject_Z (py_int q + 1))%Q.
Proof.
  destruct q as [n d]; unfold py_int, Qle, Qlt; cbn; intros H.
  rewrite Z.mul_1_r in H.
  rewrite Z.quot_div_nonneg by lia.
  pose proof (Z.div_mod n (Z.pos d) ltac:(lia)) as Hdm.
  pose proof (Z.mod_pos_bound n (Z.pos d) ltac:(lia)).
  split; nia.
Qed.

Lemma py_int_nonpos (q : Q) : (q <= 0)%Q ->
  (inject_Z (py_int q - 1) < q /\ q <= inject_Z (py_int q))%Q.
Proof.
  destruct q as [n d]; unfold py_int, Qle, Qlt; cbn; intros H.
  rewrite Z.mul_1_r in H.
  assert (Hq : Z.quot n (Z.pos d) = - (Z.quot (- n) (Z.pos d))).
  { rewrite Z.quot_opp_l by lia. lia. }
  rewrite Hq, Z.quot_div_nonneg by lia.
  pose proof (Z.div_mod (- n) (Z.pos d) ltac:(lia)) as Hdm.
  pose proof (Z.mod_pos_bound (- n) (Z.pos d) ltac:(lia)).
  split; nia.
Qed.

(** C4. An attempt that runs (more than [submit_period] hours since
    [time_since_submit]) and in which [submit_reward] raises leaves the
    state as it was. When [submit_reward] returns and [submit_winners]
    raises, [batched_signals] has already been reset to [0], while
    [submitted_this_round] and [time_since_submit] keep their values: the
    batched signal is gone. Only when both calls return are
    [time_since_submit] and [submitted_this_round] set. *)
Theorem try_submit_on_ledger_error (st : mstate) (now : Q)
  (ledger_ok : ledger_call -> bool) (signal_by_agent : list (list Z * Q)) :
  Qgtb ((now - time_since_submit st) / 3600) (submit_period st) = true ->
  let c1 := SubmitReward (state_round st) 0 (py_int (batched_signals st)) (peer_id st) in
  (ledger_ok c1 = false ->
   _try_submit_to_chain st now ledger_ok signal_by_agent = (st, [c1])) /\
  (ledger_ok c1 = true ->
   exists c2,
     snd (_try_submit_to_chain st now ledger_ok signal_by_agent) = [c1; c2] /\
     (ledger_ok c2 = false ->
      fst (_try_submit_to_chain st now ledger_ok signal_by_agent)
      = set_batched_signals st 0%Q) /\
     (ledger_ok c2 = true ->
      fst (_try_submit_to_chain st now ledger_ok signal_by_agent)
      = mk_mstate (state_round st) 0 now (submit_period st) true (peer_id st))).
Proof.
  intros Hel c1; unfold _try_submit_to_chain; rewrite Hel; fold c1.
  split.
  - intros H1; rewrite H1; reflexivity.
  - intros H1; rewrite H1; cbn [negb].
    set (c2 := SubmitWinners _ _ _).
    exists c2; destruct (ledger_ok c2);
      (split; [reflexivity | split; intros H2; [try discriminate H2 | try discriminate H2]]);
      reflexivity.
Qed.

Lemma try_submit_on_ledger_error_witness :
  Qgtb ((10801 - 0) / 3600) 3 = true /\
  _try_submit_to_chain (mk_mstate 3 5 0 3 false p_local) 10801
    (fun c => match c with SubmitReward _ _ _ _ => true | SubmitWinners _ _ _ => false end) []
  = (set_batched_signals (mk_mstate 3 5 0 3 false p_local) 0%Q,
     [SubmitReward 3 0 5 p_local; SubmitWinners 3 [p_local] p_local]).
Proof.
  split; [reflexivity |].
  destruct (try_submit_on_ledger_error (mk_mstate 3 5 0 3 false p_local) 10801
    (fun c => match c with SubmitReward _ _ _ _ => true | SubmitWinners _ _ _ => false end)
    [] eq_refl) as [_ H].
  destruct (H eq_refl) as [c2 [Hc [Hst _]]].
  cbn in Hc. injection Hc as <-.
  rewrite <- Hst by reflexivity.
  vm_compute; reflexivity.
Defined.

(** C4 counterexample: 5 batched signals, [submit_reward] succeeds and
    [submit_winners] raises: afterwards [batched_signals] is [0] and the
    round is not marked submitted. *)
Lemma try_submit_loses_signal :
  let '(st, calls) :=
    _try_submit_to_chain (mk_mstate 3 5 0 3 false p_local) 10801
      (fun c => match c with SubmitReward _ _ _ _ => true | SubmitWinners _ _ _ => false end) [] in
  batched_signals st = 0%Q /\ submitted_this_round st = false
  /\ time_since_submit st = 0%Q
  /\ calls = [SubmitReward 3 0 5 p_local; SubmitWinners 3 [p_local] p_local].
Proof. vm_compute. repeat split. Qed.

(** C5. [submitted_this_round] only guards the extra attempt of
    [_hook_after_round_advanced]; [_try_submit_to_chain] ignores it. An
    attempt within [submit_period] hours of [time_since_submit] makes no
    ledger call and changes nothing; once more than [submit_period] hours
    have passed, [_hook_after_rewards_updated] submits a reward for the
    current round again, whatever the flag. *)
Theorem submit_flag_scope (st : mstate) (now : Q)
  (ledger_ok : ledger_call -> bool) (signal_by_agent : list (list Z * Q)) :
  (submitted_this_round st = true ->
   _hook_after_round_advanced st now ledger_ok signal_by_agent
   = (set_submitted_this_round st false, [])) /\
  (Qgtb ((now - time_since_submit st) / 3600) (submit_period st) = false ->
   _try_submit_to_chain st now ledger_ok signal_by_agent = (st, [])) /\
  (Qgtb ((now - time_since_submit st) / 3600) (submit_period st) = true ->
   exists amount rest,
     snd (_hook_after_rewards_updated st now ledger_ok signal_by_agent)
     = SubmitReward (state_round st) 0 amount (peer_id st) :: rest).
Proof.
  split; [| split].
  - intros H; unfold _hook_after_round_advanced; rewrite H; reflexivity.
  - intros H; unfold _try_submit_to_chain; rewrite H; reflexivity.
  - intros H; unfold _hook_after_rewards_updated, _try_submit_to_chain.
    cbn [time_since_submit submit_period set_batched_signals state_round peer_id].
    rewrite H.
    destruct (ledger_ok _); cbn [negb].
    + destruct (ledger_ok _); cbn; eauto.
    + cbn; eauto.
Qed.

(** C5 counterexample: in round 2, a first [RewardsUpdated] at 10801 s
    submits and sets the flag; a second one at 21602 s, still in round 2,
    submits again. *)
Lemma second_submission_same_round :
  let st0 := mk_mstate 2 0 0 3 false p_local in
  let '(st1, calls1) := _hook_after_rewards_updated st0 10801 (fun _ => true) signals_p1 in
  let '(st2, calls2) := _hook_after_rewards_updated st1 21602 (fun _ => true) signals_p1 in
  submitted_this_round st1 = true /\ state_round st1 = 2 /\
  calls1 = [SubmitReward 2 0 2 p_local; SubmitWinners 2 [p_local] p_local] /\
  calls2 = [SubmitReward 2 0 2 p_local; SubmitWinners 2 [p_local] p_local].
Proof. vm_compute. repeat split. Qed.

(** C10. Every reward submission passes the round, the stage [0], the
    truncation [int(batched_signals)] of the accumulator at the time of
    the attempt and the peer id; from [_hook_after_rewards_updated] the
    accumulator is the float sum [fl] (rounded to binary64) of the old one
    and [_get_my_rewards]. [py_int] truncates
    toward zero: for [q >= 0], [py_int q <= q < py_int q + 1], and for
    [q <= 0], [py_int q - 1 < q <= py_int q]. *)
Theorem reward_submission_args (st : mstate) (now : Q)
  (ledger_ok : ledger_call -> bool) (signal_by_agent : list (list Z * Q)) :
  (forall r s a p,
     In (SubmitReward r s a p) (snd (_try_submit_to_chain st now ledger_ok signal_by_agent)) ->
     r = state_round st /\ s = 0 /\ a = py_int (batched_signals st) /\ p = peer_id st) /\
  (forall r s a p,
     In (SubmitReward r s a p)
        (snd (_hook_after_rewards_updated st now ledger_ok signal_by_agent)) ->
     s = 0 /\ a = py_int (fl (batched_signals st + _get_my_rewards st signal_by_agent))) /\
  (forall q, (0 <= q)%Q -> (inject_Z (py_int q) <= q /\ q < inject_Z (py_int q + 1))%Q) /\
  (forall q, (q <= 0)%Q -> (inject_Z (py_int q - 1) < q /\ q <= inject_Z (py_int q))%Q).
Proof.
  assert (Hgen : forall st' r s a p,
     In (SubmitReward r s a p) (snd (_try_submit_to_chain st' now ledger_ok signal_by_agent)) ->
     r = state_round st' /\ s = 0 /\ a = py_int (batched_signals st') /\ p = peer_id st').
  { intros st' r s a p Hin; unfold _try_submit_to_chain in Hin.
    destruct (Qgtb _ _); [| contradiction].
    destruct (ledger_ok _); cbn [negb] in Hin;
      [destruct (ledger_ok _); cbn [negb] in Hin |].
    all: cbn in Hin;
      repeat match goal with
             | H : _ \/ _ |- _ => destruct H as [H | H]
             | H : False |- _ => contradiction
             | H : SubmitReward _ _ _ _ = _ |- _ => injection H as <- <- <- <-; auto
             | H : SubmitWinners _ _ _ = _ |- _ => discriminate H
             end. }
  split; [| split; [| split]].
  - apply Hgen.
  - intros r s a p Hin; apply Hgen in Hin; cbn [batched_signals set_batched_signals] in Hin;
      tauto.
  - apply py_int_nonneg.
  - apply py_int_nonpos.
Qed.

(** The rounding of the float arithmetic shows in the amount: with
    [batched_signals = 0.0] and the node's own signal
    [0.9999999999999999 = 1 - 2^-53], the reward is [2.0] (the sum
    [1.9999999999999999] rounds to [2.0]) and the amount submitted is
    [int(2.0) = 2]. *)
Lemma submitted_amount_rounds :
  let sig := [(p_local, (1 - Qmake 1 (Z.to_pos (2 ^ 53)))%Q)] in
  let '(_, calls) := _hook_after_rewards_updated (mk_mstate 2 0 0 3 false p_local) 10801
                       (fun _ => true) sig in
  calls = [SubmitReward 2 0 2 p_local; SubmitWinners 2 [p_local] p_local].
Proof. vm_compute. reflexivity. Qed.

(* ------------------------------------------------------------------ *)
(** ** The round barrier *)

(** C6. With the four answers [(0,0), (0,0), (1,0), (1,1)] arriving
    before the timeout, [agent_block] started with local round [0] returns
    at the first answer, [0 >= 0], leaving the local round [0]; started
    with local round [1] (the round just finished) and [max_round <> 1],
    it returns at the third answer with local round [1]. *)
Theorem agent_block_scenario (max_round : Z) (start_time : Q) (clks : list Q) :
  length clks = 4%nat ->
  Forall (fun c => Qgtb train_timeout (c - start_time) = true) clks ->
  let ticks := combine clks [Ok (0, 0); Ok (0, 0); Ok (1, 0); Ok (1, 1)] in
  agent_block max_round start_time 0 ticks = (0, Joined, 1%nat) /\
  (max_round <> 1 -> agent_block max_round start_time 1 ticks = (1, Joined, 3%nat)).
Proof.
  intros Hlen Hall.
  destruct clks as [| c0 [| c1 [| c2 [| c3 [| c4 t]]]]]; try discriminate.
  inversion Hall as [| ? ? H0 Hall1]; subst.
  inversion Hall1 as [| ? ? H1 Hall2]; subst.
  inversion Hall2 as [| ? ? H2 Hall3]; subst.
  cbn zeta; unfold agent_block; cbn [combine agent_block_loop].
  rewrite H0; cbn [negb].
  split; [reflexivity |].
  intros Hmax.
  cbn [Z.geb Z.compare]. 
  replace (0 =? max_round - 1) with false by lia.
  rewrite H1, H2; cbn [negb].
  replace (0 =? max_round - 1) with false by lia.
  reflexivity.
Qed.

Lemma agent_block_scenario_witness :
  (length [0; 1; 2; 3]%Q = 4%nat /\
   Forall (fun c => Qgtb train_timeout (c - 0) = true) [0; 1; 2; 3]%Q) /\
  agent_block 10 0 0 (combine [0; 1; 2; 3]%Q [Ok (0, 0); Ok (0, 0); Ok (1, 0); Ok (1, 1)])
  = (0, Joined, 1%nat).
Proof.
  assert (H : length [0; 1; 2; 3]%Q = 4%nat /\
              Forall (fun c => Qgtb train_timeout (c - 0) = true) [0; 1; 2; 3]%Q).
  { split; [reflexivity | repeat constructor]. }
  split; [exact H |].
  destruct H as [Hl Hf].
  exact (proj1 (agent_block_scenario 10 0 [0; 1; 2; 3]%Q Hl Hf)).
Defined.

(** C6 counterexample: answers at seconds 0, 1, 2, 3, [max_round = 10],
    local round [0]: one answer consumed, local round [0]. *)
Lemma agent_block_returns_at_first_answer :
  agent_block 10 0 0 (combine [0; 1; 2; 3]%Q [Ok (0, 0); Ok (0, 0); Ok (1, 0); Ok (1, 1)])
  = (0, Joined, 1%nat).
Proof. vm_compute. reflexivity. Qed.

(* ------------------------------------------------------------------ *)
(** ** [random.shuffle] is a bijection from valid draws to permutations *)

Lemma randbelow_bound (n : Z) (ds : list Z) :
  0 < n -> 0 <= fst (randbelow n ds) < n.
Proof.
  intros Hn; destruct ds as [| d t]; cbn; [lia |].
  apply Z.mod_pos_bound; lia.
Qed.

Lemma shuffle_loop_S {A} (i : nat) (x : list A) (ds : list Z) :
  shuffle_loop (S i) x ds =
  let '(j, ds) := randbelow (Z.of_nat (S i) + 1) ds in
  shuffle_loop i (swap_items x (S i) (Z.to_nat j)) ds.
Proof. reflexivity. Qed.

Section Shuffle.
Context {A : Type}.

Lemma set_nth_length (l : list A) (n : nat) (x : A) :
  length (set_nth l n x) = length l.
Proof.
  revert n; induction l as [| y t IH]; intros [| n]; cbn; auto.
Qed.

Lemma set_nth_app_l (l r : list A) (n : nat) (x : A) :
  (n < length l)%nat -> set_nth (l ++ r) n x = set_nth l n x ++ r.
Proof.
  revert n; induction l as [| y t IH]; intros [| n] Hn; cbn in *; try lia; auto.
  rewrite IH by lia; reflexivity.
Qed.

Lemma set_nth_app_r (l r : list A) (n : nat) (x : A) :
  set_nth (l ++ r) (length l + n) x = l ++ set_nth r n x.
Proof.
  induction l as [| y t IH]; cbn; [reflexivity |].
  rewrite IH; reflexivity.
Qed.

Lemma set_nth_same (l : list A) (n : nat) (x : A) :
  nth_error l n = Some x -> set_nth l n x = l.
Proof.
  revert n; induction l as [| y t IH]; intros [| n] H; cbn in *;
    try discriminate; [injection H as ->; reflexivity |].
  rewrite IH by exact H; reflexivity.
Qed.

Lemma swap_items_length (x : list A) (i j : nat) :
  length (swap_items x i j) = length x.
Proof.
  unfold swap_items.
  destruct (nth_error x i), (nth_error x j); rewrite ?set_nth_length; reflexivity.
Qed.

Lemma swap_items_app_l (l r : list A) (i j : nat) :
  (i < length l)%nat -> (j < length l)%nat ->
  swap_items (l ++ r) i j = swap_items l i j ++ r.
Proof.
  intros Hi Hj; unfold swap_items.
  rewrite !nth_error_app1 by lia.
  destruct (nth_error l i), (nth_error l j); try reflexivity.
  rewrite set_nth_app_l by lia.
  rewrite set_nth_app_l by (rewrite set_nth_length; lia).
  reflexivity.
Qed.

Lemma swap_items_same (x : list A) (i : nat) : swap_items x i i = x.
Proof.
  unfold swap_items; destruct (nth_error x i) eqn:E; [| reflexivity].
  rewrite (set_nth_same x i a E), (set_nth_same x i a E); reflexivity.
Qed.

Lemma swap_items_decomp (l1 l2 l3 : list A) (a b : A) :
  swap_items (l1 ++ a :: l2 ++ b :: l3) (length l1 + S (length l2)) (length l1)
  = l1 ++ b :: l2 ++ a :: l3.
Proof.
  unfold swap_items.
  rewrite nth_error_app2 by lia.
  replace (length l1 + S (length l2) - length l1)%nat with (S (length l2)) by lia.
  cbn [nth_error].
  rewrite nth_error_app2 by lia.
  rewrite Nat.sub_diag; cbn [nth_error].
  rewrite nth_error_app2 by lia.
  rewrite Nat.sub_diag; cbn [nth_error].
  rewrite set_nth_app_r; cbn [set_nth].
  replace (length l2) with (length l2 + 0)%nat by lia.
  rewrite set_nth_app_r; cbn [set_nth].
  replace (length l1) with (length l1 + 0)%nat by lia.
  rewrite set_nth_app_r; reflexivity.
Qed.

(** The step of the loop at the last index [i] of [x]: the element drawn
    at [j] ends at [i], the rest is a permutation of the others. *)
Lemma swap_items_last (x : list A) (i j : nat) :
  length x = S i -> (j <= i)%nat ->
  exists l' b, nth_error x j = Some b /\ swap_items x i j = l' ++ [b]
               /\ length l' = i /\ Permutation x (l' ++ [b]).
Proof.
  intros Hlen Hj.
  destruct (exists_last (l := x)) as [l [a ->]]; [destruct x; discriminate |].
  rewrite length_app in Hlen; cbn in Hlen.
  destruct (Nat.eq_dec j i) as [-> | Hne].
  - exists l, a; rewrite swap_items_same.
    rewrite nth_error_app2 by lia.
    replace (i - length l)%nat with O by lia.
    repeat split; auto; lia.
  - destruct (nth_error l j) as [b |] eqn:E.
    2: { apply nth_error_None in E; lia. }
    destruct (nth_error_split l j E) as [l1 [l2 [-> Hl1]]].
    exists (l1 ++ a :: l2), b.
    rewrite length_app in Hlen; cbn in Hlen.
    replace i with (length l1 + S (length l2))%nat by lia.
    subst j.
    rewrite <- !app_assoc; cbn [app].
    rewrite swap_items_decomp.
    split; [| split; [| split]].
    + rewrite nth_error_app2 by lia; rewrite Nat.sub_diag; reflexivity.
    + reflexivity.
    + rewrite length_app; cbn; lia.
    + apply Permutation_app_head.
      eapply perm_trans; [apply perm_skip, Permutation_sym, Permutation_cons_append |].
      eapply perm_trans; [apply perm_swap |].
      apply perm_skip, Permutation_cons_append.
Qed.

Lemma swap_items_perm (x : list A) (i j : nat) :
  (j <= i)%nat -> (i < length x)%nat -> Permutation x (swap_items x i j).
Proof.
  intros Hj Hi.
  rewrite <- (firstn_skipn (S i) x).
  assert (Hl : length (firstn (S i) x) = S i) by (rewrite length_firstn; lia).
  rewrite swap_items_app_l by lia.
  apply Permutation_app_tail.
  destruct (swap_items_last (firstn (S i) x) i j Hl Hj) as [l' [b [_ [-> [_ Hp]]]]].
  exact Hp.
Qed.

Lemma shuffle_loop_perm (i : nat) (x : list A) (ds : list Z) :
  (i < length x)%nat \/ i = O -> Permutation x (fst (shuffle_loop i x ds)).
Proof.
  revert x ds; induction i as [| i IH]; intros x ds Hi; [reflexivity |].
  rewrite shuffle_loop_S.
  pose proof (randbelow_bound (Z.of_nat (S i) + 1) ds ltac:(lia)) as Hb.
  destruct (randbelow _ ds) as [j ds'] eqn:E; cbn [fst] in Hb.
  destruct Hi as [Hi | Hi]; [| discriminate].
  eapply perm_trans; [apply (swap_items_perm x (S i) (Z.to_nat j)); lia |].
  apply IH; rewrite swap_items_length; lia.
Qed.

Lemma shuffle_loop_app (i : nat) (l r : list A) (ds : list Z) :
  (i < length l)%nat ->
  shuffle_loop i (l ++ r) ds =
  (fst (shuffle_loop i l ds) ++ r, snd (shuffle_loop i l ds)).
Proof.
  revert l ds; induction i as [| i IH]; intros l ds Hi; [reflexivity |].
  rewrite !shuffle_loop_S.
  pose proof (randbelow_bound (Z.of_nat (S i) + 1) ds ltac:(lia)) as Hb.
  destruct (randbelow _ ds) as [j ds'] eqn:E; cbn [fst] in Hb.
  rewrite swap_items_app_l by lia.
  apply IH; rewrite swap_items_length; lia.
Qed.

Lemma shuffle_loop_step (i : nat) (x : list A) (d : Z) (t : list Z) :
  length x = S (S i) -> 0 <= d <= Z.of_nat (S i) ->
  exists l' b, nth_error x (Z.to_nat d) = Some b
    /\ swap_items x (S i) (Z.to_nat d) = l' ++ [b]
    /\ fst (shuffle_loop (S i) x (d :: t)) = fst (shuffle_loop i l' t) ++ [b]
    /\ length l' = S i /\ Permutation x (l' ++ [b]).
Proof.
  intros Hlen Hd.
  destruct (swap_items_last x (S i) (Z.to_nat d) Hlen ltac:(lia))
    as [l' [b [Hn [Hs [Hl Hp]]]]].
  exists l', b; repeat split; auto.
  rewrite shuffle_loop_S; cbn [randbelow].
  rewrite Z.mod_small by lia.
  rewrite Hs, shuffle_loop_app by lia; reflexivity.
Qed.

Lemma draws_ok_S (i : nat) (d : Z) (t : list Z) :
  draws_ok (S i) (d :: t) = true <-> (0 <= d <= Z.of_nat (S i) /\ draws_ok i t = true).
Proof.
  change (draws_ok (S i) (d :: t)) with
    ((0 <=? d) && (d <=? Z.of_nat (S i)) && draws_ok i t).
  rewrite !andb_true_iff, Z.leb_le, Z.leb_le; tauto.
Qed.

(** Valid draws giving the same arrangement are the same draws. *)
Lemma shuffle_loop_inj (i : nat) (x : list A) (ds1 ds2 : list Z) :
  length x = S i -> NoDup x -> draws_ok i ds1 = true -> draws_ok i ds2 = true ->
  fst (shuffle_loop i x ds1) = fst (shuffle_loop i x ds2) ->
  firstn i ds1 = firstn i ds2.
Proof.
  revert x ds1 ds2; induction i as [| i IH]; intros x ds1 ds2 Hlen Hnd H1 H2 Heq;
    [reflexivity |].
  destruct ds1 as [| d1 t1]; [discriminate |].
  destruct ds2 as [| d2 t2]; [discriminate |].
  apply draws_ok_S in H1 as [Hd1 H1]; apply draws_ok_S in H2 as [Hd2 H2].
  destruct (shuffle_loop_step i x d1 t1 Hlen Hd1) as [l1 [b1 [Hn1 [Hs1 [He1 [Hl1 Hp1]]]]]].
  destruct (shuffle_loop_step i x d2 t2 Hlen Hd2) as [l2 [b2 [Hn2 [Hs2 [He2 [Hl2 Hp2]]]]]].
  rewrite He1, He2 in Heq.
  apply app_inj_tail in Heq as [Heq ->].
  assert (Hj : Z.to_nat d1 = Z.to_nat d2).
  { apply (proj1 (NoDup_nth_error x) Hnd); [lia |].
    rewrite Hn1, Hn2; reflexivity. }
  assert (Hd : d1 = d2) by lia; subst d2.
  rewrite Hs1 in Hs2; apply app_inj_tail in Hs2 as [<- _].
  cbn [firstn]; f_equal.
  apply (IH l1); auto.
  apply Permutation_NoDup in Hp1; [| exact Hnd].
  apply NoDup_app_remove_r in Hp1; exact Hp1.
Qed.

Lemma shuffle_loop_step_eq (i : nat) (x l' : list A) (b : A) (d : Z) (t : list Z) :
  0 <= d <= Z.of_nat (S i) -> swap_items x (S i) (Z.to_nat d) = l' ++ [b] ->
  length l' = S i ->
  fst (shuffle_loop (S i) x (d :: t)) = fst (shuffle_loop i l' t) ++ [b].
Proof.
  intros Hd Hs Hl.
  rewrite shuffle_loop_S; cbn [randbelow].
  rewrite Z.mod_small by lia.
  rewrite Hs, shuffle_loop_app by lia; reflexivity.
Qed.

(** Every arrangement comes from valid draws. *)
Lemma shuffle_loop_surj (i : nat) (x y : list A) :
  length x = S i -> Permutation x y ->
  exists ds, draws_ok i ds = true /\ fst (shuffle_loop i x ds) = y.
Proof.
  revert x y; induction i as [| i IH]; intros x y Hlen Hp.
  - exists []; split; [reflexivity |]; cbn.
    destruct x as [| a [| ? ?]]; try discriminate.
    symmetry; apply Permutation_length_1_inv; exact Hp.
  - destruct (exists_last (l := y)) as [y' [b ->]].
    { intros ->; apply Permutation_length in Hp; rewrite Hlen in Hp; discriminate. }
    assert (Hin : In b x)
      by (apply (Permutation_in b (Permutation_sym Hp)), in_or_app; right; left; reflexivity).
    destruct (In_nth_error x b Hin) as [j Hj].
    assert (Hjl : (j < length x)%nat) by (apply nth_error_Some; rewrite Hj; discriminate).
    destruct (swap_items_last x (S i) j Hlen ltac:(lia)) as [l' [b' [Hn [Hs [Hl Hp']]]]].
    rewrite Hj in Hn; injection Hn as <-.
    assert (Hpl : Permutation l' y').
    { apply (Permutation_app_inv_r [b]).
      eapply perm_trans; [apply Permutation_sym, Hp' | exact Hp]. }
    destruct (IH l' y' Hl Hpl) as [t [Ht Hy]].
    exists (Z.of_nat j :: t); split.
    + apply draws_ok_S; split; [lia | exact Ht].
    + rewrite (shuffle_loop_step_eq i x l' b (Z.of_nat j) t); [| lia | | exact Hl].
      * rewrite Hy; reflexivity.
      * rewrite Nat2Z.id; exact Hs.
Qed.

End Shuffle.

Lemma shuffle_perm {A} (x : list A) (ds : list Z) : Permutation x (fst (shuffle x ds)).
Proof.
  unfold shuffle; apply shuffle_loop_perm.
  destruct x; cbn; [right; reflexivity | left; lia].
Qed.

Lemma shuffle_inj {A} (x : list A) (ds1 ds2 : list Z) :
  NoDup x -> draws_ok (length x - 1) ds1 = true -> draws_ok (length x - 1) ds2 = true ->
  fst (shuffle x ds1) = fst (shuffle x ds2) ->
  firstn (length x - 1) ds1 = firstn (length x - 1) ds2.
Proof.
  unfold shuffle; destruct x as [| a t]; [reflexivity |].
  cbn [length]; rewrite Nat.sub_1_r; cbn [Nat.pred].
  apply shuffle_loop_inj; reflexivity.
Qed.

Lemma shuffle_surj {A} (x y : list A) :
  Permutation x y ->
  exists ds, draws_ok (length x - 1) ds = true /\ fst (shuffle x ds) = y.
Proof.
  unfold shuffle; destruct x as [| a t]; intros Hp.
  - exists []; split; [reflexivity |].
    apply Permutation_nil in Hp; subst; reflexivity.
  - cbn [length]; rewrite Nat.sub_1_r; cbn [Nat.pred].
    apply shuffle_loop_surj; [reflexivity | exact Hp].
Qed.

Lemma shuffle_changes_selection {A} (x : list A) :
  NoDup x -> (200 < length x)%nat ->
  exists ds1 ds2 g,
    draws_ok (length x - 1) ds1 = true /\ draws_ok (length x - 1) ds2 = true /\
    In g (firstn 200 (fst (shuffle x ds2))) /\ ~ In g (firstn 200 (fst (shuffle x ds1))).
Proof.
  intros Hnd Hlen.
  destruct (exists_last (l := x)) as [l [a Hx]]; [destruct x; cbn in Hlen; [lia | discriminate] |].
  destruct (shuffle_surj x x (Permutation_refl x)) as [ds1 [H1 E1]].
  assert (Hp : Permutation x (a :: l)).
  { rewrite Hx; apply Permutation_sym, Permutation_cons_append. }
  destruct (shuffle_surj x (a :: l) Hp) as [ds2 [H2 E2]].
  exists ds1, ds2, a; split; [exact H1 | split; [exact H2 | split]].
  - rewrite E2; left; reflexivity.
  - rewrite E1, Hx; rewrite Hx, length_app in Hlen; cbn in Hlen.
    rewrite firstn_app.
    replace (200 - length l)%nat with O by lia; rewrite app_nil_r.
    intros Hin.
    assert (Hin' : In a l)
      by (rewrite <- (firstn_skipn 200 l); apply in_or_app; left; exact Hin).
    rewrite Hx in Hnd; apply NoDup_remove_2 in Hnd; rewrite app_nil_r in Hnd.
    contradiction.
Qed.

(* ------------------------------------------------------------------ *)
(** ** One polling cycle of the gossip publisher *)

Section GossipFacts.
Variable py_str_other : value -> list Z.
Variable md5_hexdigest : bytes -> list Z.
Variable get_name_from_peer_id : list Z -> list Z.


(** An entry that does not decode makes the whole peer loop fail. *)
Lemma collect_gossip_err (rnd : Z) (clk : nat -> Z) (entries : list (list Z * bytes))
  (acc : list gossip) (ds : list Z) (p : list Z) (b : bytes) (e : exn) :
  In (p, b) entries -> from_bytes b = Err e ->
  exists e', collect_gossip py_str_other md5_hexdigest get_name_from_peer_id rnd clk entries acc ds = Err e'.
Proof.
  revert acc ds; induction entries as [| [p0 b0] t IH]; intros acc ds Hin Hb;
    [contradiction |].
  cbn [collect_gossip].
  destruct Hin as [Heq | Hin].
  - injection Heq as -> ->; rewrite Hb; cbn [bind]; eauto.
  - destruct (from_bytes b0) as [v | e0]; cbn [bind]; [| eauto].
    destruct (py_items v) as [items | e0]; cbn [bind]; [| eauto].
    destruct (flatten_payloads items) as [ps | e0]; cbn [bind]; [| eauto].
    destruct (gossip_of_payloads _ _ _ _ _ _ _ _) as [[acc' ds'] | e0]; cbn [bind];
      [| eauto].
    apply IH; assumption.
Qed.

Lemma poll_published (st : pub_state) (env : poll_env) (batch : list gossip) :
  o_published (_poll_once py_str_other md5_hexdigest get_name_from_peer_id st env) = Some batch ->
  exists r s entries cands ds,
    get_round_and_stage env = Ok (r, s) /\
    dht_get env (py_str_int r) = Ok (Some entries) /\
    collect_gossip py_str_other md5_hexdigest get_name_from_peer_id r (clock env) entries [] (draws env) = Ok (cands, ds) /\
    batch = firstn 200 (fst (shuffle cands ds)).
Proof.
  unfold _poll_once.
  destruct (get_round_and_stage env) as [[r s] | e] eqn:E1; [| discriminate].
  cbn [current_round].
  destruct (dht_get env (py_str_int r)) as [[entries |] | e] eqn:E2; try discriminate.
  destruct (collect_gossip py_str_other md5_hexdigest get_name_from_peer_id r (clock env) entries [] (draws env)) as [[cands ds] | e] eqn:E3;
    [| discriminate].
  cbn [o_published]; unfold publish.
  destruct (firstn 200 (fst (shuffle cands ds))) as [| g gs] eqn:E4; [discriminate |].
  intros H; injection H as <-.
  exists r, s, entries, cands, ds; auto.
Qed.

Lemma random_choice_single (x : value) (ds : list Z) :
  random_choice (VList [x]) ds = Ok (x, tl ds).
Proof.
  destruct ds as [| d t]; [reflexivity |].
  unfold random_choice; cbn [py_len bind randbelow length Z.of_nat Z.eqb].
  rewrite Z.mod_1_r; reflexivity.
Qed.

End GossipFacts.

(** C3. If one entry of the round record does not decode, the cycle
    aborts: [_poll_once] catches the exception once, publishes nothing
    (the entries of the other peers are dropped with it) and only the
    round and stage it read are kept. *)
Theorem poll_once_aborts_on_bad_entry (py_str_other : value -> list Z)
  (md5_hexdigest : bytes -> list Z) (get_name_from_peer_id : list Z -> list Z)
  (st : pub_state) (env : poll_env) (r s : Z) (entries : list (list Z * bytes))
  (p : list Z) (b : bytes) (e : exn) :
  get_round_and_stage env = Ok (r, s) ->
  dht_get env (py_str_int r) = Ok (Some entries) ->
  In (p, b) entries -> from_bytes b = Err e ->
  _poll_once py_str_other md5_hexdigest get_name_from_peer_id st env
  = mk_outcome (mk_pub_state r s) None 1.
Proof.
  intros H1 H2 Hin Hb.
  destruct (collect_gossip_err py_str_other md5_hexdigest get_name_from_peer_id
              r (clock env) entries [] (draws env) p b e Hin Hb) as [e' He].
  unfold _poll_once; rewrite H1; cbn [current_round]; rewrite H2, He.
  reflexivity.
Qed.

Definition bad_entry : bytes := removelast (peer_record c9_payload).

Lemma poll_once_aborts_on_bad_entry_witness :
  (get_round_and_stage (round_env 0 [(p_local, peer_record c9_payload);
                                     (ascii_str "p2", bad_entry)] (fun _ => 0) []) = Ok (2, 0) /\
   dht_get (round_env 0 [(p_local, peer_record c9_payload); (ascii_str "p2", bad_entry)]
              (fun _ => 0) []) (py_str_int 2)
   = Ok (Some [(p_local, peer_record c9_payload); (ascii_str "p2", bad_entry)]) /\
   In (ascii_str "p2", bad_entry) [(p_local, peer_record c9_payload); (ascii_str "p2", bad_entry)] /\
   from_bytes bad_entry = Err RuntimeError) /\
  _poll_once (fun _ => []) (fun _ => []) (fun _ => [])
    (mk_pub_state 1 0)
    (round_env 0 [(p_local, peer_record c9_payload); (ascii_str "p2", bad_entry)] (fun _ => 0) [])
  = mk_outcome (mk_pub_state 2 0) None 1.
Proof.
  assert (H : get_round_and_stage (round_env 0 [(p_local, peer_record c9_payload);
                                     (ascii_str "p2", bad_entry)] (fun _ => 0) []) = Ok (2, 0) /\
   dht_get (round_env 0 [(p_local, peer_record c9_payload); (ascii_str "p2", bad_entry)]
              (fun _ => 0) []) (py_str_int 2)
   = Ok (Some [(p_local, peer_record c9_payload); (ascii_str "p2", bad_entry)]) /\
   In (ascii_str "p2", bad_entry) [(p_local, peer_record c9_payload); (ascii_str "p2", bad_entry)] /\
   from_bytes bad_entry = Err RuntimeError).
  { split; [reflexivity | split; [reflexivity | split]].
    - right; left; reflexivity.
    - vm_compute; reflexivity. }
  split; [exact H |].
  destruct H as [H1 [H2 [H3 H4]]].
  exact (poll_once_aborts_on_bad_entry (fun _ => []) (fun _ => []) (fun _ => [])
           (mk_pub_state 1 0) _ 2 0 _ _ _ _ H1 H2 H3 H4).
Defined.

(** C3 counterexample: peer "p1" alone yields one published entry; with
    a second peer whose record lost its last byte, nothing is published. *)
Lemma bad_entry_drops_good_peer :
  o_published (_poll_once (fun _ => []) (fun _ => []) (fun _ => []) (mk_pub_state 1 0)
                 (round_env 0 [(p_local, peer_record c9_payload)] (fun _ => 0) []))
  <> None /\
  _poll_once (fun _ => []) (fun _ => []) (fun _ => []) (mk_pub_state 1 0)
    (round_env 0 [(p_local, peer_record c9_payload); (ascii_str "p2", bad_entry)]
       (fun _ => 0) [])
  = mk_outcome (mk_pub_state 2 0) None 1.
Proof. vm_compute. split; [discriminate | reflexivity]. Qed.

(** C8. A published batch is the first 200 of the shuffled candidates, so
    never more than 200. [random.shuffle] with valid draws (the draw at
    index [i] in [0, i]) is a bijection onto the arrangements of distinct
    candidates: it permutes, distinct valid draws give distinct
    arrangements and every arrangement is reached. Uniform draws therefore
    give a uniform arrangement, and with more than 200 candidates two
    draws can select different sets of 200. *)
Theorem gossip_publish_cap (py_str_other : value -> list Z)
  (md5_hexdigest : bytes -> list Z) (get_name_from_peer_id : list Z -> list Z)
  (st : pub_state) (env : poll_env) :
  (forall batch,
     o_published (_poll_once py_str_other md5_hexdigest get_name_from_peer_id st env)
     = Some batch ->
     (length batch <= 200)%nat /\
     exists r s entries cands ds,
       get_round_and_stage env = Ok (r, s) /\
       dht_get env (py_str_int r) = Ok (Some entries) /\
       collect_gossip py_str_other md5_hexdigest get_name_from_peer_id
         r (clock env) entries [] (draws env) = Ok (cands, ds) /\
       batch = firstn 200 (fst (shuffle cands ds))) /\
  (forall (A : Type) (x : list A) ds, Permutation x (fst (shuffle x ds))) /\
  (forall (A : Type) (x : list A) ds1 ds2,
     NoDup x -> draws_ok (length x - 1) ds1 = true -> draws_ok (length x - 1) ds2 = true ->
     fst (shuffle x ds1) = fst (shuffle x ds2) ->
     firstn (length x - 1) ds1 = firstn (length x - 1) ds2) /\
  (forall (A : Type) (x y : list A), Permutation x y ->
     exists ds, draws_ok (length x - 1) ds = true /\ fst (shuffle x ds) = y) /\
  (forall (A : Type) (x : list A), NoDup x -> (200 < length x)%nat ->
     exists ds1 ds2 g,
       draws_ok (length x - 1) ds1 = true /\ draws_ok (length x - 1) ds2 = true /\
       In g (firstn 200 (fst (shuffle x ds2))) /\ ~ In g (firstn 200 (fst (shuffle x ds1)))).
Proof.
  split; [| split; [| split; [| split]]].
  - intros batch H.
    destruct (poll_published py_str_other md5_hexdigest get_name_from_peer_id st env batch H)
      as [r [s [entries [cands [ds [H1 [H2 [H3 ->]]]]]]]].
    split; [apply firstn_le_length |].
    exists r, s, entries, cands, ds; auto.
  - intros A x ds; apply shuffle_perm.
  - intros A x ds1 ds2; apply shuffle_inj.
  - intros A x y; apply shuffle_surj.
  - intros A x; apply shuffle_changes_selection.
Qed.

(** C9. The payload of the scenario decodes to itself. When peer "p1"
    stores it in the record shape [_poll_once] reads (a [dict] of lists of
    payloads), a cycle in round 2 publishes exactly one event, with
    message "2+2?...4", dataset "math" and node id "p1". When "p1" stores
    the bare payload, [payload_dict.items()] is empty and nothing is
    published. *)
Theorem gossip_scenario (py_str_other : value -> list Z)
  (md5_hexdigest : bytes -> list Z) (get_name_from_peer_id : list Z -> list Z)
  (st : pub_state) (stage : Z) (clk : nat -> Z) (ds : list Z) :
  from_bytes (encoded c9_payload) = Ok c9_payload /\
  (exists g,
     o_published (_poll_once py_str_other md5_hexdigest get_name_from_peer_id st
                    (round_env stage [(p_local, peer_record c9_payload)] clk ds))
     = Some [g] /\
     g_message g = ascii_str "2+2?...4" /\ g_dataset g = VStr (ascii_str "math") /\
     g_nodeId g = p_local) /\
  _poll_once py_str_other md5_hexdigest get_name_from_peer_id st
    (round_env stage [(p_local, encoded c9_payload)] clk ds)
  = mk_outcome (mk_pub_state 2 stage) None 0.
Proof.
  split; [vm_compute; reflexivity |].
  split.
  - assert (Hdec : from_bytes (peer_record c9_payload)
                    = Ok (VDict [(VInt 0, VList [c9_payload])]))
      by (vm_compute; reflexivity).
    remember (peer_record c9_payload) as pr eqn:Hpr; clear Hpr.
    cbn -[random_choice from_bytes].
    rewrite Hdec.
    cbn -[random_choice].
    rewrite random_choice_single.
    cbn.
    eexists; split; [reflexivity |]; repeat split.
  - vm_compute; reflexivity.
Qed.

(** C9 counterexample: the bare payload as the sole entry of "p1":
    nothing is published. *)
Lemma bare_payload_publishes_nothing :
  _poll_once (fun _ => []) (fun _ => []) (fun _ => []) (mk_pub_state 1 0)
    (round_env 0 [(p_local, encoded c9_payload)] (fun _ => 0) [])
  = mk_outcome (mk_pub_state 2 0) None 0.
Proof. vm_compute. reflexivity. Qed.

(* ------------------------------------------------------------------ *)
(** ** The codec *)

(** C1. [True] is encoded as the tag of [bool] and the byte ["1"], and
    decoded as [False]: decoding gives back [false_bools v], with every
    [bool] turned into [False], so neither round trip holds once a [True]
    is present. The keys [True] and [0] of a [dict] even collapse into
    one. *)
Theorem true_does_not_roundtrip :
  to_bytes (VBool true) = Ok (to_be 8 BOOLEAN ++ [Byte.x31]) /\
  from_bytes (to_be 8 BOOLEAN ++ [Byte.x31]) = Ok (VBool false) /\
  to_bytes (VBool false) = Ok (to_be 8 BOOLEAN ++ [Byte.x30]) /\
  bind (to_bytes (VDict [(VBool true, VStr (ascii_str "a")); (VInt 0, VStr (ascii_str "b"))]))
    from_bytes = Ok (VDict [(VBool false, VStr (ascii_str "b"))]) /\
  (forall v e, wf_b v = true -> to_bytes v = Ok e -> from_bytes e = Ok (false_bools v)).
Proof.
  split; [reflexivity |].
  split; [vm_compute; reflexivity |].
  split; [reflexivity |].
  split; [vm_compute; reflexivity |].
  exact from_bytes_to_bytes.
Qed.

(** X1. Without [True] inside, both round trips hold: decoding the
    encoding of a well-formed value gives the value back, and encoding
    again gives the same bytes. *)
Theorem roundtrip_without_true (v : value) (e : bytes) :
  wf_b v = true -> no_true v = true -> to_bytes v = Ok e ->
  from_bytes e = Ok v /\ bind (from_bytes e) to_bytes = Ok e.
Proof.
  intros Hwf Hnt He.
  pose proof (from_bytes_to_bytes v e Hwf He) as Hd.
  rewrite no_true_false_bools in Hd by exact Hnt.
  split; [exact Hd |].
  rewrite Hd; exact He.
Qed.

Lemma roundtrip_without_true_witness :
  (wf_b c9_payload = true /\ no_true c9_payload = true /\
   to_bytes c9_payload = Ok (encoded c9_payload)) /\
  from_bytes (encoded c9_payload) = Ok c9_payload.
Proof.
  assert (H : wf_b c9_payload = true /\ no_true c9_payload = true /\
              to_bytes c9_payload = Ok (encoded c9_payload))
    by (split; [reflexivity | split; [reflexivity | vm_compute; reflexivity]]).
  split; [exact H |].
  destruct H as [H1 [H2 H3]].
  exact (proj1 (roundtrip_without_true c9_payload (encoded c9_payload) H1 H2 H3)).
Defined.

(** [sys.getsizeof(z) - 1] bytes already hold [z]. *)
Lemma getsizeof_int_fits (z : Z) :
  - 2 ^ (8 * (getsizeof_int z - 1) - 1) <= z < 2 ^ (8 * (getsizeof_int z - 1) - 1).
Proof.
  unfold getsizeof_int, int_ndigits.
  destruct (Z.eqb_spec z 0) as [-> | Hz].
  - pose proof (Z.pow_pos_nonneg 2 (8 * (24 + 4 * Z.max 1 0 - 1) - 1) ltac:(lia) ltac:(lia)).
    lia.
  - set (L := Z.log2 (Z.abs z)).
    destruct (Z.log2_spec (Z.abs z) ltac:(lia)) as [_ Hup]; fold L in Hup.
    assert (HL : 0 <= L) by apply Z.log2_nonneg.
    pose proof (Z.div_mod L 30 ltac:(lia)) as Hdm.
    pose proof (Z.mod_pos_bound L 30 ltac:(lia)).
    pose proof (Z.div_pos L 30 HL ltac:(lia)).
    assert (Hmax : Z.max 1 (L / 30 + 1) = L / 30 + 1) by lia.
    rewrite Hmax.
    assert (Hle : 2 ^ Z.succ L <= 2 ^ (8 * (24 + 4 * (L / 30 + 1) - 1) - 1))
      by (apply Z.pow_le_mono_r; lia).
    lia.
Qed.

(** C2. The length prefix of an [int] is [sys.getsizeof(z)] (28 bytes up
    to 30 bits of magnitude, 4 more per 30 bits), that many two's
    complement bytes follow and decoding gives [z] back. The width is
    never the minimum: one byte fewer already holds [z]. *)
Theorem int_encoding_width (z : Z) :
  getsizeof_int z < 2 ^ 64 ->
  to_bytes (VInt z) = Ok (to_be 8 INTEGER ++ to_be 8 (getsizeof_int z)
                          ++ to_be (Z.to_nat (getsizeof_int z)) z) /\
  from_bytes (to_be 8 INTEGER ++ to_be 8 (getsizeof_int z)
              ++ to_be (Z.to_nat (getsizeof_int z)) z) = Ok (VInt z) /\
  28 <= getsizeof_int z /\
  sint_fits (getsizeof_int z - 1) z = true.
Proof.
  intros Hw.
  assert (H28 : 28 <= getsizeof_int z) by (unfold getsizeof_int; lia).
  pose proof (getsizeof_int_fits z) as Hfit.
  assert (Hpow : 2 ^ (8 * (getsizeof_int z - 1) - 1) <= 2 ^ (8 * getsizeof_int z - 1))
    by (apply Z.pow_le_mono_r; lia).
  assert (He : to_bytes (VInt z) = Ok (to_be 8 INTEGER ++ to_be 8 (getsizeof_int z)
                          ++ to_be (Z.to_nat (getsizeof_int z)) z)).
  { cbn [to_bytes]; unfold int_to_bytes.
    rewrite (uint_to_bytes_ok 8 INTEGER) by (unfold INTEGER; cbn; lia).
    cbn [bind].
    unfold sint_to_bytes.
    replace (Z.to_nat (getsizeof_int z) =? 0)%nat with false
      by (symmetry; apply Nat.eqb_neq; lia).
    rewrite Z2Nat.id by lia.
    replace ((- 2 ^ (8 * getsizeof_int z - 1) <=? z) && (z <? 2 ^ (8 * getsizeof_int z - 1)))
      with true by (symmetry; apply andb_true_iff; split; [apply Z.leb_le | apply Z.ltb_lt]; lia).
    cbn [bind].
    rewrite (uint_to_bytes_ok 8 (getsizeof_int z)) by (split; [lia | exact Hw]).
    reflexivity. }
  split; [exact He |].
  split; [exact (from_bytes_to_bytes (VInt z) _ eq_refl He) |].
  split; [exact H28 |].
  unfold sint_fits; apply andb_true_iff; split; [apply Z.leb_le | apply Z.ltb_lt]; lia.
Qed.

Lemma int_encoding_width_witness :
  getsizeof_int 1 < 2 ^ 64 /\
  to_bytes (VInt 1) = Ok (to_be 8 INTEGER ++ to_be 8 28 ++ to_be 28 1).
Proof.
  assert (H : getsizeof_int 1 < 2 ^ 64) by (vm_compute; reflexivity).
  split; [exact H |].
  exact (proj1 (int_encoding_width 1 H)).
Defined.

(** C2 counterexample: [1] fits in one byte, and is framed with 28. *)
Lemma int_one_framed_with_28_bytes :
  min_width 1 = 1 /\
  to_bytes (VInt 1) = Ok (to_be 8 INTEGER ++ to_be 8 28 ++ to_be 28 1).
Proof. split; vm_compute; reflexivity. Qed.

Lemma takeZ_all {A} (n : Z) (l : list A) : Z.of_nat (length l) <= n -> takeZ n l = l.
Proof.
  revert n; induction l as [| x t IH]; intros n Hn; cbn [takeZ]; [reflexivity |].
  cbn [length] in Hn.
  destruct (Z.leb_spec n 0); [lia |].
  rewrite IH by lia; reflexivity.
Qed.

Lemma serializer_unknown (t : Z) :
  ~ (1 <= t <= 9) -> serializer_from_bytes t = Err RuntimeError.
Proof.
  intros H; unfold serializer_from_bytes, LIST, DICT, STRING, INTEGER, FLOAT, BOOLEAN,
    PAYLOAD, WORLD_STATE, NONE.
  repeat rewrite (proj2 (Z.eqb_neq _ _)) by lia.
  reflexivity.
Qed.

(** The body of a string or int record that claims [n >= len(s)] bytes
    is the rest [s] of the input. *)
Lemma overrun_body (tag n : Z) (s : bytes) :
  0 <= tag < 2 ^ 64 -> Z.of_nat (length s) <= n < 2 ^ 64 ->
  read_u64 (to_be 8 tag ++ to_be 8 n ++ s) 0 = tag /\
  read_u64 (to_be 8 tag ++ to_be 8 n ++ s) 8 = n /\
  slice (to_be 8 tag ++ to_be 8 n ++ s) 16 (16 + n) = s.
Proof.
  intros Ht Hn.
  split; [apply (read_u64_app [] (to_be 8 n ++ s) tag 0); [reflexivity | exact Ht] |].
  split; [apply (read_u64_app2 [] s tag n 8); [reflexivity | lia] |].
  unfold slice; rewrite app_assoc.
  replace 16 with (Z.of_nat (length (to_be 8 tag ++ to_be 8 n)))
    by (rewrite length_app, !to_be_length; reflexivity).
  rewrite skipZ_app, takeZ_all by lia; reflexivity.
Qed.

(** A buffer whose first record is a string (resp. int) record with
    length field [n] and body [s] decodes to that string (resp. int). *)
Lemma from_bytes_string_record (B s : bytes) (n : Z) (cs : list Z) :
  read_u64 B 0 = STRING -> read_u64 B 8 = n -> slice B 16 (16 + n) = s ->
  utf8_decode s = Some cs -> from_bytes B = Ok (VStr cs).
Proof.
  intros H0 H8 Hsl Hs.
  unfold from_bytes; cbn [_from_bytes]; rewrite H0.
  replace (serializer_from_bytes STRING) with (Ok OT_STRING) by reflexivity; cbn [bind].
  unfold string_from_bytes.
  replace (0 + 8) with 8 by reflexivity; rewrite H8.
  replace (8 + 8) with 16 by reflexivity.
  rewrite Hsl, Hs; reflexivity.
Qed.

Lemma from_bytes_int_record (B s : bytes) (n : Z) :
  read_u64 B 0 = INTEGER -> read_u64 B 8 = n -> slice B 16 (16 + n) = s ->
  from_bytes B = Ok (VInt (be_sint s)).
Proof.
  intros H0 H8 Hsl.
  unfold from_bytes; cbn [_from_bytes]; rewrite H0.
  replace (serializer_from_bytes INTEGER) with (Ok OT_INTEGER) by reflexivity; cbn [bind].
  unfold int_from_bytes.
  replace (0 + 8) with 8 by reflexivity; rewrite H8.
  replace (8 + 8) with 16 by reflexivity.
  rewrite Hsl; reflexivity.
Qed.

(** C7. A tag outside [1..9] (read as 0 past the end of the input) makes
    [from_bytes] fail with [RuntimeError]. A string or int record whose
    length prefix claims more bytes than remain is not an error: the
    reader takes the bytes that remain. Every encoding of a well-formed
    value decodes. *)
Theorem decode_failure_modes :
  (forall b, ~ (1 <= read_u64 b 0 <= 9) -> from_bytes b = Err RuntimeError) /\
  (forall s n cs, utf8_decode s = Some cs -> Z.of_nat (length s) <= n < 2 ^ 64 ->
     from_bytes (to_be 8 STRING ++ to_be 8 n ++ s) = Ok (VStr cs)) /\
  (forall s n, Z.of_nat (length s) <= n < 2 ^ 64 ->
     from_bytes (to_be 8 INTEGER ++ to_be 8 n ++ s) = Ok (VInt (be_sint s))) /\
  (forall v e, wf_b v = true -> to_bytes v = Ok e -> exists v', from_bytes e = Ok v').
Proof.
  split; [| split; [| split]].
  - intros b Hb; unfold from_bytes; cbn [_from_bytes].
    rewrite serializer_unknown by exact Hb; reflexivity.
  - intros s n cs Hs Hn.
    destruct (overrun_body STRING n s ltac:(unfold STRING; lia) Hn) as [H0 [H8 Hsl]].
    exact (from_bytes_string_record _ _ _ _ H0 H8 Hsl Hs).
  - intros s n Hn.
    destruct (overrun_body INTEGER n s ltac:(unfold INTEGER; lia) Hn) as [H0 [H8 Hsl]].
    exact (from_bytes_int_record _ _ _ H0 H8 Hsl).
  - intros v e Hwf He; eexists; exact (from_bytes_to_bytes v e Hwf He).
Qed.

(** C7 counterexample: the encoding of "ab" without its last byte decodes
    to "a". *)
Lemma truncated_string_decodes :
  from_bytes (removelast (encoded (VStr (ascii_str "ab")))) = Ok (VStr (ascii_str "a")).
Proof. vm_compute. reflexivity. Qed.

(* ------------------------------------------------------------------ *)
(** ** Further properties of the codec *)

(** X2. [from_bytes] reads one value and ignores whatever follows it: an
    encoding followed by any bytes decodes as the encoding alone. *)
Theorem from_bytes_ignores_trailing (v : value) (e rest : bytes) :
  wf_b v = true -> to_bytes v = Ok e -> from_bytes (e ++ rest) = Ok (false_bools v).
Proof.
  intros Hwf He. unfold from_bytes.
  destruct (to_bytes_size v e He) as [Hs _].
  assert (Hf : (vsize v <= S (length (e ++ rest)))%nat) by (rewrite length_app; lia).
  rewrite (from_bytes_to_bytes_at v (e ++ rest) [] e rest (S (length (e ++ rest))) 0
             eq_refl eq_refl Hwf He Hf).
  reflexivity.
Qed.

Lemma from_bytes_ignores_trailing_witness :
  (wf_b (VList [VInt 7; VNone]) = true /\
   to_bytes (VList [VInt 7; VNone]) = Ok (encoded (VList [VInt 7; VNone]))) /\
  from_bytes (encoded (VList [VInt 7; VNone]) ++ [Byte.x00; Byte.x01])
  = Ok (VList [VInt 7; VNone]).
Proof.
  assert (H1 : wf_b (VList [VInt 7; VNone]) = true) by reflexivity.
  assert (H2 : to_bytes (VList [VInt 7; VNone]) = Ok (encoded (VList [VInt 7; VNone])))
    by (vm_compute; reflexivity).
  split; [split; assumption |].
  exact (from_bytes_ignores_trailing _ _ [Byte.x00; Byte.x01] H1 H2).
Defined.

Lemma utf8_encode_cp_err (cp : Z) (e : exn) :
  utf8_encode_cp cp = Err e -> e = UnicodeEncodeError.
Proof.
  unfold utf8_encode_cp; intros H.
  repeat match type of H with context [if ?c then _ else _] => destruct c end;
    congruence.
Qed.

Lemma utf8_encode_cp_bad (cp : Z) :
  cp_ok cp = false -> utf8_encode_cp cp = Err UnicodeEncodeError.
Proof.
  intros H. unfold utf8_encode_cp.
  destruct (Z.ltb_spec cp 0); [reflexivity |].
  destruct (Z.ltb_spec 0x10FFFF cp); [reflexivity |]. cbn [orb].
  unfold cp_ok in H.
  rewrite (proj2 (Z.leb_le 0 cp)), (proj2 (Z.leb_le cp 0x10FFFF)) in H by lia.
  cbn [andb] in H. apply negb_false_iff, andb_true_iff in H as [Ha Hb].
  apply Z.leb_le in Ha. apply Z.leb_le in Hb.
  rewrite (proj2 (Z.ltb_ge cp 0x80)), (proj2 (Z.ltb_ge cp 0x800)) by lia.
  rewrite (proj2 (Z.ltb_lt cp 0x10000)) by lia.
  rewrite (proj2 (Z.leb_le 0xD800 cp)), (proj2 (Z.leb_le cp 0xDFFF)) by lia.
  reflexivity.
Qed.

Lemma utf8_encode_cp_ok (cp : Z) :
  cp_ok cp = true -> exists b, utf8_encode_cp cp = Ok b /\ (length b <= 4)%nat.
Proof.
  intros H. unfold cp_ok in H.
  apply andb_true_iff in H as [H H3]. apply andb_true_iff in H as [H1 H2].
  apply Z.leb_le in H1. apply Z.leb_le in H2. apply negb_true_iff in H3.
  unfold utf8_encode_cp.
  rewrite (proj2 (Z.ltb_ge cp 0)), (proj2 (Z.ltb_ge 0x10FFFF cp)) by lia. cbn [orb].
  destruct (cp <? 0x80); [eexists; split; [reflexivity | cbn; lia] |].
  destruct (cp <? 0x800); [eexists; split; [reflexivity | cbn; lia] |].
  destruct (cp <? 0x10000); [rewrite H3 |]; eexists; (split; [reflexivity | cbn; lia]).
Qed.

Lemma utf8_encode_bad (s : list Z) (cp : Z) :
  In cp s -> cp_ok cp = false -> utf8_encode s = Err UnicodeEncodeError.
Proof.
  induction s as [|c t IH]; intros Hin Hb; [contradiction |].
  cbn [utf8_encode]. destruct Hin as [<- | Hin].
  - rewrite utf8_encode_cp_bad by exact Hb. reflexivity.
  - destruct (utf8_encode_cp c) as [b | e] eqn:Ec; cbn [bind].
    + rewrite IH by assumption. reflexivity.
    + rewrite (utf8_encode_cp_err c e Ec). reflexivity.
Qed.

Lemma utf8_encode_ok (s : list Z) :
  forallb cp_ok s = true ->
  exists b, utf8_encode s = Ok b /\ (length b <= 4 * length s)%nat.
Proof.
  induction s as [|c t IH]; intros H; [exists []; split; [reflexivity | cbn; lia] |].
  cbn [forallb] in H. apply andb_true_iff in H as [H1 H2].
  destruct (utf8_encode_cp_ok c H1) as [b [Eb Lb]].
  destruct (IH H2) as [r [Er Lr]].
  exists (b ++ r). cbn [utf8_encode]. rewrite Eb, Er. cbn [bind].
  split; [reflexivity | rewrite length_app; cbn [length]; lia].
Qed.

(** X3. [to_bytes] of a [str] raises [UnicodeEncodeError] when a code
    point is a surrogate or out of range; otherwise (and when the UTF-8
    length fits the 8-byte header) it succeeds and decodes back. *)
Theorem string_encoding_errors (s : list Z) :
  ((exists cp, In cp s /\ cp_ok cp = false) -> to_bytes (VStr s) = Err UnicodeEncodeError) /\
  (forallb cp_ok s = true -> 4 * Z.of_nat (length s) < 2 ^ 64 ->
   exists e, to_bytes (VStr s) = Ok e /\ from_bytes e = Ok (VStr s)).
Proof.
  split.
  - intros [cp [Hin Hb]]. cbn [to_bytes]. unfold string_to_bytes.
    rewrite (utf8_encode_bad s cp Hin Hb). reflexivity.
  - intros H Hl. destruct (utf8_encode_ok s H) as [b [Eb Lb]].
    assert (He : exists e, to_bytes (VStr s) = Ok e).
    { cbn [to_bytes]. unfold string_to_bytes. rewrite Eb. cbn [bind].
      rewrite (uint_to_bytes_ok 8 STRING) by (unfold STRING; cbn; lia). cbn [bind].
      rewrite (uint_to_bytes_ok 8 (Z.of_nat (length b)))
        by (change (8 * Z.of_nat 8) with 64; lia).
      cbn [bind]. eexists; reflexivity. }
    destruct He as [e He]. exists e. split; [exact He |].
    exact (from_bytes_to_bytes (VStr s) e eq_refl He).
Qed.

Lemma takeZ_length {A} (n : Z) (l : list A) : (length (takeZ n l) <= length l)%nat.
Proof.
  revert n; induction l as [|x t IH]; intros n; cbn [takeZ]; [cbn; lia |].
  destruct (n <=? 0); cbn [length]; [lia | specialize (IH (n - 1)); lia].
Qed.

Lemma takeZ_short {A} (n : Z) (l : list A) :
  0 <= n -> Z.of_nat (length (takeZ n l)) = Z.min n (Z.of_nat (length l)).
Proof.
  revert n; induction l as [|x t IH]; intros n Hn; cbn [takeZ]; [cbn; lia |].
  destruct (Z.leb_spec n 0); cbn [length].
  - lia.
  - rewrite Nat2Z.inj_succ, IH by lia. lia.
Qed.

(** A header of type [tag] and length [n] followed by [s]: the body read
    is the first [n] bytes of [s]. *)
Lemma record_body (tag n : Z) (s : bytes) :
  0 <= tag < 2 ^ 64 -> 0 <= n < 2 ^ 64 ->
  read_u64 (to_be 8 tag ++ to_be 8 n ++ s) 0 = tag /\
  read_u64 (to_be 8 tag ++ to_be 8 n ++ s) 8 = n /\
  slice (to_be 8 tag ++ to_be 8 n ++ s) 16 (16 + n) = takeZ n s.
Proof.
  intros Ht Hn.
  split; [apply (read_u64_app [] (to_be 8 n ++ s) tag 0); [reflexivity | exact Ht] |].
  split; [apply (read_u64_app2 [] s tag n 8); [reflexivity | lia] |].
  unfold slice; rewrite app_assoc.
  replace 16 with (Z.of_nat (length (to_be 8 tag ++ to_be 8 n)))
    by (rewrite length_app, !to_be_length; reflexivity).
  rewrite skipZ_app. f_equal. lia.
Qed.

Lemma from_bytes_float_record (B : bytes) (n : Z) :
  read_u64 B 0 = FLOAT -> read_u64 B 8 = n ->
  from_bytes B = (if (length (slice B 16 (16 + n)) =? 8)%nat
                  then Ok (VFloat (be_uint (slice B 16 (16 + n))))
                  else Err StructError).
Proof.
  intros H0 H8.
  unfold from_bytes; cbn [_from_bytes]; rewrite H0.
  replace (serializer_from_bytes FLOAT) with (Ok OT_FLOAT) by reflexivity; cbn [bind].
  unfold float_from_bytes.
  replace (0 + 8) with 8 by reflexivity; rewrite H8.
  replace (8 + 8) with 16 by reflexivity.
  destruct (length (slice B 16 (16 + n)) =? 8)%nat; reflexivity.
Qed.

(** X4. A float record is read with [struct.unpack('>d', ...)], which
    needs exactly 8 bytes: with fewer than 8 bytes left, or a length
    field below 8, [from_bytes] raises [struct.error]; with exactly 8
    bytes left, any length field of at least 8 is accepted. *)
Theorem float_record_length (n : Z) (s : bytes) :
  0 <= n < 2 ^ 64 ->
  ((length s < 8)%nat -> from_bytes (to_be 8 FLOAT ++ to_be 8 n ++ s) = Err StructError) /\
  (n < 8 -> from_bytes (to_be 8 FLOAT ++ to_be 8 n ++ s) = Err StructError) /\
  ((length s = 8)%nat -> 8 <= n ->
   from_bytes (to_be 8 FLOAT ++ to_be 8 n ++ s) = Ok (VFloat (be_uint s))).
Proof.
  intros Hn.
  destruct (record_body FLOAT n s ltac:(unfold FLOAT; lia) Hn) as [H0 [H8 Hsl]].
  rewrite (from_bytes_float_record _ n H0 H8), Hsl.
  split; [| split].
  - intros Hs. pose proof (takeZ_length n s).
    destruct (Nat.eqb_spec (length (takeZ n s)) 8); [lia | reflexivity].
  - intros Hs. pose proof (takeZ_short n s ltac:(lia)).
    destruct (Nat.eqb_spec (length (takeZ n s)) 8); [lia | reflexivity].
  - intros Hs Hn8. rewrite takeZ_all by lia. rewrite Hs. reflexivity.
Qed.

Lemma float_record_length_witness :
  0 <= 9 < 2 ^ 64 /\
  from_bytes (to_be 8 FLOAT ++ to_be 8 9 ++ to_be 8 4607182418800017408)
  = Ok (VFloat (be_uint (to_be 8 4607182418800017408))).
Proof.
  assert (H : 0 <= 9 < 2 ^ 64) by lia.
  split; [exact H |].
  exact (proj2 (proj2 (float_record_length 9 (to_be 8 4607182418800017408) H))
           (to_be_length 8 _) ltac:(lia)).
Defined.

Lemma dict_items_to_bytes_app (kvs1 kvs2 : list (value * value)) (items : bytes) :
  dict_items_to_bytes to_bytes (kvs1 ++ kvs2) = Ok items ->
  exists items1 items2, items = items1 ++ items2 /\
    dict_items_to_bytes to_bytes kvs1 = Ok items1 /\
    dict_items_to_bytes to_bytes kvs2 = Ok items2.
Proof.
  revert items; induction kvs1 as [| [k x] t IH]; intros items H.
  - exists [], items. split; [reflexivity | split; [reflexivity | exact H]].
  - cbn [app dict_items_to_bytes] in H. inv_bind H. injection H as <-.
    destruct (IH _ E1) as [i1 [i2 [-> [H1 H2]]]].
    exists (r ++ r0 ++ i1), i2.
    split; [rewrite <- !app_assoc; reflexivity |].
    split; [cbn [dict_items_to_bytes]; rewrite E, E0, H1; reflexivity | exact H2].
Qed.

Lemma dict_items_bounds (kvs : list (value * value)) (items : bytes) :
  dict_items_to_bytes to_bytes kvs = Ok items ->
  (16 * length kvs <= length items)%nat /\
  (forall kv, In kv kvs -> (vsize (fst kv) <= length items /\ vsize (snd kv) <= length items)%nat).
Proof.
  revert items; induction kvs as [| [k x] t IH]; intros items H.
  - cbn. split; [lia | intros _ []].
  - cbn [dict_items_to_bytes] in H. inv_bind H. injection H as <-.
    destruct (to_bytes_size k r E) as [Sk Lk].
    destruct (to_bytes_size x r0 E0) as [Sx Lx].
    destruct (IH _ E1) as [L Hs].
    rewrite !length_app. cbn [length].
    split; [lia |].
    intros kv [<- | Hkv]; cbn [fst snd]; [lia |].
    destruct (Hs kv Hkv). lia.
Qed.

(** The loop of [dict_from_bytes] over entries with hashable keys: each
    one is read and stored, and the loop goes on after them. *)
Lemma dict_loop_prefix (kvs : list (value * value)) :
  forall (B pre items rest : bytes) (f g : nat) (i n : Z) (out : list (value * value)),
  B = pre ++ items ++ rest -> i = Z.of_nat (length pre) ->
  forallb (fun '(k, x) => wf_b k && wf_b x) kvs = true ->
  forallb (fun kv => hashable (fst kv)) kvs = true ->
  dict_items_to_bytes to_bytes kvs = Ok items ->
  (forall kv, In kv kvs -> (vsize (fst kv) <= f /\ vsize (snd kv) <= f)%nat) ->
  (length kvs <= g)%nat -> Z.of_nat (length kvs) <= n ->
  exists out',
    dict_from_bytes_loop (_from_bytes f B) g n out i
    = dict_from_bytes_loop (_from_bytes f B) (g - length kvs) (n - Z.of_nat (length kvs)) out'
        (i + Z.of_nat (length items)).
Proof.
  induction kvs as [| [k x] t IH];
    intros B pre items rest f g i n out HB Hi Hwf Hh He Hs Hg Hn.
  - cbn in He. injection He as <-. exists out. cbn [length].
    rewrite Nat.sub_0_r, Z.sub_0_r, Z.add_0_r. reflexivity.
  - cbn [dict_items_to_bytes] in He. inv_bind He. injection He as <-.
    rename r into kb, r0 into xb, r1 into r.
    cbn [forallb] in Hwf, Hh.
    apply andb_true_iff in Hwf as [Hw1 Hw2]. apply andb_true_iff in Hw1 as [Hwk Hwx].
    apply andb_true_iff in Hh as [Hhk Hh]. cbn [fst] in Hhk.
    destruct (Hs (k, x) (or_introl eq_refl)) as [Hsk Hsx]. cbn [fst snd] in Hsk, Hsx.
    cbn [length] in Hg, Hn.
    destruct g as [| g]; [lia |].
    cbn [dict_from_bytes_loop].
    destruct (Z.leb_spec n 0); [lia |].
    rewrite (from_bytes_to_bytes_at k B pre kb (xb ++ r ++ rest) f i) by
      (try rewrite HB, <- !app_assoc; auto with datatypes).
    cbn [bind].
    rewrite (from_bytes_to_bytes_at x B (pre ++ kb) xb (r ++ rest) f
               (i + Z.of_nat (length kb))) by
      (try rewrite HB, <- !app_assoc; try rewrite length_app; auto with datatypes; lia).
    cbn [bind]. unfold dict_setitem at 1. rewrite hashable_false_bools, Hhk. cbn [bind].
    destruct (IH B (pre ++ kb ++ xb) r rest f g
                (i + Z.of_nat (length kb) + Z.of_nat (length xb)) (n - 1)
                (dict_update out (false_bools k) (false_bools x)))
      as [out' Heq].
    + rewrite HB, <- !app_assoc. reflexivity.
    + rewrite !length_app. lia.
    + exact Hw2.
    + exact Hh.
    + exact E1.
    + intros kv Hkv. apply Hs. right. exact Hkv.
    + lia.
    + lia.
    + exists out'. rewrite Heq. cbn [length].
      replace (S g - S (length t))%nat with (g - length t)%nat by lia.
      replace (n - 1 - Z.of_nat (length t)) with (n - Z.of_nat (S (length t))) by lia.
      rewrite !length_app. f_equal. lia.
Qed.

Lemma from_bytes_dict_loop (B : bytes) (n : Z) :
  read_u64 B 0 = DICT -> read_u64 B 8 = n ->
  from_bytes B = match dict_from_bytes_loop (_from_bytes (length B) B) (length B) n [] 16 with
                 | Ok (out, _) => Ok (VDict out)
                 | Err e => Err e
                 end.
Proof.
  intros H0 H8. unfold from_bytes. cbn [_from_bytes]. rewrite H0.
  replace (serializer_from_bytes DICT) with (Ok OT_DICT) by reflexivity; cbn [bind].
  replace (0 + 8) with 8 by reflexivity; rewrite H8.
  replace (8 + 8) with 16 by reflexivity.
  destruct (dict_from_bytes_loop _ _ _ _ _) as [[out j] | e]; reflexivity.
Qed.

(** X5. In a [dict] record of [from_bytes], an entry whose key decodes to
    a [list], [dict], [Payload] or [WorldState] makes [from_bytes] raise
    [TypeError] ([out[key] = value] with an unhashable key) once the
    entries before it, with hashable keys, have been read: whatever the
    count field (as long as it reaches that entry) and whatever follows. *)
Theorem dict_record_unhashable_key (kvs1 kvs2 : list (value * value)) (k x : value)
  (items rest : bytes) (n : Z) :
  forallb (fun '(k, x) => wf_b k && wf_b x) (kvs1 ++ (k, x) :: kvs2) = true ->
  forallb (fun kv => hashable (fst kv)) kvs1 = true ->
  hashable k = false ->
  dict_items_to_bytes to_bytes (kvs1 ++ (k, x) :: kvs2) = Ok items ->
  Z.of_nat (length kvs1) < n < 2 ^ 64 ->
  from_bytes (to_be 8 DICT ++ to_be 8 n ++ items ++ rest) = Err TypeError.
Proof.
  intros Hwf Hh Hk He Hn.
  destruct (dict_items_bounds _ _ He) as [L Hs].
  apply dict_items_to_bytes_app in He as [items1 [items2 [-> [He1 He2]]]].
  cbn [dict_items_to_bytes] in He2. inv_bind He2. injection He2 as <-.
  rename r into kb, r0 into xb, r1 into items3.
  rewrite forallb_app in Hwf. apply andb_true_iff in Hwf as [Hwf1 Hwf2].
  cbn [forallb] in Hwf2. apply andb_true_iff in Hwf2 as [Hw _].
  apply andb_true_iff in Hw as [Hwk Hwx].
  set (pre := to_be 8 DICT ++ to_be 8 n).
  set (B := pre ++ (items1 ++ kb ++ xb ++ items3) ++ rest).
  assert (HB : to_be 8 DICT ++ to_be 8 n ++ (items1 ++ kb ++ xb ++ items3) ++ rest = B)
    by (unfold B, pre; rewrite <- app_assoc; reflexivity).
  assert (Lp : length pre = 16%nat) by reflexivity.
  rewrite HB.
  assert (LB : (length (items1 ++ kb ++ xb ++ items3) + 16 <= length B)%nat)
    by (unfold B; rewrite !length_app, Lp; lia).
  rewrite (from_bytes_dict_loop B n).
  2:{ exact (read_u64_app [] _ DICT 0 eq_refl ltac:(unfold DICT; lia)). }
  2:{ exact (read_u64_app2 [] _ DICT n 8 eq_refl ltac:(lia)). }
  rewrite length_app in L. cbn [length] in L.
  destruct (dict_loop_prefix kvs1 B pre items1 (kb ++ xb ++ items3 ++ rest) (length B)
              (length B) 16 n [])
    as [out' Heq].
  - unfold B. rewrite <- !app_assoc. reflexivity.
  - rewrite Lp. reflexivity.
  - exact Hwf1.
  - exact Hh.
  - exact He1.
  - intros kv Hkv. destruct (Hs kv (in_or_app _ _ _ (or_introl Hkv))). lia.
  - lia.
  - lia.
  - rewrite Heq.
    destruct (length B - length kvs1)%nat as [| g] eqn:Eg; [lia |].
    cbn [dict_from_bytes_loop].
    destruct (Z.leb_spec (n - Z.of_nat (length kvs1)) 0); [lia |].
    destruct (Hs (k, x) (in_or_app kvs1 ((k, x) :: kvs2) (k, x) (or_intror (or_introl eq_refl)))) as [Sk Sx].
    cbn [fst snd] in Sk, Sx.
    rewrite (from_bytes_to_bytes_at k B (pre ++ items1) kb (xb ++ items3 ++ rest) (length B)
               (16 + Z.of_nat (length items1))) by
      (try (unfold B; rewrite <- !app_assoc; reflexivity);
       try (rewrite length_app, Lp; lia); auto; lia).
    cbn [bind].
    rewrite (from_bytes_to_bytes_at x B (pre ++ items1 ++ kb) xb (items3 ++ rest) (length B)
               (16 + Z.of_nat (length items1) + Z.of_nat (length kb))) by
      (try (unfold B; rewrite <- !app_assoc; reflexivity);
       try (rewrite !length_app, Lp; lia); auto; lia).
    cbn [bind]. unfold dict_setitem. rewrite hashable_false_bools, Hk. reflexivity.
Qed.

Lemma dict_record_unhashable_key_witness :
  from_bytes (to_be 8 DICT ++ to_be 8 3 ++
              (encoded (VInt 1) ++ encoded VNone ++ encoded (VList []) ++ encoded VNone) ++
              [Byte.x00])
  = Err TypeError.
Proof.
  assert (H1 : forallb (fun '(k, x) => wf_b k && wf_b x)
                 ([(VInt 1, VNone)] ++ (VList [], VNone) :: []) = true) by reflexivity.
  assert (H2 : forallb (fun kv => hashable (fst kv)) [(VInt 1, VNone)] = true) by reflexivity.
  assert (H3 : hashable (VList []) = false) by reflexivity.
  assert (H4 : dict_items_to_bytes to_bytes ([(VInt 1, VNone)] ++ (VList [], VNone) :: [])
               = Ok (encoded (VInt 1) ++ encoded VNone ++ encoded (VList []) ++ encoded VNone))
    by (vm_compute; reflexivity).
  exact (dict_record_unhashable_key [(VInt 1, VNone)] [] (VList []) VNone _ [Byte.x00] 3
           H1 H2 H3 H4 ltac:(cbn [length]; lia)).
Defined.

(* ------------------------------------------------------------------ *)
(** ** Further properties of the gossip publisher *)

(** Split the successful binds of an hypothesis [m >>= k = Ok r], the
    results of type [_ * _] into their components. *)
Ltac split_binds H :=
  repeat match type of H with
  | bind (Ok _) _ = _ => cbn [bind] in H
  | bind (Err _) _ = _ => cbn [bind] in H; discriminate H
  | bind ?m _ = _ =>
      let E := fresh "E" in
      lazymatch type of m with
      | result (_ * _) => destruct m as [[? ?] | ?] eqn:E
      | _ => destruct m as [? | ?] eqn:E
      end
  end.

Lemma random_choice_list_in (xs : list value) (ds : list Z) (a : value) (ds' : list Z) :
  random_choice (VList xs) ds = Ok (a, ds') -> In a xs /\ ds' = tl ds.
Proof.
  unfold random_choice; cbn [py_len bind].
  destruct (Z.of_nat (length xs) =? 0); [discriminate |].
  destruct ds as [| d t]; cbn [randbelow].
  - unfold py_getitem. cbn [bind].
    destruct (seq_index (Z.of_nat (length xs)) (VInt 0)) as [z | e]; cbn [bind];
      [| discriminate].
    destruct (nth_error xs (Z.to_nat z)) as [x |] eqn:En; cbn [bind]; [| discriminate].
    intros H; injection H as <- <-. split; [eapply nth_error_In; exact En | reflexivity].
  - unfold py_getitem. cbn [bind].
    destruct (seq_index (Z.of_nat (length xs)) (VInt (d mod Z.of_nat (length xs))))
      as [z | e]; cbn [bind]; [| discriminate].
    destruct (nth_error xs (Z.to_nat z)) as [x |] eqn:En; cbn [bind]; [| discriminate].
    intros H; injection H as <- <-. split; [eapply nth_error_In; exact En | reflexivity].
Qed.

Lemma peer_slots_in (entries : list (list Z * bytes)) (pss : list (list value)) (q : list Z) :
  In q (peer_slots entries pss) -> exists b, In (q, b) entries.
Proof.
  revert pss; induction entries as [| [p b] t IH]; intros pss Hin; [destruct pss; contradiction |].
  destruct pss as [| ps u]; [contradiction |].
  cbn [peer_slots] in Hin. apply in_app_or in Hin as [Hin | Hin].
  - apply repeat_spec in Hin. subst q. exists b. left. reflexivity.
  - destruct (IH u Hin) as [b' Hb']. exists b'. right. exact Hb'.
Qed.

Section GossipMore.
Variable py_str_other : value -> list Z.
Variable md5_hexdigest : bytes -> list Z.
Variable get_name_from_peer_id : list Z -> list Z.

Lemma gossip_of_payload_fields (peer : list Z) (rnd ts : Z) (p : value) (ds : list Z)
  (g : gossip) (ds' : list Z) :
  gossip_of_payload py_str_other md5_hexdigest get_name_from_peer_id peer rnd ts p ds
  = Ok (g, ds') ->
  g_nodeId g = peer /\ g_node g = get_name_from_peer_id peer.
Proof.
  unfold gossip_of_payload. intros H. split_binds H.
  injection H as <- _. split; reflexivity.
Qed.

Lemma gossip_of_payloads_shape (peer : list Z) (rnd : Z) (clk : nat -> Z)
  (ps : list value) (acc : list gossip) (ds : list Z) (cands : list gossip) (ds' : list Z) :
  gossip_of_payloads py_str_other md5_hexdigest get_name_from_peer_id peer rnd clk ps acc ds
  = Ok (cands, ds') ->
  exists new, cands = acc ++ new /\ map g_nodeId new = repeat peer (length ps) /\
    Forall (fun g => g_node g = get_name_from_peer_id (g_nodeId g)) new.
Proof.
  revert acc ds; induction ps as [| p t IH]; intros acc ds H; cbn [gossip_of_payloads] in H.
  - injection H as <- <-. exists []. rewrite app_nil_r. split; [reflexivity | split; constructor].
  - destruct (gossip_of_payload py_str_other md5_hexdigest get_name_from_peer_id peer rnd
                (clk (length acc)) p ds) as [[g ds1] | e] eqn:E; cbn [bind] in H;
      [| discriminate].
    destruct (IH _ _ H) as [new [-> [H1 H2]]].
    destruct (gossip_of_payload_fields _ _ _ _ _ _ _ E) as [F1 F2].
    exists (g :: new). rewrite <- app_assoc. cbn [app map repeat length].
    rewrite F1, H1. split; [reflexivity | split; [reflexivity |]].
    constructor; [rewrite F1; exact F2 | exact H2].
Qed.

Lemma collect_gossip_shape (rnd : Z) (clk : nat -> Z) (entries : list (list Z * bytes))
  (acc : list gossip) (ds : list Z) (cands : list gossip) (ds' : list Z) :
  collect_gossip py_str_other md5_hexdigest get_name_from_peer_id rnd clk entries acc ds
  = Ok (cands, ds') ->
  exists pss new, Forall2 entry_payloads entries pss /\ cands = acc ++ new /\
    map g_nodeId new = peer_slots entries pss /\
    Forall (fun g => g_node g = get_name_from_peer_id (g_nodeId g)) new.
Proof.
  revert acc ds; induction entries as [| [p b] t IH]; intros acc ds H;
    cbn [collect_gossip] in H.
  - injection H as <- <-. exists [], []. rewrite app_nil_r.
    split; [constructor | split; [reflexivity | split; [reflexivity | constructor]]].
  - destruct (from_bytes b) as [d | e] eqn:Ed; cbn [bind] in H; [| discriminate].
    destruct (py_items d) as [items | e] eqn:Ei; cbn [bind] in H; [| discriminate].
    destruct (flatten_payloads items) as [ps | e] eqn:Ef; cbn [bind] in H; [| discriminate].
    destruct (gossip_of_payloads py_str_other md5_hexdigest get_name_from_peer_id p rnd clk
                ps acc ds) as [[acc1 ds1] | e] eqn:Eg; cbn [bind] in H; [| discriminate].
    destruct (gossip_of_payloads_shape _ _ _ _ _ _ _ _ Eg) as [new1 [-> [H1 H2]]].
    destruct (IH _ _ H) as [pss [new2 [F [-> [H3 H4]]]]].
    exists (ps :: pss), (new1 ++ new2).
    split; [constructor; [exists d, items; auto | exact F] |].
    split; [symmetry; apply app_assoc |].
    split; [rewrite map_app, H1, H3; reflexivity |].
    apply Forall_app; split; assumption.
Qed.

(** X7. When the peer loop of a cycle succeeds, every entry [(p, b)] of
    the round record contributes one candidate per payload of its record,
    in the order of the entries, each with [nodeId] [p] and [node]
    [get_name_from_peer_id(p)]. *)
Theorem collect_gossip_peers (rnd : Z) (clk : nat -> Z) (entries : list (list Z * bytes))
  (ds : list Z) (cands : list gossip) (ds' : list Z) :
  collect_gossip py_str_other md5_hexdigest get_name_from_peer_id rnd clk entries [] ds
  = Ok (cands, ds') ->
  exists pss, Forall2 entry_payloads entries pss /\
    map g_nodeId cands = peer_slots entries pss /\
    Forall (fun g => g_node g = get_name_from_peer_id (g_nodeId g)) cands.
Proof.
  intros H. destruct (collect_gossip_shape _ _ _ _ _ _ _ H) as [pss [new [F [-> [H1 H2]]]]].
  exists pss. split; [exact F | split; assumption].
Qed.

(** X8. A published batch is not empty, holds [min(200, n)] of the [n]
    candidates of the cycle, and each of its entries names a peer of the
    round record with that peer's name. *)
Theorem published_batch_peers (st : pub_state) (env : poll_env) (batch : list gossip) :
  o_published (_poll_once py_str_other md5_hexdigest get_name_from_peer_id st env)
  = Some batch ->
  exists r s entries cands ds,
    get_round_and_stage env = Ok (r, s) /\
    dht_get env (py_str_int r) = Ok (Some entries) /\
    collect_gossip py_str_other md5_hexdigest get_name_from_peer_id r (clock env) entries []
      (draws env) = Ok (cands, ds) /\
    batch <> [] /\ length batch = Nat.min 200 (length cands) /\
    Forall (fun g => (exists b, In (g_nodeId g, b) entries) /\
                     g_node g = get_name_from_peer_id (g_nodeId g)) batch.
Proof.
  unfold _poll_once.
  destruct (get_round_and_stage env) as [[r s] | e] eqn:E1; [| discriminate].
  cbn [current_round].
  destruct (dht_get env (py_str_int r)) as [[entries |] | e] eqn:E2; try discriminate.
  destruct (collect_gossip py_str_other md5_hexdigest get_name_from_peer_id r (clock env)
              entries [] (draws env)) as [[cands ds] | e] eqn:E3; [| discriminate].
  cbn [o_published]; unfold publish.
  destruct (firstn 200 (fst (shuffle cands ds))) as [| g gs] eqn:E4; [discriminate |].
  intros H; injection H as <-.
  exists r, s, entries, cands, ds.
  do 3 (split; [first [assumption | reflexivity] |]).
  split; [discriminate |].
  pose proof (shuffle_perm cands ds) as Hp.
  split; [rewrite <- E4, length_firstn, <- (Permutation_length Hp); reflexivity |].
  destruct (collect_gossip_shape _ _ _ _ _ _ _ E3) as [pss [new [_ [Hn [H1 H2]]]]].
  cbn [app] in Hn. subst new.
  apply Forall_forall. intros x Hx. rewrite <- E4 in Hx.
  assert (Hx2 : In x (fst (shuffle cands ds)))
    by (rewrite <- (firstn_skipn 200 (fst (shuffle cands ds))); apply in_or_app; left; exact Hx).
  clear Hx; rename Hx2 into Hx. apply (Permutation_in _ (Permutation_sym Hp)) in Hx.
  split.
  - apply (peer_slots_in entries pss). rewrite <- H1. apply in_map. exact Hx.
  - rewrite Forall_forall in H2. apply H2. exact Hx.
Qed.

(** X9. The message of a payload whose [actions] is a list: with no
    actions it is the question followed by ["..."] and no random draw is
    made; otherwise it is the question, ["..."] and one of the actions,
    chosen with one draw. *)
Theorem gossip_message_action (peer : list Z) (rnd ts : Z) (ws meta : value)
  (xs : list value) (ds : list Z) (g : gossip) (ds' : list Z) :
  gossip_of_payload py_str_other md5_hexdigest get_name_from_peer_id peer rnd ts
    (VPayload ws (VList xs) meta) ds = Ok (g, ds') ->
  exists env question,
    get_environment_states ws = Ok env /\ py_getitem env (VStr s_question) = Ok question /\
    ((xs = [] /\ g_message g = py_str py_str_other question ++ ascii_str "..." /\ ds' = ds) \/
     (exists a, In a xs /\
        g_message g = py_str py_str_other question ++ ascii_str "..." ++ py_str py_str_other a /\
        ds' = tl ds)).
Proof.
  unfold gossip_of_payload; cbn [get_world_state get_actions bind].
  destruct (get_environment_states ws) as [env | e] eqn:Ee; cbn [bind]; [| discriminate].
  destruct (py_getitem env (VStr s_question)) as [question | e] eqn:Eq; cbn [bind];
    [| discriminate].
  intros H. exists env, question. split; [reflexivity | split; [exact Eq |]].
  split_binds H. injection H as <- <-. cbn [g_message].
  destruct xs as [| x xs'].
  - cbn [py_truthy length Nat.eqb negb] in E1. injection E1 as <- <-.
    left.
    split; [reflexivity | split; reflexivity].
  - cbn [py_truthy length Nat.eqb negb] in E1.
    apply random_choice_list_in in E1 as [Hin ->].
    right. eexists; split; [exact Hin | split; reflexivity].
Qed.

Lemma poll_once_fresh (st : pub_state) (env : poll_env) :
  o_state (_poll_once py_str_other md5_hexdigest get_name_from_peer_id st env)
  = match get_round_and_stage env with
    | Ok (r, s) => mk_pub_state r s
    | Err _ => st
    end /\
  o_published (_poll_once py_str_other md5_hexdigest get_name_from_peer_id st env)
  = o_published (_poll_once py_str_other md5_hexdigest get_name_from_peer_id
                   publisher_state_init env) /\
  o_errors (_poll_once py_str_other md5_hexdigest get_name_from_peer_id st env)
  = o_errors (_poll_once py_str_other md5_hexdigest get_name_from_peer_id
                publisher_state_init env).
Proof.
  unfold _poll_once.
  destruct (get_round_and_stage env) as [[r s] | e]; [| split; [| split]; reflexivity].
  split; [| split; reflexivity].
  cbn [current_round].
  destruct (dht_get env (py_str_int r)) as [[entries |] | e]; [| reflexivity | reflexivity].
  destruct (collect_gossip _ _ _ _ _ _ _ _) as [[c d] | e]; reflexivity.
Qed.

(** X10. The batch a cycle of [_poll_loop] hands to [put_gossip] and the
    number of errors it logs depend only on that cycle's observations: they
    are what a freshly created publisher would produce for them (so a cycle
    that sees the same record again publishes it again). The info logs,
    which show the carried round and stage, and [last_polled] are not
    compared. After the cycles the round and stage are those of the last
    cycle whose coordinator answered. *)
Theorem poll_loop_cycles (st : pub_state) (envs : list poll_env) :
  map o_published (snd (_poll_loop py_str_other md5_hexdigest get_name_from_peer_id st envs))
  = map (fun env => o_published (_poll_once py_str_other md5_hexdigest get_name_from_peer_id
                                   publisher_state_init env)) envs /\
  map o_errors (snd (_poll_loop py_str_other md5_hexdigest get_name_from_peer_id st envs))
  = map (fun env => o_errors (_poll_once py_str_other md5_hexdigest get_name_from_peer_id
                                publisher_state_init env)) envs /\
  (forall env,
     fst (_poll_loop py_str_other md5_hexdigest get_name_from_peer_id st (envs ++ [env]))
     = match get_round_and_stage env with
       | Ok (r, s) => mk_pub_state r s
       | Err _ => fst (_poll_loop py_str_other md5_hexdigest get_name_from_peer_id st envs)
       end).
Proof.
  revert st; induction envs as [| e t IH]; intros st.
  - split; [reflexivity | split; [reflexivity |]].
    intros env. cbn [app _poll_loop fst].
    exact (proj1 (poll_once_fresh st env)).
  - destruct (poll_once_fresh st e) as [_ [P1 P2]].
    set (o := _poll_once py_str_other md5_hexdigest get_name_from_peer_id st e) in *.
    destruct (IH (o_state o)) as [IH1 [IH2 IH3]].
    cbn [_poll_loop app]. fold o.
    destruct (_poll_loop py_str_other md5_hexdigest get_name_from_peer_id (o_state o) t)
      as [st1 os] eqn:E.
    cbn [snd map] in *. rewrite IH1, IH2, P1, P2.
    split; [reflexivity | split; [reflexivity |]].
    intros env. specialize (IH3 env).
    destruct (_poll_loop py_str_other md5_hexdigest get_name_from_peer_id (o_state o)
                (t ++ [env])) as [st2 os2].
    cbn [fst] in *. exact IH3.
Qed.

End GossipMore.

Lemma collect_gossip_peers_witness :
  exists cands ds',
    collect_gossip (fun _ => []) (fun _ => []) (fun p => p) 2 (fun _ => 0)
      [(p_local, peer_record c9_payload)] [] [] = Ok (cands, ds') /\
    exists pss, Forall2 entry_payloads [(p_local, peer_record c9_payload)] pss /\
      map g_nodeId cands = peer_slots [(p_local, peer_record c9_payload)] pss /\
      Forall (fun g => g_node g = g_nodeId g) cands.
Proof.
  destruct (collect_gossip (fun _ => []) (fun _ => []) (fun p => p) 2 (fun _ => 0)
              [(p_local, peer_record c9_payload)] [] []) as [[c d] | e] eqn:E.
  - exists c, d. split; [reflexivity |].
    exact (collect_gossip_peers (fun _ => []) (fun _ => []) (fun p => p) 2 (fun _ => 0)
             [(p_local, peer_record c9_payload)] [] c d E).
  - vm_compute in E. discriminate E.
Defined.

Lemma published_batch_peers_witness :
  exists batch,
    o_published (_poll_once (fun _ => []) (fun _ => []) (fun p => p) publisher_state_init
                   (round_env 0 [(p_local, peer_record c9_payload)] (fun _ => 0) []))
    = Some batch /\
    length batch = 1%nat /\
    Forall (fun g => (exists b, In (g_nodeId g, b) [(p_local, peer_record c9_payload)]) /\
                     g_node g = g_nodeId g) batch.
Proof.
  destruct (o_published (_poll_once (fun _ => []) (fun _ => []) (fun p => p)
              publisher_state_init
              (round_env 0 [(p_local, peer_record c9_payload)] (fun _ => 0) [])))
    as [batch |] eqn:E.
  - exists batch. split; [reflexivity |].
    destruct (published_batch_peers (fun _ => []) (fun _ => []) (fun p => p) _ _ batch E)
      as [r [s [entries [cands [ds [E1 [E2 [E3 [_ [Hl HF]]]]]]]]]].
    vm_compute in E1. injection E1 as <- <-.
    vm_compute in E2. injection E2 as <-.
    vm_compute in E3. injection E3 as <- <-.
    split; [exact Hl | exact HF].
  - vm_compute in E. discriminate E.
Defined.

Lemma gossip_message_action_witness :
  exists g ds',
    gossip_of_payload (fun _ => []) (fun _ => []) (fun p => p) p_local 2 0 c9_payload [5]
    = Ok (g, ds') /\
    exists env question,
      get_environment_states (VWorld (VDict [(VStr s_question, VStr (ascii_str "2+2?"));
                    (VStr s_metadata,
                     VDict [(VStr s_source_dataset, VStr (ascii_str "math"))])])
            VNone VNone) = Ok env /\
      py_getitem env (VStr s_question) = Ok question /\ True.
Proof.
  destruct (gossip_of_payload (fun _ => []) (fun _ => []) (fun p => p) p_local 2 0
              c9_payload [5]) as [[g ds'] | e] eqn:E.
  - exists g, ds'. split; [reflexivity |].
    destruct (gossip_message_action (fun _ => []) (fun _ => []) (fun p => p) p_local 2 0
                _ VNone [VStr (ascii_str "4")] [5] g ds' E)
      as [env [question [H1 [H2 _]]]].
    exists env, question. split; [exact H1 | split; [exact H2 | exact I]].
  - vm_compute in E. discriminate E.
Defined.

(** X11. Once a started publisher has been stopped, no sequence of
    [start] and [stop] calls makes it poll or run again: [_poll_thread]
    stays set, so every [start] only logs a warning. *)
Theorem publisher_stop_is_final (p : pub_thread) (ops : list pub_op) :
  poll_thread p = true ->
  start p = mk_pub_thread true (running p) (stop_event p) (S (warnings p)) /\
  (poll_thread (run_ops (stop p) ops) = true /\
   running (run_ops (stop p) ops) = false /\
   polls (run_ops (stop p) ops) = false /\
   warnings (run_ops (stop p) ops)
   = (warnings p + length (filter (fun o => match o with Start => true | Stop => false end) ops))%nat).
Proof.
  intros Hp. split; [unfold start; rewrite Hp; reflexivity |].
  assert (Hs : stop p = mk_pub_thread true false true (warnings p))
    by (unfold stop; rewrite Hp; reflexivity).
  rewrite Hs. clear Hs.
  generalize (warnings p) as w.
  induction ops as [| o t IH]; intros w; cbn [run_ops filter length].
  - cbn. split; [reflexivity | split; [reflexivity | split; [reflexivity | lia]]].
  - destruct o; cbn [start stop poll_thread running stop_event warnings negb].
    + destruct (IH (S w)) as [H1 [H2 [H3 H4]]].
      split; [exact H1 | split; [exact H2 | split; [exact H3 |]]]. rewrite H4. cbn [length]. lia.
    + exact (IH w).
Qed.

Lemma publisher_stop_is_final_witness :
  poll_thread (start pub_thread_init) = true /\
  polls (run_ops (stop (start pub_thread_init)) [Start; Stop; Start]) = false.
Proof.
  assert (H : poll_thread (start pub_thread_init) = true) by reflexivity.
  split; [exact H |].
  exact (proj1 (proj2 (proj2 (proj2 (publisher_stop_is_final _ [Start; Stop; Start] H))))).
Defined.

(* ------------------------------------------------------------------ *)
(** ** Further properties of the reward submission *)

Lemma Qgtb_true (x y : Q) : Qgtb x y = true -> (y < x)%Q.
Proof.
  unfold Qgtb; intros H. apply Qnot_le_lt. intros Hle.
  apply Qle_bool_iff in Hle. rewrite Hle in H. discriminate H.
Qed.

Lemma Qgtb_false (x y : Q) : Qgtb x y = false -> (x <= y)%Q.
Proof.
  unfold Qgtb; intros H. apply Qle_bool_iff. destruct (Qle_bool x y); [reflexivity | discriminate H].
Qed.

Lemma Qgtb_false_of_le (x y : Q) : (x <= y)%Q -> Qgtb x y = false.
Proof. intros H. unfold Qgtb. apply Qle_bool_iff in H. rewrite H. reflexivity. Qed.

Lemma max_by_signal_loop (rest : list (list Z * Q)) :
  forall (done pre post : list (list Z * Q)) (best : list Z * Q),
  done = pre ++ best :: post ->
  Forall (fun x => snd x < snd best)%Q pre ->
  Forall (fun x => snd x <= snd best)%Q post ->
  exists pre' post',
    done ++ rest
    = pre' ++ fold_left (fun best x => if Qgtb (snd x) (snd best) then x else best) rest best
      :: post' /\
    Forall (fun x => snd x <
              snd (fold_left (fun best x => if Qgtb (snd x) (snd best) then x else best)
                     rest best))%Q pre' /\
    Forall (fun x => snd x <=
              snd (fold_left (fun best x => if Qgtb (snd x) (snd best) then x else best)
                     rest best))%Q post'.
Proof.
  induction rest as [| x t IH]; intros done pre post best Hd Hpre Hpost.
  - exists pre, post. rewrite app_nil_r. auto.
  - cbn [fold_left].
    replace (done ++ x :: t) with ((done ++ [x]) ++ t) by (rewrite <- app_assoc; reflexivity).
    destruct (Qgtb (snd x) (snd best)) eqn:Eg.
    + apply Qgtb_true in Eg.
      apply (IH (done ++ [x]) done [] x eq_refl); [| constructor].
      subst done. apply Forall_app; split.
      * refine (Forall_impl _ _ Hpre). intros a Ha. exact (Qlt_trans _ _ _ Ha Eg).
      * constructor; [exact Eg |].
        refine (Forall_impl _ _ Hpost). intros a Ha. exact (Qle_lt_trans _ _ _ Ha Eg).
    + apply Qgtb_false in Eg.
      apply (IH (done ++ [x]) pre (post ++ [x]) best); [| exact Hpre |].
      * subst done. rewrite <- app_assoc. reflexivity.
      * apply Forall_app; split; [exact Hpost | constructor; [exact Eg | constructor]].
Qed.

Lemma max_by_signal_spec (first : list Z * Q) (rest : list (list Z * Q)) :
  exists pre post,
    first :: rest = pre ++ max_by_signal first rest :: post /\
    Forall (fun x => snd x < snd (max_by_signal first rest))%Q pre /\
    Forall (fun x => snd x <= snd (max_by_signal first rest))%Q post.
Proof.
  exact (max_by_signal_loop rest [first] [] [] first eq_refl (Forall_nil _) (Forall_nil _)).
Qed.

(** X12. The winner [_try_submit_to_chain] submits with [submit_winners]
    is the agent with the greatest signal, the first one among equals; with
    no signals it is the node's own peer id. The round and the peer id are
    those of the manager. *)
Theorem submitted_winner_is_max (st : mstate) (now : Q) (ledger_ok : ledger_call -> bool)
  (signal_by_agent : list (list Z * Q)) (r : Z) (ws : list (list Z)) (p : list Z) :
  In (SubmitWinners r ws p) (snd (_try_submit_to_chain st now ledger_ok signal_by_agent)) ->
  r = state_round st /\ p = peer_id st /\
  exists w, ws = [w] /\
    ((signal_by_agent = [] /\ w = peer_id st) \/
     (exists s pre post, signal_by_agent = pre ++ (w, s) :: post /\
        Forall (fun x => snd x < s)%Q pre /\ Forall (fun x => snd x <= s)%Q post)).
Proof.
  unfold _try_submit_to_chain. intros H.
  destruct (Qgtb _ _); [| contradiction].
  destruct (ledger_ok (SubmitReward _ _ _ _)); cbn [negb snd In] in H;
    [| destruct H as [H | []]; discriminate H].
  assert (H' : SubmitWinners (state_round st)
                 [match signal_by_agent with
                  | [] => peer_id st
                  | kv :: t => fst (max_by_signal kv t)
                  end] (peer_id st) = SubmitWinners r ws p).
  { destruct (ledger_ok _); cbn [negb snd In] in H;
      (destruct H as [H | [H | []]]; [discriminate H | exact H]). }
  clear H. injection H' as <- <- <-.
  split; [reflexivity | split; [reflexivity |]].
  eexists; split; [reflexivity |].
  destruct signal_by_agent as [| kv t]; [left; split; reflexivity | right].
  destruct (max_by_signal_spec kv t) as [pre [post [Heq [H1 H2]]]].
  destruct (max_by_signal kv t) as [w s]. cbn [fst snd] in *.
  exists s, pre, post. split; [exact Heq | split; assumption].
Qed.

Lemma submitted_winner_is_max_witness :
  In (SubmitWinners 3 [ascii_str "b"] p_local)
     (snd (_try_submit_to_chain (mk_mstate 3 0 0 3 false p_local) 10801 (fun _ => true)
             [(ascii_str "a", 1%Q); (ascii_str "b", 3%Q); (ascii_str "c", 3%Q)])) /\
  3 = state_round (mk_mstate 3 0 0 3 false p_local).
Proof.
  assert (H : In (SubmitWinners 3 [ascii_str "b"] p_local)
     (snd (_try_submit_to_chain (mk_mstate 3 0 0 3 false p_local) 10801 (fun _ => true)
             [(ascii_str "a", 1%Q); (ascii_str "b", 3%Q); (ascii_str "c", 3%Q)])))
    by (vm_compute; right; left; reflexivity).
  split; [exact H | exact (proj1 (submitted_winner_is_max _ _ _ _ _ _ _ H))].
Defined.

(** X13. A submission in which both ledger calls return makes exactly
    these two calls and leaves the manager with [batched_signals] [0],
    [time_since_submit] the time of the attempt and [submitted_this_round]
    set; any attempt made within [submit_period] hours after it makes no
    ledger call and changes nothing. *)
Theorem submission_success (st : mstate) (now now' : Q)
  (ledger_ok ledger_ok' : ledger_call -> bool) (sig sig' : list (list Z * Q)) :
  Qgtb ((now - time_since_submit st) / 3600) (submit_period st) = true ->
  (forall c, ledger_ok c = true) ->
  ((now' - now) / 3600 <= submit_period st)%Q ->
  fst (_try_submit_to_chain st now ledger_ok sig)
  = mk_mstate (state_round st) 0 now (submit_period st) true (peer_id st) /\
  snd (_try_submit_to_chain st now ledger_ok sig)
  = [SubmitReward (state_round st) 0 (py_int (batched_signals st)) (peer_id st);
     SubmitWinners (state_round st)
       [match sig with [] => peer_id st | kv :: t => fst (max_by_signal kv t) end]
       (peer_id st)] /\
  _try_submit_to_chain (fst (_try_submit_to_chain st now ledger_ok sig)) now' ledger_ok' sig'
  = (fst (_try_submit_to_chain st now ledger_ok sig), []).
Proof.
  intros Hel Hok Hle.
  assert (E : _try_submit_to_chain st now ledger_ok sig
              = (mk_mstate (state_round st) 0 now (submit_period st) true (peer_id st),
                 [SubmitReward (state_round st) 0 (py_int (batched_signals st)) (peer_id st);
                  SubmitWinners (state_round st)
                    [match sig with [] => peer_id st | kv :: t => fst (max_by_signal kv t) end]
                    (peer_id st)])).
  { unfold _try_submit_to_chain. rewrite Hel, !Hok. reflexivity. }
  rewrite E. cbn [fst snd].
  split; [reflexivity | split; [reflexivity |]].
  unfold _try_submit_to_chain. cbn [time_since_submit submit_period].
  rewrite (Qgtb_false_of_le _ _ Hle). reflexivity.
Qed.

Lemma submission_success_witness :
  _try_submit_to_chain
    (fst (_try_submit_to_chain (mk_mstate 3 5 0 3 false p_local) 10801 (fun _ => true) []))
    21601 (fun _ => true) signals_p1
  = (mk_mstate 3 0 10801 3 true p_local, []).
Proof.
  assert (H1 : Qgtb ((10801 - time_since_submit (mk_mstate 3 5 0 3 false p_local)) / 3600)
                 (submit_period (mk_mstate 3 5 0 3 false p_local)) = true) by reflexivity.
  assert (H2 : ((21601 - 10801) / 3600 <= submit_period (mk_mstate 3 5 0 3 false p_local))%Q)
    by (apply Qle_bool_iff; reflexivity).
  destruct (submission_success (mk_mstate 3 5 0 3 false p_local) 10801 21601
              (fun _ => true) (fun _ => true) [] signals_p1 H1 (fun _ => eq_refl) H2)
    as [Hs [_ Hr]].
  rewrite Hr, Hs. reflexivity.
Defined.

Lemma list_Z_eqb_spec (s t : list Z) : list_Z_eqb s t = true <-> s = t.
Proof.
  revert t; induction s as [| a s IH]; intros [| c t]; cbn [list_Z_eqb];
    try (split; [intros H; discriminate H | intros H; discriminate H]).
  - split; intros _; reflexivity.
  - rewrite andb_true_iff, Z.eqb_eq, IH.
    split; [intros [-> ->]; reflexivity | intros H; injection H as -> ->; split; reflexivity].
Qed.

Lemma dd_add_lookup_none (acc : list (list Z * Q)) (k a : list Z) (x : Q) :
  str_lookup a (dd_add acc k x) = None <->
  str_lookup a acc = None /\ list_Z_eqb k a = false.
Proof.
  induction acc as [| [k' y] t IH]; cbn [dd_add str_lookup].
  - destruct (list_Z_eqb k a) eqn:E.
    + split; [intros H; discriminate H | intros [_ H]; discriminate H].
    + split; [intros _; split; reflexivity | intros _; reflexivity].
  - destruct (list_Z_eqb k' k) eqn:E1.
    + apply list_Z_eqb_spec in E1. subst k'. cbn [str_lookup].
      destruct (list_Z_eqb k a); [| tauto].
      split; [intros H; discriminate H | intros [H _]; discriminate H].
    + cbn [str_lookup]. destruct (list_Z_eqb k' a) eqn:E2.
      * split; [intros H; discriminate H | intros [H _]; discriminate H].
      * exact IH.
Qed.

Lemma add_batches_spec (a k : list Z) (ar : list (Z * list (list Q))) :
  forall acc,
  str_lookup a (fold_left (fun acc '(_, batch_rewards) =>
                             dd_add acc k (batch_total batch_rewards)) ar acc) = None <->
  str_lookup a acc = None /\ (if list_Z_eqb k a then length ar else 0%nat) = 0%nat.
Proof.
  induction ar as [| [b br] t IH]; intros acc; cbn [fold_left length].
  - destruct (list_Z_eqb k a); tauto.
  - rewrite IH, dd_add_lookup_none. destruct (list_Z_eqb k a).
    + split; [intros [[_ H] _]; discriminate H | intros [_ H]; discriminate H].
    + tauto.
Qed.

Lemma add_stage_spec (a : list Z) (rewards : stage_rewards) :
  forall acc,
  str_lookup a (add_stage acc rewards) = None <->
  str_lookup a acc = None /\ stage_batches a rewards = 0%nat.
Proof.
  unfold add_stage, stage_batches.
  induction rewards as [| [k ar] t IH]; intros acc; cbn [fold_left fold_right].
  - tauto.
  - rewrite IH, add_batches_spec.
    split; [intros [[H1 H2] H3]; split; [exact H1 | lia] |
            intros [H1 H2]; split; [split; [exact H1 | lia] | lia]].
Qed.

Lemma total_loop_ok (rewards_at : nat -> result stage_rewards) (R : nat -> stage_rewards)
  (stages : list nat) :
  (forall s, In s stages -> rewards_at s = Ok (R s)) ->
  forall acc, total_loop rewards_at stages acc
              = Ok (fold_left (fun acc s => add_stage acc (R s)) stages acc).
Proof.
  induction stages as [| s t IH]; intros HR acc; cbn [total_loop fold_left]; [reflexivity |].
  rewrite (HR s (or_introl eq_refl)). cbn [bind].
  apply IH. intros s' Hs'. apply HR. right. exact Hs'.
Qed.

Lemma total_loop_err (rewards_at : nat -> result stage_rewards) (stages1 stages2 : list nat)
  (s0 : nat) (e : exn) :
  (forall s, In s stages1 -> exists r, rewards_at s = Ok r) ->
  rewards_at s0 = Err e ->
  forall acc, total_loop rewards_at (stages1 ++ s0 :: stages2) acc = Err e.
Proof.
  intros HR He. induction stages1 as [| s t IH]; intros acc; cbn [app total_loop].
  - rewrite He. reflexivity.
  - destruct (HR s (or_introl eq_refl)) as [r Hr]. rewrite Hr. cbn [bind].
    apply IH. intros s' Hs'. apply HR. right. exact Hs'.
Qed.

Lemma stages_spec (a : list Z) (R : nat -> stage_rewards) (stages : list nat) :
  forall acc,
  str_lookup a (fold_left (fun acc s => add_stage acc (R s)) stages acc) = None <->
  str_lookup a acc = None /\ forall s, In s stages -> stage_batches a (R s) = 0%nat.
Proof.
  induction stages as [| s t IH]; intros acc; cbn [fold_left].
  - split; [intros H; split; [exact H | intros s []] | intros [H _]; exact H].
  - rewrite IH, add_stage_spec. split.
    + intros [[H1 H2] H3]. split; [exact H1 |].
      intros s' [<- | Hs']; [exact H2 | exact (H3 s' Hs')].
    + intros [H1 H2]. split; [split; [exact H1 | apply H2; left; reflexivity] |].
      intros s' Hs'. apply H2. right. exact Hs'.
Qed.

(** X15. When [self.rewards[s]] is readable for every stage [s] before
    [state.stage], [_get_total_rewards_by_agent] returns a dict in which an
    agent is a key exactly when it has at least one batch in one of those
    stages (an agent with only empty entries is left out, not mapped to 0). *)
Theorem total_rewards_by_agent (state_stage : nat) (rewards_at : nat -> result stage_rewards)
  (R : nat -> stage_rewards) :
  (forall s, (s < state_stage)%nat -> rewards_at s = Ok (R s)) ->
  exists acc, _get_total_rewards_by_agent state_stage rewards_at = Ok acc /\
    forall a,
      str_lookup a acc = None <->
      forall s, (s < state_stage)%nat -> stage_batches a (R s) = 0%nat.
Proof.
  intros HR.
  assert (HR' : forall s, In s (seq 0 state_stage) -> rewards_at s = Ok (R s)).
  { intros s Hs. apply in_seq in Hs. apply HR. lia. }
  exists (fold_left (fun acc s => add_stage acc (R s)) (seq 0 state_stage) []).
  split; [exact (total_loop_ok rewards_at R _ HR' []) |].
  intros a. rewrite (stages_spec a R (seq 0 state_stage) []). cbn [str_lookup]. split.
  - intros [_ H] s Hs. apply H. apply in_seq. lia.
  - intros H. split; [reflexivity |]. intros s Hs. apply in_seq in Hs. apply H. lia.
Qed.

(** X17. When the stages before [s0] are readable and reading
    [self.rewards[s0]] fails, for a stage [s0] before [state.stage],
    [_get_total_rewards_by_agent] fails with that error. *)
Theorem total_rewards_by_agent_error (state_stage s0 : nat)
  (rewards_at : nat -> result stage_rewards) (e : exn) :
  (s0 < state_stage)%nat ->
  (forall s, (s < s0)%nat -> exists r, rewards_at s = Ok r) ->
  rewards_at s0 = Err e ->
  _get_total_rewards_by_agent state_stage rewards_at = Err e.
Proof.
  intros Hlt HR He. unfold _get_total_rewards_by_agent.
  replace state_stage with (s0 + S (state_stage - S s0))%nat by lia.
  rewrite seq_app. cbn [seq Nat.add].
  apply total_loop_err; [| exact He].
  intros s Hs. apply in_seq in Hs. apply HR. lia.
Qed.

Definition rewards_demo : list stage_rewards :=
  [[(ascii_str "a", [(0, [[1; 2]; [3]]%Q)]); (ascii_str "b", [])];
   [(ascii_str "a", [(1, [[4]]%Q)])]].

Lemma total_rewards_by_agent_witness :
  exists acc,
    _get_total_rewards_by_agent 2
      (fun s => match nth_error rewards_demo s with Some r => Ok r | None => Err IndexError end)
    = Ok acc /\ str_lookup (ascii_str "a") acc <> None /\ str_lookup (ascii_str "b") acc = None.
Proof.
  assert (HR : forall s, (s < 2)%nat ->
            (fun s => match nth_error rewards_demo s with Some r => Ok r | None => Err IndexError end) s
            = Ok (nth s rewards_demo [])).
  { intros s Hs. destruct s as [| [| s]]; [reflexivity | reflexivity | lia]. }
  destruct (total_rewards_by_agent 2 _ (fun s => nth s rewards_demo []) HR) as [acc [Hacc Hall]].
  exists acc. split; [exact Hacc |]. split.
  - intros Ha. assert (H0 : (0 < 2)%nat) by lia.
    pose proof (proj1 (Hall (ascii_str "a")) Ha 0%nat H0) as Hb.
    vm_compute in Hb. discriminate Hb.
  - apply (proj2 (Hall (ascii_str "b"))). intros s Hs.
    destruct s as [| [| s]]; [reflexivity | reflexivity | lia].
Defined.

Lemma total_rewards_by_agent_error_witness :
  _get_total_rewards_by_agent 3
    (fun s => match nth_error rewards_demo s with Some r => Ok r | None => Err IndexError end)
  = Err IndexError.
Proof.
  apply (total_rewards_by_agent_error 3 2); [lia | | reflexivity].
  intros s Hs. destruct s as [| [| s]]; [eexists; reflexivity | eexists; reflexivity | lia].
Defined.

Lemma agent_block_loop_spec (tt : Q) (max_round : Z) (start_time : Q) (round : Z)
  (ticks : list (Q * result (Z * Z))) :
  forall n0 r' ex n,
  agent_block_loop tt max_round start_time round ticks n0 = (r', ex, n) ->
  round <= r' /\ (ex <> Joined -> r' = round) /\ (n0 <= n <= n0 + length ticks)%nat /\
  (ex = Joined -> (n0 < n)%nat /\
     exists clk s, nth_error ticks (n - n0 - 1) = Some (clk, Ok (r', s)) /\
       Forall (fun t => match snd t with Ok (rn, _) => rn < round | Err _ => True end)
         (firstn (n - n0 - 1) ticks)).
Proof.
  induction ticks as [| [clk resp] t IH]; intros n0 r' ex n H; cbn [agent_block_loop] in H.
  - injection H as <- <- <-.
    split; [lia | split; [auto | split; [cbn [length]; lia | discriminate]]].
  - destruct (negb (Qgtb tt (clk - start_time))).
    + injection H as <- <- <-.
      split; [lia | split; [auto | split; [cbn [length]; lia | discriminate]]].
    + destruct resp as [[rn s] | e].
      * destruct (rn >=? round) eqn:Eg.
        -- injection H as <- <- <-. apply Z.geb_le in Eg.
           split; [lia | split; [intros C; contradiction C; reflexivity |
                                 split; [cbn [length]; lia |]]].
           intros _. split; [lia |]. exists clk, s.
           replace (S n0 - n0 - 1)%nat with 0%nat by lia.
           split; [reflexivity | constructor].
        -- assert (Hlt : rn < round)
             by (rewrite Z.geb_leb in Eg; apply Z.leb_gt in Eg; exact Eg).
           destruct (rn =? max_round - 1).
           ++ injection H as <- <- <-.
              split; [lia | split; [auto | split; [cbn [length]; lia | discriminate]]].
           ++ destruct (IH (S n0) r' ex n H) as [H1 [H2 [H3 H4]]].
              split; [exact H1 | split; [exact H2 | split; [cbn [length]; lia |]]].
              intros Hj. destruct (H4 Hj) as [Hn0 [clk' [s' [Hn HF]]]].
              split; [lia |]. exists clk', s'.
              replace (n - n0 - 1)%nat with (S (n - S n0 - 1)) by lia.
              cbn [nth_error firstn]. split; [exact Hn |].
              constructor; [exact Hlt | exact HF].
      * destruct (IH (S n0) r' ex n H) as [H1 [H2 [H3 H4]]].
        split; [exact H1 | split; [exact H2 | split; [cbn [length]; lia |]]].
        intros Hj. destruct (H4 Hj) as [Hn0 [clk' [s' [Hn HF]]]].
        split; [lia |]. exists clk', s'.
        replace (n - n0 - 1)%nat with (S (n - S n0 - 1)) by lia.
        cbn [nth_error firstn]. split; [exact Hn |].
        constructor; [exact I | exact HF].
Qed.

(** X16. [agent_block] never lowers the local round, and changes it only
    when it returns because an answer reached it: the new round is then
    the round of the last answer it consumed, and every earlier answer that
    did not raise named a smaller round. It consumes at most the given
    answers. *)
Theorem agent_block_round (max_round : Z) (start_time : Q) (round : Z)
  (ticks : list (Q * result (Z * Z))) (r' : Z) (ex : block_exit) (n : nat) :
  agent_block max_round start_time round ticks = (r', ex, n) ->
  round <= r' /\ (ex <> Joined -> r' = round) /\ (n <= length ticks)%nat /\
  (ex = Joined ->
   exists clk s, nth_error ticks (n - 1) = Some (clk, Ok (r', s)) /\
     Forall (fun t => match snd t with Ok (rn, _) => rn < round | Err _ => True end)
       (firstn (n - 1) ticks)).
Proof.
  unfold agent_block. intros H.
  destruct (agent_block_loop_spec _ _ _ _ _ O r' ex n H) as [H1 [H2 [H3 H4]]].
  split; [exact H1 | split; [exact H2 | split; [lia |]]].
  intros Hj. destruct (H4 Hj) as [_ [clk [s [Hn HF]]]].
  replace (n - 0 - 1)%nat with (n - 1)%nat in * by lia.
  exists clk, s. split; assumption.
Qed.

Lemma agent_block_round_witness :
  agent_block 10 0 1 [(0%Q, Err RuntimeError); (1%Q, Ok (0, 0)); (2%Q, Ok (2, 0))]
  = (2, Joined, 3%nat) /\
  exists clk s,
    nth_error [(0%Q, Err RuntimeError); (1%Q, Ok (0, 0)); (2%Q, Ok (2, 0))] 2
    = Some (clk, Ok (2, s)).
Proof.
  assert (H : agent_block 10 0 1 [(0%Q, Err RuntimeError); (1%Q, Ok (0, 0)); (2%Q, Ok (2, 0))]
              = (2, Joined, 3%nat)) by (vm_compute; reflexivity).
  split; [exact H |].
  destruct (agent_block_round _ _ _ _ _ _ _ H) as [_ [_ [_ H4]]].
  destruct (H4 eq_refl) as [clk [s [Hn _]]]. exists clk, s. exact Hn.
Defined.
